(** * AI-Trader crypto core: position ledger and order settlement

    A shallow embedding of the Python modules

      - [tools/crypto/price_tools.py]      ([get_yesterday_date],
                                            [_normalize_bars], [snapshot_history],
                                            [_locate_bar], [_locate_previous],
                                            [get_open_prices],
                                            [get_yesterday_open_and_close_price],
                                            [get_daily_snapshot])
      - [tools/crypto/ccxt_client.py]      ([fetch_ticker], [get_last_price],
                                            [execute_order], [_cache_key],
                                            [fetch_ohlcv])
      - [tools/crypto/position_tools.py]   ([get_latest_position],
                                            [get_today_init_position],
                                            [add_no_trade_record])
      - [agent_tools/tool_trade_crypto.py] ([_position_lock] with the
                                            [__enter__] and [__exit__] of its
                                            class [_Lock], [_ensure_symbol],
                                            [_append_record], [_run_order],
                                            [buy], [sell])
      - [agent_tools/tool_get_price_crypto.py] ([get_crypto_price],
                                            [sync_crypto_history])
      - [agent/base_agent/base_crypto_agent.py] ([_handle_trading_result],
                                            [get_trading_dates])

    and the properties of the position ledger and of order settlement.

    Conventions of the embedding.

    - Python [float] is IEEE 754 binary64 with round-to-nearest-even, which
      is exactly Rocq's primitive [float]; quantities and prices are kept
      as [float] and every arithmetic operation and comparison of the
      source is the corresponding primitive one.  A Python [int] that
      meets a [float] stands for the [float] it converts to.
    - Python dictionaries keyed by strings are [gmap string _]; a key that
      the code reads with [.get] is an optional field.
    - The ledger file is the list of its lines, each line taken for what
      the reading loop makes of it (blank, not JSON, or a JSON object);
      [json.loads] gives back what [json.dumps] wrote.
    - Effects are threaded through an explicit [world]: the ledger files,
      the configuration values, the process-wide ticker cache, the advisory
      lock, and counters for the wall clock and the exchange, whose answers
      are arbitrary functions of how often they have been asked.
    - Strings are byte strings; [upper], [lower] and the date parser act
      on ASCII. *)

From Stdlib Require Import ZArith QArith Qabs Qpower Floats Ascii String List Lia Lqa.
From Stdlib Require Import DecimalString DecimalZ DecimalPos.
From stdpp Require Import gmap strings list.

Set Warnings "-inexact-float".
Local Open Scope string_scope.
Local Open Scope Z_scope.

(* ===================================================================== *)
(** ** Part I — definitions                                               *)
(* ===================================================================== *)

(** *** Calendar dates: [datetime.strptime], [timedelta], [strftime] *)

Module Calendar.

(** A civil date of the proleptic Gregorian calendar. *)
Record date := Date { year : Z; month : Z; day : Z }.

Definition is_leap (y : Z) : bool :=
  (y mod 4 =? 0) && (negb (y mod 100 =? 0) || (y mod 400 =? 0)).

Definition days_in_month (y m : Z) : Z :=
  if m =? 2 then (if is_leap y then 29 else 28)
  else if (m =? 4) || (m =? 6) || (m =? 9) || (m =? 11) then 30
  else 31.

(** What the [datetime] constructor accepts ([MINYEAR = 1]; four digits
    bound the year from above). *)
Definition valid (d : date) : bool :=
  (1 <=? year d) && (1 <=? month d) && (month d <=? 12)
  && (1 <=? day d) && (day d <=? days_in_month (year d) (month d)).

(** Days before the first of January of year [y], and before the first of
    month [m] of year [y]: [date.toordinal] is their sum plus the day. *)
Definition days_before_year (y : Z) : Z :=
  let p := y - 1 in p * 365 + p / 4 - p / 100 + p / 400.

Definition days_before_month (y m : Z) : Z :=
  let cum :=
    match m with
    | 1 => 0 | 2 => 31 | 3 => 59 | 4 => 90 | 5 => 120 | 6 => 151
    | 7 => 181 | 8 => 212 | 9 => 243 | 10 => 273 | 11 => 304 | _ => 334
    end in
  if (2 <? m) && is_leap y then cum + 1 else cum.

Definition toordinal (d : date) : Z :=
  days_before_year (year d) + days_before_month (year d) (month d) + day d.

(** [d - timedelta(days=1)]; [None] is the [OverflowError] below
    0001-01-01. *)
Definition minus_one_day (d : date) : option date :=
  if 1 <? day d then Some (Date (year d) (month d) (day d - 1))
  else if 1 <? month d then
    Some (Date (year d) (month d - 1) (days_in_month (year d) (month d - 1)))
  else if 1 <? year d then Some (Date (year d - 1) 12 31)
  else None.

(** ASCII decimal digits. *)
Definition digit (c : ascii) : option Z :=
  let n := Z.of_N (N_of_ascii c) in
  if (48 <=? n) && (n <=? 57) then Some (n - 48) else None.

Definition digit_char (n : Z) : ascii := ascii_of_N (Z.to_N (48 + n)).

(** The [%m] directive: the regular expression [1[0-2]|0[1-9]|[1-9]],
    alternatives tried in this order; returns the value and the rest. *)
Definition read_month (s : list ascii) : option (Z * list ascii) :=
  match s with
  | c1 :: rest1 =>
      let two :=
        match rest1 with
        | c2 :: rest2 =>
            match digit c1, digit c2 with
            | Some 1, Some b => if b <=? 2 then Some (10 + b, rest2) else None
            | Some 0, Some b => if 1 <=? b then Some (b, rest2) else None
            | _, _ => None
            end
        | [] => None
        end in
      match two with
      | Some r => Some r
      | None =>
          match digit c1 with
          | Some a => if 1 <=? a then Some (a, rest1) else None
          | None => None
          end
      end
  | [] => None
  end.

(** The [%d] directive: [3[0-1]|[1-2]\d|0[1-9]|[1-9]| [1-9]]. *)
Definition read_day (s : list ascii) : option (Z * list ascii) :=
  match s with
  | c1 :: rest1 =>
      let two :=
        match rest1 with
        | c2 :: rest2 =>
            match digit c1, digit c2 with
            | Some 3, Some b => if b <=? 1 then Some (30 + b, rest2) else None
            | Some 1, Some b => Some (10 + b, rest2)
            | Some 2, Some b => Some (20 + b, rest2)
            | Some 0, Some b => if 1 <=? b then Some (b, rest2) else None
            | None, Some b =>
                if (Ascii.eqb c1 " ") && (1 <=? b) then Some (b, rest2) else None
            | _, _ => None
            end
        | [] => None
        end in
      match two with
      | Some r => Some r
      | None =>
          match digit c1 with
          | Some a => if 1 <=? a then Some (a, rest1) else None
          | None => None
          end
      end
  | [] => None
  end.

(** [datetime.strptime(s, "%Y-%m-%d")]: four digits, a dash, a month, a
    dash, a day and nothing more; then the date must exist.  [None] is
    the [ValueError]. *)
Definition strptime (s : string) : option date :=
  match list_ascii_of_string s with
  | y1 :: y2 :: y3 :: y4 :: dash1 :: rest =>
      match digit y1, digit y2, digit y3, digit y4 with
      | Some a, Some b, Some c, Some d =>
          if Ascii.eqb dash1 "-" then
            match read_month rest with
            | Some (m, dash2 :: rest') =>
                if Ascii.eqb dash2 "-" then
                  match read_day rest' with
                  | Some (dd, []) =>
                      let r := Date (1000 * a + 100 * b + 10 * c + d) m dd in
                      if valid r then Some r else None
                  | _ => None
                  end
                else None
            | _ => None
            end
          else None
      | _, _, _, _ => None
      end
  | _ => None
  end.

Definition pad2 (n : Z) : list ascii :=
  [digit_char (n / 10 mod 10); digit_char (n mod 10)].

Definition pad4 (n : Z) : list ascii :=
  [digit_char (n / 1000 mod 10); digit_char (n / 100 mod 10);
   digit_char (n / 10 mod 10); digit_char (n mod 10)].

(** [d.strftime("%Y-%m-%d")], the year written with four digits. *)
Definition strftime (d : date) : string :=
  string_of_list_ascii
    (pad4 (year d) ++ ["-"%char] ++ pad2 (month d) ++ ["-"%char] ++ pad2 (day d)).

End Calendar.

(** Exceptions that the modelled code lets escape. *)
Inductive exn :=
  | JSONDecodeError          (* json.loads on a line that is not JSON *)
  | ValueError               (* strptime on a malformed date, float() on a bad string *)
  | OverflowError            (* date arithmetic below 0001-01-01 *)
  | NoLastPrice              (* RuntimeError("No last price found for ...") *)
  | VenueError (msg : string). (* whatever ccxt raises *)

(** [price_tools.get_yesterday_date]. *)
Definition get_yesterday_date (today_date : string) : exn + string :=
  match Calendar.strptime today_date with
  | None => inl ValueError
  | Some today =>
      match Calendar.minus_one_day today with
      | None => inl OverflowError
      | Some d => inr (Calendar.strftime d)
      end
  end.

(** *** Data model *)

(** A position: asset symbol (with the reserved ["CASH"]) to quantity. *)
Abbreviation position := (gmap string float).

(** [this_action] of a ledger record. *)
Record action := Action {
  act_action : string;               (* "buy", "sell" or "no_trade" *)
  act_symbol : string;
  act_amount : float;
  act_fill_price : option float      (* absent for "no_trade" *)
}.

(** The dictionary returned by [execute_order]; keys that one of the two
    shapes lacks are [None]. *)
Record FillRecord := Fill {
  fill_mode : string;                (* "paper" or "live" *)
  fill_symbol : string;
  fill_side : string;
  fill_amount : float;
  fill_fill_price : option float;    (* paper only *)
  fill_order_type : option string;   (* paper only *)
  fill_timestamp : option float;     (* paper only *)
  fill_order : option string         (* live only: the raw venue response *)
}.

(** One JSON object of [position.jsonl]; a key read with [.get] may be
    missing. *)
Record record := Rec {
  rec_date : option string;
  rec_id : option Z;
  rec_this_action : option action;
  rec_positions : option position;
  rec_order : option FillRecord
}.

(** A line of the ledger file, by what the reading loop makes of it:
    [line.strip()] is empty, [json.loads] raises, or it yields a record. *)
Inductive line :=
  | Blank
  | Garbled
  | Row (r : record).

(** Values found in a ccxt ticker: [None], a number, or a string (raw
    exchange payloads under ["info"] carry prices as strings). *)
Inductive pyval :=
  | PyNone
  | PyNum (x : float)
  | PyStr (s : string).

Record ticker := Ticker {
  t_last : option pyval;               (* ticker["last"], if the key exists *)
  t_close : option pyval;              (* ticker["close"] *)
  t_info : option (gmap string pyval)  (* ticker["info"] *)
}.

(** What [buy], [sell] and [_run_order] return: an error dictionary or the
    new positions. *)
Inductive reply :=
  | ErrNotConfigured                                   (* "SIGNATURE or TODAY_DATE not set" *)
  | ErrAmount                                          (* "amount must be positive" *)
  | ErrInsufficientCash (required_cash cash_available : float)
  | ErrInsufficientHolding (holding attempted : float)
  | Positions (p : position).

(** *** The world *)

(** Module-level constants read from the environment at import time, and
    what lies outside the repository: Python's [float()] on strings, the
    wall clock and the exchange.  The [n]-th reading of [time.time()] is
    [clock n]; the [n]-th request to the venue is answered by
    [venue_ticker n] or [venue_order n]. *)
Record settings := Settings {
  BASE_SYMBOL : string;
  DEFAULT_PAIR : string;
  DEFAULT_MODE : string;
  CACHE_TTL : float;
  str_to_float : string -> option float;
  clock : nat -> float;
  venue_ticker : nat -> string -> string -> exn + ticker;
  venue_order : nat -> string -> string -> string -> string -> float -> option float
                -> exn + string
}.

(** Modelled from the spec: [tools.general_tools.get_config_value] and
    [write_config_value] are not among the sources; the three keys the
    trade tool uses (the current agent, the current date and the "trade
    occurred" flag) are fields of the world. *)
Record world := World {
  env : settings;
  files : gmap string (list line);          (* position.jsonl, by signature *)
  locks : gset string;                      (* .position.lock held, by signature *)
  cfg_SIGNATURE : option string;
  cfg_TODAY_DATE : option string;
  cfg_IF_TRADE : bool;
  TICKER_CACHE : gmap string (float * ticker);
  ticks : nat;                              (* readings of the clock so far *)
  calls : nat                               (* requests to the venue so far *)
}.

Definition set_files (f : gmap string (list line)) (w : world) : world :=
  World (env w) f (locks w) (cfg_SIGNATURE w) (cfg_TODAY_DATE w) (cfg_IF_TRADE w)
        (TICKER_CACHE w) (ticks w) (calls w).

Definition set_locks (l : gset string) (w : world) : world :=
  World (env w) (files w) l (cfg_SIGNATURE w) (cfg_TODAY_DATE w) (cfg_IF_TRADE w)
        (TICKER_CACHE w) (ticks w) (calls w).

Definition set_IF_TRADE (b : bool) (w : world) : world :=
  World (env w) (files w) (locks w) (cfg_SIGNATURE w) (cfg_TODAY_DATE w) b
        (TICKER_CACHE w) (ticks w) (calls w).

Definition set_TICKER_CACHE (c : gmap string (float * ticker)) (w : world) : world :=
  World (env w) (files w) (locks w) (cfg_SIGNATURE w) (cfg_TODAY_DATE w) (cfg_IF_TRADE w)
        c (ticks w) (calls w).

Definition set_ticks (n : nat) (w : world) : world :=
  World (env w) (files w) (locks w) (cfg_SIGNATURE w) (cfg_TODAY_DATE w) (cfg_IF_TRADE w)
        (TICKER_CACHE w) n (calls w).

Definition set_calls (n : nat) (w : world) : world :=
  World (env w) (files w) (locks w) (cfg_SIGNATURE w) (cfg_TODAY_DATE w) (cfg_IF_TRADE w)
        (TICKER_CACHE w) (ticks w) n.

(** *** A state-and-exception monad over the world *)

(** A call returns, raises, or never returns ([Blocked]: [flock] waiting on
    a lock that is held). *)
Inductive outcome (A : Type) :=
  | Ret (a : A)
  | Raise (e : exn)
  | Blocked.
Arguments Ret {A} a.
Arguments Raise {A} e.
Arguments Blocked {A}.

Definition M (A : Type) : Type := world -> outcome A * world.

Definition ret {A} (a : A) : M A := fun w => (Ret a, w).
Definition raise {A} (e : exn) : M A := fun w => (Raise e, w).

Definition bind {A B} (m : M A) (k : A -> M B) : M B :=
  fun w =>
    match m w with
    | (Ret a, w') => k a w'
    | (Raise e, w') => (Raise e, w')
    | (Blocked, w') => (Blocked, w')
    end.

Notation "'do' x <- m ; k" := (bind m (fun x => k))
  (at level 10, x name, m at level 100, k at level 200).
Notation "'do' ' p <- m ; k" := (bind m (fun x => match x with p => k end))
  (at level 10, p pattern, m at level 100, k at level 200).

Definition gets {A} (f : world -> A) : M A := fun w => (Ret (f w), w).
Definition modify (f : world -> world) : M unit := fun w => (Ret tt, f w).

Definition lift {A} (r : exn + A) : M A :=
  match r with inl e => raise e | inr a => ret a end.

(** [time.time()]. *)
Definition time_time : M float :=
  fun w => (Ret (clock (env w) (ticks w)), set_ticks (S (ticks w)) w).

(** *** Strings: [s or default], [str.upper], [str.lower] (ASCII) *)

Definition str_or (s : option string) (dflt : string) : string :=
  match s with
  | Some s' => if String.eqb s' EmptyString then dflt else s'
  | None => dflt
  end.

Definition upper_char (c : ascii) : ascii :=
  let n := N_of_ascii c in
  if ((97 <=? n) && (n <=? 122))%N then ascii_of_N (n - 32) else c.

Definition lower_char (c : ascii) : ascii :=
  let n := N_of_ascii c in
  if ((65 <=? n) && (n <=? 90))%N then ascii_of_N (n + 32) else c.

Fixpoint upper (s : string) : string :=
  match s with
  | EmptyString => EmptyString
  | String c s' => String (upper_char c) (upper s')
  end.

Fixpoint lower (s : string) : string :=
  match s with
  | EmptyString => EmptyString
  | String c s' => String (lower_char c) (lower s')
  end.

(** *** [tools/crypto/ccxt_client.py] *)

(** [exchange.fetch_ticker(pair)] on the exchange built for [trade_mode]. *)
Definition exchange_fetch_ticker (trade_mode pair : string) : M ticker :=
  fun w => (match venue_ticker (env w) (calls w) trade_mode pair with
            | inl e => Raise e
            | inr t => Ret t
            end, set_calls (S (calls w)) w).

(** [exchange.create_order(pair, order_type, side, amount, price, params)]. *)
Definition exchange_create_order (trade_mode pair order_type side : string)
    (amount : float) (price : option float) : M string :=
  fun w => (match venue_order (env w) (calls w) trade_mode pair order_type side amount price with
            | inl e => Raise e
            | inr o => Ret o
            end, set_calls (S (calls w)) w).

Definition fetch_ticker (symbol mode : option string) : M ticker :=
  do cfg <- gets env;
  let pair := upper (str_or symbol (DEFAULT_PAIR cfg)) in
  let cache_id := pair in
  do now <- time_time;
  do cached <- gets (fun w => TICKER_CACHE w !! cache_id);
  let refresh :=
    do t <- exchange_fetch_ticker (lower (str_or mode (DEFAULT_MODE cfg))) pair;
    do _ <- modify (fun w => set_TICKER_CACHE (<[cache_id := (now, t)]> (TICKER_CACHE w)) w);
    ret t in
  match cached with
  | Some (ts, data) =>
      if (now - ts <? CACHE_TTL cfg)%float then ret data else refresh
  | None => refresh
  end.

(** Python truthiness of a ticker value. *)
Definition truthy (v : pyval) : bool :=
  match v with
  | PyNone => false
  | PyNum x => negb (x =? 0)%float
  | PyStr s => negb (String.eqb s EmptyString)
  end.

(** [a or b]. *)
Definition py_or (a b : pyval) : pyval := if truthy a then a else b.

(** [d.get(key)] on a key that may be missing. *)
Definition dict_get (v : option pyval) : pyval := default PyNone v.

(** [ticker.get("info", {}).get("lastPrice")]. *)
Definition info_lastPrice (t : ticker) : pyval :=
  dict_get (default ∅ (t_info t) !! "lastPrice").

Definition get_last_price (symbol mode : option string) : M float :=
  do t <- fetch_ticker symbol mode;
  let price := py_or (py_or (dict_get (t_last t)) (dict_get (t_close t))) (info_lastPrice t) in
  match price with
  | PyNone => raise NoLastPrice
  | PyNum x => ret x
  | PyStr s =>
      do cfg <- gets env;
      match str_to_float cfg s with
      | Some x => ret x
      | None => raise ValueError
      end
  end.

Definition execute_order (side : string) (amount : float) (symbol : option string)
    (order_type : string) (price : option float) (mode : option string) : M FillRecord :=
  do cfg <- gets env;
  let pair := upper (str_or symbol (DEFAULT_PAIR cfg)) in
  let trade_mode := lower (str_or mode (DEFAULT_MODE cfg)) in
  do px <- match price with
           | Some p => ret p
           | None => get_last_price (Some pair) (Some trade_mode)
           end;
  if negb (String.eqb trade_mode "live") then
    do ts <- time_time;
    ret (Fill "paper" pair side amount (Some px) (Some order_type) (Some ts) None)
  else
    do order <- exchange_create_order trade_mode pair order_type side amount price;
    ret (Fill "live" pair side amount None None None (Some order)).

(** *** [tools/crypto/position_tools.py] *)

(** [record.get("id", -1)] and [record.get("positions", {})]. *)
Definition get_id (r : record) : Z := default (-1) (rec_id r).
Definition get_positions (r : record) : position := default ∅ (rec_positions r).

(** [record.get("date") == d]. *)
Definition date_is (d : string) (r : record) : bool :=
  match rec_date r with
  | Some d' => String.eqb d' d
  | None => false
  end.

(** One [for line in fin] loop of [get_latest_position]: the running
    [(latest_positions, max_id)] over the lines of the file for the date
    [d].  Blank lines are skipped; [json.loads] raises on a garbled one. *)
Fixpoint scan (d : string) (lines : list line) (acc : position * Z)
    : exn + (position * Z) :=
  match lines with
  | [] => inr acc
  | Blank :: rest => scan d rest acc
  | Garbled :: _ => inl JSONDecodeError
  | Row r :: rest =>
      if date_is d r then
        let rec_id := get_id r in
        if rec_id >? snd acc then scan d rest (get_positions r, rec_id)
        else scan d rest acc
      else scan d rest acc
  end.

(** The body of [get_latest_position] once the file is located: [None]
    when it does not exist, else its lines. *)
Definition latest_of (today_date : string) (file : option (list line))
    : exn + (position * Z) :=
  match file with
  | None => inr (∅, -1)
  | Some lines =>
      match scan today_date lines (∅, -1) with
      | inl e => inl e
      | inr (latest_positions, max_id_today) =>
          if max_id_today >=? 0 then inr (latest_positions, max_id_today)
          else
            match get_yesterday_date today_date with
            | inl e => inl e
            | inr prev_date => scan prev_date lines (∅, -1)
            end
      end
  end.

Definition get_latest_position (today_date signature : string) : M (position * Z) :=
  do file <- gets (fun w => files w !! signature);
  lift (latest_of today_date file).

Definition get_today_init_position (today_date signature : string) : M position :=
  do prev_date <- lift (get_yesterday_date today_date);
  do '(positions, _) <- get_latest_position prev_date signature;
  ret positions.

(** Opening the file in mode ["a"] and writing one line: the file is
    created when it does not exist. *)
Definition append_line (signature : string) (l : line) : M unit :=
  modify (fun w =>
    set_files (<[signature := (default [] (files w !! signature) ++ [l])%list]> (files w)) w).

Definition add_no_trade_record (today_date signature : string) : M unit :=
  do '(positions, max_id) <- get_latest_position today_date signature;
  let payload :=
    Rec (Some today_date) (Some (max_id + 1))
        (Some (Action "no_trade" EmptyString 0%float None))
        (Some positions) None in
  append_line signature (Row payload).

(** *** [agent_tools/tool_trade_crypto.py] *)

(** The two methods of the class [_Lock] that [_position_lock] returns.
    [__enter__] is [fcntl.flock(fh, LOCK_EX)]: it takes the exclusive lock
    of the agent's lock file, and does not return for as long as the lock
    is held through another open file. *)
Definition _Lock__enter__ (signature : string) : M unit :=
  fun w =>
    if bool_decide (signature ∈ locks w) then (Blocked, w)
    else (Ret tt, set_locks ({[signature]} ∪ locks w) w).

(** [__exit__] is [fcntl.flock(fh, LOCK_UN)], after which the file is
    closed. *)
Definition _Lock__exit__ (signature : string) : M unit :=
  modify (fun w => set_locks (locks w ∖ {[signature]}) w).

(** [with _position_lock(signature): body]: [__enter__], the body, and
    [__exit__] however the body ends. *)
Definition _position_lock {A} (signature : string) (body : M A) : M A :=
  fun w =>
    match _Lock__enter__ signature w with
    | (Ret _, w1) =>
        let '(r, w') := body w1 in
        (r, (_Lock__exit__ signature w').2)
    | (Raise e, w1) => (Raise e, w1)
    | (Blocked, w1) => (Blocked, w1)
    end.

(** [d.setdefault(k, v)] and [d.get(k, 0.0)]. *)
Definition setdefault (k : string) (v : float) (p : position) : position :=
  match p !! k with
  | Some _ => p
  | None => <[k := v]> p
  end.

Definition get0 (p : position) (k : string) : float := default 0%float (p !! k).

Definition _ensure_symbol (base : string) (p : position) : position :=
  setdefault "CASH" 0%float (setdefault base 0%float p).

Definition _append_record (signature : string) (payload : record) : M unit :=
  append_line signature (Row payload).

(** [not positions]: the dictionary is empty. *)
Definition is_empty (p : position) : bool := bool_decide (dom p = ∅).

(** The [if side == "buy": ... else: ...] block of [_run_order]: either the
    error dictionary of an early [return], or the updated positions. *)
Definition apply_side (base side : string) (fill_price amount : float) (positions : position)
    : reply + position :=
  if String.eqb side "buy" then
    let cost := (fill_price * amount)%float in
    let cash := (get0 positions "CASH" - cost)%float in
    if (cash <? 0)%float then
      inl (ErrInsufficientCash cost (get0 positions "CASH"))
    else
      let positions := <["CASH" := cash]> positions in
      inr (<[base := (get0 positions base + amount)%float]> positions)
  else
    let holding := get0 positions base in
    if (holding <? amount)%float then
      inl (ErrInsufficientHolding holding amount)
    else
      let proceeds := (fill_price * amount)%float in
      let positions := <[base := (holding - amount)%float]> positions in
      inr (<["CASH" := (get0 positions "CASH" + proceeds)%float]> positions).

Definition _run_order (side : string) (amount : float) (signature today_date : string)
    (order_type : string) : M reply :=
  _position_lock signature (
    do cfg <- gets env;
    do '(positions, last_id) <- get_latest_position today_date signature;
    let positions :=
      if is_empty positions
      then <[BASE_SYMBOL cfg := 0%float]> (<["CASH" := 0%float]> ∅)
      else positions in
    let positions := _ensure_symbol (BASE_SYMBOL cfg) positions in
    do px <- get_last_price None None;
    do order <- execute_order side amount None order_type None None;
    let fill_price := default px (fill_fill_price order) in
    match apply_side (BASE_SYMBOL cfg) side fill_price amount positions with
    | inl err => ret err
    | inr positions =>
        let payload :=
          Rec (Some today_date) (Some (last_id + 1))
              (Some (Action side (BASE_SYMBOL cfg) amount (Some fill_price)))
              (Some positions) (Some order) in
        do _ <- _append_record signature payload;
        do _ <- modify (set_IF_TRADE true);
        ret (Positions positions)
    end).

(** [not s] for a configuration value that may be unset. *)
Definition unset (s : option string) : bool :=
  match s with
  | Some s' => String.eqb s' EmptyString
  | None => true
  end.

Definition buy (amount : float) : M reply :=
  do signature <- gets cfg_SIGNATURE;
  do today_date <- gets cfg_TODAY_DATE;
  if unset signature || unset today_date then ret ErrNotConfigured
  else if (amount <=? 0)%float then ret ErrAmount
  else _run_order "buy" amount (default EmptyString signature) (default EmptyString today_date) "market".

Definition sell (amount : float) : M reply :=
  do signature <- gets cfg_SIGNATURE;
  do today_date <- gets cfg_TODAY_DATE;
  if unset signature || unset today_date then ret ErrNotConfigured
  else if (amount <=? 0)%float then ret ErrAmount
  else _run_order "sell" amount (default EmptyString signature) (default EmptyString today_date) "market".

(** *** [agent/base_agent/base_crypto_agent.py] *)

(** [_handle_trading_result]: after a session, clear the trade flag or
    carry the positions with a no-trade record. *)
Definition _handle_trading_result (self_signature today_date : string) : M unit :=
  do traded <- gets cfg_IF_TRADE;
  if traded then modify (set_IF_TRADE false)
  else add_no_trade_record today_date self_signature.

(** *** Vocabulary of the properties *)

(** The records of a ledger file, in file order, and those of one date. *)
Fixpoint rows (lines : list line) : list record :=
  match lines with
  | [] => []
  | Row r :: rest => r :: rows rest
  | _ :: rest => rows rest
  end.

Definition on_date (d : string) (lines : list line) : list record :=
  List.filter (date_is d) (rows lines).

(** [res] is the positions and id of a record of [rs] whose id is
    maximal in [rs]. *)
Definition is_latest_of (rs : list record) (res : position * Z) : Prop :=
  ∃ r, r ∈ rs ∧ res = (get_positions r, get_id r) ∧ ∀ r', r' ∈ rs → get_id r' <= get_id r.

(** The ledger of an agent, empty when the file does not exist. *)
Definition ledger (signature : string) (w : world) : list line :=
  default [] (files w !! signature).

(** The world with one more record at the end of an agent's ledger. *)
Definition appended (signature : string) (r : record) (w : world) : world :=
  set_files (<[signature := (ledger signature w ++ [Row r])%list]> (files w)) w.

(** Taking and releasing an agent's lock. *)
Definition lock (signature : string) (w : world) : world :=
  set_locks ({[signature]} ∪ locks w) w.

Definition unlock (signature : string) (w : world) : world :=
  set_locks (locks w ∖ {[signature]}) w.

(** The two gateway calls of [_run_order], up to the fill price it
    settles at: [order.get("fill_price", px)]. *)
Definition quote (side : string) (amount : float) (order_type : string)
    : M (float * FillRecord) :=
  do px <- get_last_price None None;
  do order <- execute_order side amount None order_type None None;
  ret (default px (fill_fill_price order), order).

(** The positions [_run_order] starts from: the latest snapshot, seeded
    when empty, with both symbols present. *)
Definition opening (base : string) (p : position) : position :=
  _ensure_symbol base
    (if is_empty p then <[base := 0%float]> (<["CASH" := 0%float]> ∅) else p).

(** The records the two writers build. *)
Definition trade_record (today_date : string) (last_id : Z) (side base : string)
    (amount fill_price : float) (p : position) (order : FillRecord) : record :=
  Rec (Some today_date) (Some (last_id + 1))
      (Some (Action side base amount (Some fill_price))) (Some p) (Some order).

Definition no_trade_record (today_date : string) (max_id : Z) (p : position) : record :=
  Rec (Some today_date) (Some (max_id + 1))
      (Some (Action "no_trade" EmptyString 0%float None)) (Some p) None.

(** Two worlds that differ at most in the ticker cache and in how often
    the clock and the venue have been consulted. *)
Definition same_books (w w' : world) : Prop :=
  env w' = env w ∧ files w' = files w ∧ locks w' = locks w
  ∧ cfg_SIGNATURE w' = cfg_SIGNATURE w ∧ cfg_TODAY_DATE w' = cfg_TODAY_DATE w
  ∧ cfg_IF_TRADE w' = cfg_IF_TRADE w.

Definition keeps_books {A} (m : M A) : Prop := ∀ w, same_books w (m w).2.

(** The field [get_last_price] settles on: [last or close or
    info.lastPrice]. *)
Definition chosen_price (t : ticker) : pyval :=
  py_or (py_or (dict_get (t_last t)) (dict_get (t_close t))) (info_lastPrice t).

(** A fill record with another timestamp. *)
Definition with_timestamp (ts : option float) (f : FillRecord) : FillRecord :=
  Fill (fill_mode f) (fill_symbol f) (fill_side f) (fill_amount f) (fill_fill_price f)
       (fill_order_type f) ts (fill_order f).

(** The rational number a finite [float] stands for. *)
Definition Fval (x : float) : option Q :=
  match Prim2SF x with
  | S754_zero _ => Some 0%Q
  | S754_finite s m e =>
      Some ((if s then -1 else 1) * inject_Z (Z.pos m) * Qpower 2 e)%Q
  | _ => None
  end.

(** A floating-point operation that incurred no rounding: its result
    stands for the exact result on the numbers its operands stand for. *)
Definition exact2 (fop : float → float → float) (qop : Q → Q → Q) (x y : float) : bool :=
  match Fval x, Fval y, Fval (fop x y) with
  | Some a, Some b, Some c => Qeq_bool c (qop a b)
  | _, _, _ => false
  end.

(** Cash plus holding valued at [price], as an exact number. *)
Definition notional (base : string) (price : float) (p : position) : option Q :=
  match Fval (get0 p "CASH"), Fval (get0 p base), Fval price with
  | Some c, Some h, Some q => Some (c + h * q)%Q
  | _, _, _ => None
  end.

(** The same, computed the way a Python test would. *)
Definition notional_float (base : string) (price : float) (p : position) : float :=
  (get0 p "CASH" + get0 p base * price)%float.

(** *** Rounding *)

(** A number of the binary64 format, as an exact number: [Fval] is
    [SFval] of the format's specification of a [float]. *)
Definition SFval (x : spec_float) : option Q :=
  match x with
  | S754_zero _ => Some 0%Q
  | S754_finite s m e => Some ((if s then -1 else 1) * inject_Z (Z.pos m) * Qpower 2 e)%Q
  | _ => None
  end.

(** The number with sign [s] and magnitude [R] in units of [2^e]. *)
Definition qv (s : bool) (R e : Z) : Q :=
  ((if s then -1 else 1) * inject_Z R * Qpower 2 e)%Q.

(** What one rounded operation of binary64 can be off by when its exact
    result is [x]: [2^-53] of [x] (half a unit in the last of 53 binary
    digits), or half of the smallest positive number, [2^-1074], where
    the format has fewer digits. *)
Definition u64 : Q := Qpower 2 (-53).
Definition eta64 : Q := Qpower 2 (-1075).
Definition rounding_bound (x : Q) : Q := (u64 * Qabs x + eta64)%Q.

(** Shifting a mantissa to the right, as the format's specification does
    it: after [k] steps the record holds the quotient by [2^k], the bit
    below it, and whether anything lies further below. *)
Definition b2z (b : bool) : Z := if b then 1 else 0.

Definition shr_inv (m k : Z) (mrs : shr_record) : Prop :=
  0 <= shr_m mrs ∧
  ∃ t, 2 * m = (2 * shr_m mrs + b2z (shr_r mrs)) * 2 ^ k + t
            ∧ 0 <= t < 2 ^ k ∧ (shr_s mrs = true ↔ t ≠ 0).

(** How far the integer [R], in units of [2^e], is from [m]: within
    [2^-53] of [m], or within half of [2^-1074]. *)
Definition round_err (m e R : Z) : Prop :=
  Z.abs (R - m) * 2 ^ 53 <= m
  ∨ (e <= -1075 ∧ 2 * Z.abs (R - m) <= 2 ^ (-1074 - e)).

(** The ids of the records of one date, in file order. *)
Definition ids_on (d : string) (lines : list line) : list Z :=
  map get_id (on_date d lines).

(** Each element is its predecessor plus one: strictly increasing,
    without gaps. *)
Fixpoint consecutive (l : list Z) : bool :=
  match l with
  | a :: (b :: _) as rest => (b =? a + 1) && consecutive rest
  | _ => true
  end.

(** A ledger in which every record was numbered from what
    [get_latest_position] answered on the lines before it: the record's
    id is that answer's [last_id] plus one, for the record's own date.
    (A first record may have been written when the file did not exist
    yet.) *)
Inductive chained : list line → Prop :=
  | chained_nil : chained []
  | chained_blank L : chained L → chained (L ++ [Blank])
  | chained_row L r d p m :
      chained L →
      rec_date r = Some d → rec_id r = Some (m + 1) →
      latest_of d (Some L) = inr (p, m) ∨ (L = [] ∧ m = -1) →
      chained (L ++ [Row r]).

(** The first record of a date carries the id 0, or one more than the
    largest id the day before had in the lines that precede it. *)
Definition first_id_ok (d : string) (lines : list line) : Prop :=
  ∀ i rest, ids_on d lines = i :: rest →
    ∃ before after r,
      lines = (before ++ Row r :: after)%list
      ∧ ids_on d before = [] ∧ date_is d r = true ∧ get_id r = i
      ∧ (i = 0
         ∨ ∃ prev, get_yesterday_date d = inr prev
                   ∧ i - 1 ∈ ids_on prev before
                   ∧ ∀ k, k ∈ ids_on prev before → k <= i - 1).

(** What can happen to the world, one step at a time: the two tools, the
    two callers of the no-trade writer, and the orchestration layer
    choosing the agent and the date. *)
Inductive op :=
  | OpBuy (amount : float)
  | OpSell (amount : float)
  | OpNoTrade (today_date signature : string)
  | OpHandleTradingResult (signature today_date : string)
  | OpSetContext (signature today_date : option string).

Definition set_context (signature today_date : option string) (w : world) : world :=
  World (env w) (files w) (locks w) signature today_date (cfg_IF_TRADE w)
        (TICKER_CACHE w) (ticks w) (calls w).

Definition exec (o : op) (w : world) : world :=
  match o with
  | OpBuy amount => (buy amount w).2
  | OpSell amount => (sell amount w).2
  | OpNoTrade today_date signature => (add_no_trade_record today_date signature w).2
  | OpHandleTradingResult signature today_date =>
      (_handle_trading_result signature today_date w).2
  | OpSetContext signature today_date => set_context signature today_date w
  end.

Definition run (ops : list op) (w : world) : world :=
  fold_left (fun w o => exec o w) ops w.

(** One step appended one record, numbered from the latest position
    read in the world before. *)
Definition appended_next (w w' : world) : Prop :=
  ∃ sig r d p m,
    files w' = <[sig := (ledger sig w ++ [Row r])%list]> (files w)
    ∧ rec_date r = Some d ∧ rec_id r = Some (m + 1)
    ∧ get_latest_position d sig w = (Ret (p, m), w).

(** [json.loads] succeeds on every non-blank line of the file. *)
Definition parses (l : line) : bool :=
  match l with
  | Garbled => false
  | _ => true
  end.

Definition readable (lines : list line) : bool := forallb parses lines.

(** Every record carries an id, and none is negative (ids are assigned
    as a previous maximum, at least [-1], plus one). *)
Definition ids_nonneg (lines : list line) : bool :=
  forallb (fun r => match rec_id r with Some i => 0 <=? i | None => false end) (rows lines).

(** The file without its blank lines. *)
Definition strip_blank (lines : list line) : list line :=
  List.filter (fun l => match l with Blank => false | _ => true end) lines.

(** *** Concurrent calls of [_run_order] for one agent *)

(** Several calls of [_run_order] for the same agent and date run at the
    same time over one world.  A call advances one statement at a time,
    and the calls interleave in any order.  The statements are those of
    the source: [__enter__], [get_latest_position], the two gateway
    calls, the validation with the append, and [__exit__].  A call whose
    next statement does not return in the current world ([__enter__]
    while the lock is held) cannot move until the world has changed. *)
Record request := Request {
  req_side : string;
  req_amount : float;
  req_order_type : string
}.

(** Where a call stands in the body of [_run_order]. *)
Inductive stage :=
  | Waiting                                     (* in [__enter__], lock not granted yet *)
  | Entered                                     (* lock held *)
  | Loaded (positions : position) (last_id : Z) (* [get_latest_position] answered *)
  | Quoted (positions : position) (last_id : Z) (fill_price : float) (order : FillRecord)
  | Leaving (r : outcome reply)                 (* body over, [__exit__] pending *)
  | Returned (r : outcome reply).

(** The validation and the append: lines 70 to 94. *)
Definition settle_step (sig today : string) (rq : request) (p : position) (last_id : Z)
    (fill_price : float) (order : FillRecord) (w : world) : outcome reply * world :=
  let base := BASE_SYMBOL (env w) in
  match apply_side base (req_side rq) fill_price (req_amount rq) (opening base p) with
  | inl err => (Ret err, w)
  | inr p' =>
      (Ret (Positions p'),
       set_IF_TRADE true
         (appended sig
            (trade_record today last_id (req_side rq) base (req_amount rq) fill_price p' order)
            w))
  end.

(** One statement of one call; [None] when the call cannot move (it waits
    for the lock, or it has returned). *)
Definition advance (sig today : string) (rq : request) (s : stage) (w : world)
    : option (stage * world) :=
  match s with
  | Waiting =>
      match _Lock__enter__ sig w with
      | (Ret _, w') => Some (Entered, w')
      | (Raise e, w') => Some (Returned (Raise e), w')
      | (Blocked, _) => None
      end
  | Entered =>
      match get_latest_position today sig w with
      | (Ret (p, last_id), w') => Some (Loaded p last_id, w')
      | (Raise e, w') => Some (Leaving (Raise e), w')
      | (Blocked, w') => Some (Leaving Blocked, w')
      end
  | Loaded p last_id =>
      match quote (req_side rq) (req_amount rq) (req_order_type rq) w with
      | (Ret (fill_price, order), w') => Some (Quoted p last_id fill_price order, w')
      | (Raise e, w') => Some (Leaving (Raise e), w')
      | (Blocked, w') => Some (Leaving Blocked, w')
      end
  | Quoted p last_id fill_price order =>
      let '(r, w') := settle_step sig today rq p last_id fill_price order w in
      Some (Leaving r, w')
  | Leaving r => Some (Returned r, (_Lock__exit__ sig w).2)
  | Returned _ => None
  end.

(** One call on its own: its statements one after the other, until it
    has returned or cannot move.  A call has five statements. *)
Fixpoint run_alone (n : nat) (sig today : string) (rq : request) (s : stage) (w : world)
    : stage * world :=
  match n with
  | O => (s, w)
  | S n' =>
      match advance sig today rq s w with
      | Some (s', w') => run_alone n' sig today rq s' w'
      | None => (s, w)
      end
  end.

(** What a caller sees of a call that runs alone: the reply once the call
    has returned, and no reply at all while it has not. *)
Definition call_alone (sig today : string) (rq : request) (w : world)
    : outcome reply * world :=
  match run_alone 5 sig today rq Waiting w with
  | (Returned r, w') => (r, w')
  | (_, w') => (Blocked, w')
  end.

(** What remains of a call from a stage on, run without interruption:
    the reply and the world once the lock is released. *)
Definition finish_quoted (sig today : string) (rq : request) (p : position) (last_id : Z)
    (fill_price : float) (order : FillRecord) (w : world) : outcome reply * world :=
  let '(r, w') := settle_step sig today rq p last_id fill_price order w in
  (r, unlock sig w').

Definition finish_loaded (sig today : string) (rq : request) (p : position) (last_id : Z)
    (w : world) : outcome reply * world :=
  match quote (req_side rq) (req_amount rq) (req_order_type rq) w with
  | (Ret (fill_price, order), w') => finish_quoted sig today rq p last_id fill_price order w'
  | (Raise e, w') => (Raise e, unlock sig w')
  | (Blocked, w') => (Blocked, unlock sig w')
  end.

Definition finish_entered (sig today : string) (rq : request) (w : world)
    : outcome reply * world :=
  match latest_of today (files w !! sig) with
  | inl e => (Raise e, unlock sig w)
  | inr (p, last_id) => finish_loaded sig today rq p last_id w
  end.

Definition finish (sig today : string) (rq : request) (s : stage) (w : world)
    : outcome reply * world :=
  match s with
  | Waiting => finish_entered sig today rq (lock sig w)
  | Entered => finish_entered sig today rq w
  | Loaded p last_id => finish_loaded sig today rq p last_id w
  | Quoted p last_id fill_price order => finish_quoted sig today rq p last_id fill_price order w
  | Leaving r => (r, unlock sig w)
  | Returned r => (r, w)
  end.

(** The calls in flight and the world they share. *)
Record system := System {
  shared : world;
  threads : list (request * stage)
}.

(** Call number [i] executes its next statement. *)
Definition sys_step (sig today : string) (i : nat) (sys : system) : option system :=
  match threads sys !! i with
  | Some (rq, s) =>
      match advance sig today rq s (shared sys) with
      | Some (s', w') => Some (System w' (<[i := (rq, s')]> (threads sys)))
      | None => None
      end
  | None => None
  end.

(** An interleaving: which call moves at each step. *)
Fixpoint run_schedule (sig today : string) (sched : list nat) (sys : system)
    : option system :=
  match sched with
  | [] => Some sys
  | i :: rest =>
      match sys_step sig today i sys with
      | Some sys' => run_schedule sig today rest sys'
      | None => None
      end
  end.

(** Call number [i], still waiting, runs alone from start to end. *)
Definition serial_step (sig today : string) (i : nat) (sys : system) : option system :=
  match threads sys !! i with
  | Some (rq, Waiting) =>
      let '(r, w') :=
        _run_order (req_side rq) (req_amount rq) sig today (req_order_type rq) (shared sys) in
      Some (System w' (<[i := (rq, Returned r)]> (threads sys)))
  | _ => None
  end.

Fixpoint serial_run (sig today : string) (order : list nat) (sys : system)
    : option system :=
  match order with
  | [] => Some sys
  | i :: rest =>
      match serial_step sig today i sys with
      | Some sys' => serial_run sig today rest sys'
      | None => None
      end
  end.

Definition in_critical_section (s : stage) : bool :=
  match s with
  | Entered | Loaded _ _ | Quoted _ _ _ _ | Leaving _ => true
  | Waiting | Returned _ => false
  end.

Definition has_returned (s : stage) : bool :=
  match s with
  | Returned _ => true
  | _ => false
  end.

(** No call is inside the [with] block and the lock is free. *)
Definition quiescent (sig : string) (sys : system) : Prop :=
  (sig ∉ locks (shared sys))
  ∧ ∀ i rq s, threads sys !! i = Some (rq, s) → in_critical_section s = false.

(** Call [i] is inside the [with] block, alone, and the lock is held. *)
Definition holds (sig : string) (i : nat) (sys : system) : Prop :=
  sig ∈ locks (shared sys)
  ∧ (∃ rq s, threads sys !! i = Some (rq, s) ∧ in_critical_section s = true)
  ∧ ∀ j rq s, threads sys !! j = Some (rq, s) → j ≠ i → in_critical_section s = false.

Definition all_returned (sys : system) : Prop :=
  ∀ i rq s, threads sys !! i = Some (rq, s) → has_returned s = true.

(** All calls about to start. *)
Definition start (w : world) (reqs : list request) : system :=
  System w (map (fun rq => (rq, Waiting)) reqs).

(** The price feed answers [px] whatever happens: paper mode, a venue
    whose tickers all settle on [px], and nothing else in the cache. *)
Definition steady (px : float) (w : world) : Prop :=
  lower (str_or None (DEFAULT_MODE (env w))) ≠ "live"
  ∧ (∀ n mode pair, ∃ t, venue_ticker (env w) n mode pair = inr t
                         ∧ chosen_price t = PyNum px)
  ∧ (∀ k ts t, TICKER_CACHE w !! k = Some (ts, t) → chosen_price t = PyNum px).

(** The positions after a buy of [a] at [px], and whether a request can
    be paid for out of [cash]. *)
Definition bought (base : string) (px a : float) (pos : position) : position :=
  <[base := (get0 pos base + a)%float]> (<["CASH" := (get0 pos "CASH" - px * a)%float]> pos).

Definition affordable (cash px : float) (rq : request) : bool :=
  negb (cash - px * req_amount rq <? 0)%float.

(** After call [i], with request [rqi], has bought out of the positions
    [pos0], on top of the ledger [L0] whose last id was [l0]: its record
    is the only new one, it got the new positions, and every other call
    is still waiting or was turned down for lack of cash. *)
Definition spent (sig today : string) (px : float) (base : string) (pos0 : position)
    (L0 : list line) (l0 : Z) (reqs : list request) (i : nat) (rqi : request)
    (sys : system) : Prop :=
  steady px (shared sys)
  ∧ (sig ∉ locks (shared sys))
  ∧ BASE_SYMBOL (env (shared sys)) = base
  ∧ (∃ order,
       files (shared sys) !! sig
       = Some (L0 ++ [Row (trade_record today l0 "buy" base (req_amount rqi) px
                              (bought base px (req_amount rqi) pos0) order)])%list)
  ∧ reqs !! i = Some rqi
  ∧ length (threads sys) = length reqs
  ∧ ∀ j rq s, threads sys !! j = Some (rq, s) →
      reqs !! j = Some rq
      ∧ (j = i → s = Returned (Ret (Positions (bought base px (req_amount rqi) pos0))))
      ∧ (j ≠ i → s = Waiting
                 ∨ s = Returned (Ret (ErrInsufficientCash (px * req_amount rq)%float
                                        (get0 pos0 "CASH" - px * req_amount rqi)%float))).

(** *** Sample worlds *)

Definition ticker_last (x : float) : ticker := Ticker (Some (PyNum x)) None None.

(** Default settings ([CRYPTO_*] unset), a clock stuck at 1000 and a venue
    that quotes [px] and accepts no orders. *)
Definition sample_env (px : float) : settings :=
  Settings "BTC" "BTC/USDT" "paper" 60%float (fun _ => None) (fun _ => 1000%float)
    (fun _ _ _ => inr (ticker_last px))
    (fun _ _ _ _ _ _ _ => inl (VenueError "no live venue")).

(** A fresh agent: no ledger file, nothing cached, no lock held. *)
Definition fresh_world (px : float) : world :=
  World (sample_env px) ∅ ∅ (Some "agent") (Some "2025-01-02") false ∅ 0 0.

Definition with_ledger (lines : list line) (w : world) : world :=
  set_files (<["agent" := lines]> (files w)) w.

Definition sample_record (d : string) (i : Z) (cash btc : float) : record :=
  Rec (Some d) (Some i) None (Some (<["BTC" := btc]> (<["CASH" := cash]> ∅))) None.

(** A ledger with two records on 2025-01-01 (the larger id first), a
    blank line, and one older record. *)
Definition two_day_ledger : list line :=
  [Row (sample_record "2024-12-25" 7 1%float 1%float);
   Row (sample_record "2025-01-01" 1 10000%float 0%float);
   Blank;
   Row (sample_record "2025-01-01" 0 9000%float 0%float)].

(** A ledger whose only record is three days old. *)
Definition stale_ledger : list line :=
  [Row (sample_record "2024-12-30" 4 10000%float 0%float)].

(** A ledger with a line that is not JSON between two good records. *)
Definition corrupt_ledger : list line :=
  [Row (sample_record "2025-01-02" 0 10000%float 0%float);
   Garbled;
   Row (sample_record "2025-01-02" 1 5000%float 0.1%float)].

(** An agent holding 10000 in cash and 0.1 BTC on 2025-01-02, with BTC
    quoted at 30000. *)
Definition rounding_world : world :=
  with_ledger [Row (sample_record "2025-01-02" 0 10000 0.1)] (fresh_world 30000).

(** An agent seeded with 10000 in cash the day before, BTC quoted at
    50000. *)
Definition seeded_world : world :=
  with_ledger [Row (sample_record "2025-01-01" 0 10000 0)] (fresh_world 50000).

(** A session on 2025-01-02 for the seeded agent: a buy, the end of the
    session, a day marked as without trade, and a sell. *)
Definition sample_session : list op :=
  [OpBuy 0.1; OpHandleTradingResult "agent" "2025-01-02";
   OpNoTrade "2025-01-02" "agent"; OpSell 0.05].

(** A world whose clock advances by one second per reading. *)
Definition ticking_world : world :=
  World
    (Settings "BTC" "BTC/USDT" "paper" 60%float (fun _ => None)
       (fun n => match n with O => 1000%float | _ => 1001%float end)
       (fun _ _ _ => inr (ticker_last 30000))
       (fun _ _ _ _ _ _ _ => inl (VenueError "no live venue")))
    ∅ ∅ (Some "agent") (Some "2025-01-02") false ∅ 0 0.

(** A ticker whose three price fields are all falsy: [last] is missing,
    [close] is [None] and [info.lastPrice] is the number 0. *)
Definition zero_ticker : ticker :=
  Ticker None (Some PyNone) (Some (<["lastPrice" := PyNum 0]> ∅)).

Definition zero_world : world :=
  World
    (Settings "BTC" "BTC/USDT" "paper" 60%float (fun _ => None) (fun _ => 1000%float)
       (fun _ _ _ => inr zero_ticker)
       (fun _ _ _ _ _ _ _ => inl (VenueError "no live venue")))
    ∅ ∅ (Some "agent") (Some "2025-01-02") false ∅ 0 0.

(** Three buys of 0.15 BTC at 50000 against 10000 in cash: each can be
    paid for, no two can.  In the interleaving the second call gets the
    lock first, then the first, then the third. *)
Definition three_buys : list request :=
  [Request "buy" 0.15 "market"; Request "buy" 0.15 "market"; Request "buy" 0.15 "market"].

Definition sample_schedule : list nat :=
  [1; 1; 1; 1; 1; 0; 0; 0; 0; 0; 2; 2; 2; 2; 2]%nat.

(** *** [agent/base_agent/base_crypto_agent.py]: [get_trading_dates] *)

(** [d + timedelta(days=1)]; [None] is the [OverflowError] past
    9999-12-31 ([MAXYEAR = 9999]). *)
Definition plus_one_day (d : Calendar.date) : option Calendar.date :=
  if Calendar.day d <? Calendar.days_in_month (Calendar.year d) (Calendar.month d) then
    Some (Calendar.Date (Calendar.year d) (Calendar.month d) (Calendar.day d + 1))
  else if Calendar.month d <? 12 then
    Some (Calendar.Date (Calendar.year d) (Calendar.month d + 1) 1)
  else if Calendar.year d <? 9999 then Some (Calendar.Date (Calendar.year d + 1) 1 1)
  else None.

(** [d1 <= d2] on two [datetime]s at midnight: the years are compared,
    then the months, then the days. *)
Definition date_leb (d1 d2 : Calendar.date) : bool :=
  (Calendar.year d1 <? Calendar.year d2)
  || ((Calendar.year d1 =? Calendar.year d2)
      && ((Calendar.month d1 <? Calendar.month d2)
          || ((Calendar.month d1 =? Calendar.month d2)
              && (Calendar.day d1 <=? Calendar.day d2)))).

(** The loop over the lines of the position file: blank lines are
    skipped, [json.loads] raises on a garbled one, and
    [record.get("date", last_record_date)] keeps the date seen last. *)
Fixpoint last_record_date (lines : list line) (last : string) : exn + string :=
  match lines with
  | [] => inr last
  | Blank :: rest => last_record_date rest last
  | Garbled :: _ => inl JSONDecodeError
  | Row r :: rest => last_record_date rest (default last (rec_date r))
  end.

(** The loop [while current <= end_dt]: each round appends the name of
    [current] and moves one day on.  [fuel] bounds the number of times
    the condition is tested; [None] when that does not suffice. *)
Fixpoint collect_dates (fuel : nat) (current end_dt : Calendar.date) (dates : list string)
    : option (exn + list string) :=
  match fuel with
  | O => None
  | S fuel' =>
      if date_leb current end_dt then
        match plus_one_day current with
        | Some next =>
            collect_dates fuel' next end_dt (dates ++ [Calendar.strftime current])%list
        | None => Some (inl OverflowError)
        end
      else Some (inr dates)
  end.

(** The two calls of [strptime] and lines 138 to 143: the names of the
    days after [start_date] up to [end_date]. *)
Definition dates_after (fuel : nat) (start_date end_date : string)
    : option (exn + list string) :=
  match Calendar.strptime start_date with
  | None => Some (inl ValueError)
  | Some start =>
      match Calendar.strptime end_date with
      | None => Some (inl ValueError)
      | Some end_dt =>
          match plus_one_day start with
          | None => Some (inl OverflowError)
          | Some current => collect_dates fuel current end_dt []
          end
      end
  end.

Section GetTradingDates.

(** [BaseAgent], which provides the method [register_agent] and the
    attribute [position_file], is not among the sources: the method is a
    parameter, and the file is named by its key in [files]. *)
Variable register_agent : M unit.

(** A loop that has not ended when the fuel is spent has not returned. *)
Definition get_trading_dates (fuel : nat) (self_position_file init_date end_date : string)
    : M (list string) :=
  do file <- gets (fun w => files w !! self_position_file);
  do start_date <-
    match file with
    | None => do _ <- register_agent; ret init_date
    | Some lines => lift (last_record_date lines init_date)
    end;
  match dates_after fuel start_date end_date with
  | Some r => lift r
  | None => fun w => (Blocked, w)
  end.

End GetTradingDates.

(** *** Price history: [fetch_ohlcv] and [tools/crypto/price_tools.py] *)

(** A candle as [_normalize_bars] builds it; [bar_timestamp] keeps the
    first entry of the raw row. *)
Record bar := Bar {
  bar_date : string;
  bar_open : float;
  bar_high : float;
  bar_low : float;
  bar_close : float;
  bar_volume : float;
  bar_timestamp : float
}.

(** What the price helpers need on top of [settings]: two more constants
    of [ccxt_client.py], the base symbol of [price_tools.py], and what
    lies outside the repository: the candles of the venue, a raw row
    being the list of its numbers, and
    [datetime.utcfromtimestamp(x).strftime("%Y-%m-%d")]. *)
Record history_settings := HistorySettings {
  DEFAULT_TIMEFRAME : string;
  DEFAULT_HISTORY_LIMIT : Z;
  PRICE_BASE_SYMBOL : string;
  utc_date : float → exn + string;
  venue_ohlcv : nat → string → string → string → Z → exn + list (list float)
}.

(** The world of the price helpers: the world of the trade tool, the
    process-wide candle cache and the files under [data/crypto_history]. *)
Record market := Market {
  trading : world;
  hist : history_settings;
  OHLCV_CACHE : gmap string (float * list (list float));
  history_files : gmap string (list bar)
}.

Definition set_trading (w : world) (mk : market) : market :=
  Market w (hist mk) (OHLCV_CACHE mk) (history_files mk).

Definition set_OHLCV_CACHE (c : gmap string (float * list (list float))) (mk : market)
    : market :=
  Market (trading mk) (hist mk) c (history_files mk).

Definition set_history_files (f : gmap string (list bar)) (mk : market) : market :=
  Market (trading mk) (hist mk) (OHLCV_CACHE mk) f.

(** The same monad over the larger state. *)
Definition MH (A : Type) : Type := market → outcome A * market.

Definition hret {A} (a : A) : MH A := fun mk => (Ret a, mk).
Definition hraise {A} (e : exn) : MH A := fun mk => (Raise e, mk).

Definition hbind {A B} (m : MH A) (k : A → MH B) : MH B :=
  fun mk =>
    match m mk with
    | (Ret a, mk') => k a mk'
    | (Raise e, mk') => (Raise e, mk')
    | (Blocked, mk') => (Blocked, mk')
    end.

Notation "'doh' x <- m ; k" := (hbind m (fun x => k))
  (at level 10, x name, m at level 100, k at level 200).

Definition hgets {A} (f : market → A) : MH A := fun mk => (Ret (f mk), mk).
Definition hmodify (f : market → market) : MH unit := fun mk => (Ret tt, f mk).

Definition hlift {A} (r : exn + A) : MH A :=
  match r with inl e => hraise e | inr a => hret a end.

(** A call of [ccxt_client] or of the clock inside the price helpers. *)
Definition in_world {A} (m : M A) : MH A :=
  fun mk => let '(r, w') := m (trading mk) in (r, set_trading w' mk).

(** [str(n)] and [n or default] on integers. *)
Definition str_int (n : Z) : string := NilZero.string_of_int (Z.to_int n).

Definition int_or (n : option Z) (dflt : Z) : Z :=
  match n with
  | Some n' => if n' =? 0 then dflt else n'
  | None => dflt
  end.

Definition _cache_key (symbol timeframe : string) (limit : Z) : string :=
  symbol ++ ":" ++ timeframe ++ ":" ++ str_int limit.

(** [exchange.fetch_ohlcv(pair, frame, limit=bars)] on the exchange built
    for [trade_mode]. *)
Definition exchange_fetch_ohlcv (trade_mode pair frame : string) (bars : Z)
    : MH (list (list float)) :=
  fun mk =>
    (match venue_ohlcv (hist mk) (calls (trading mk)) trade_mode pair frame bars with
     | inl e => Raise e
     | inr data => Ret data
     end, set_trading (set_calls (S (calls (trading mk))) (trading mk)) mk).

Definition fetch_ohlcv (symbol timeframe : option string) (limit : option Z)
    (mode : option string) : MH (list (list float)) :=
  doh cfg <- hgets (fun mk => env (trading mk));
  doh hs <- hgets hist;
  let pair := upper (str_or symbol (DEFAULT_PAIR cfg)) in
  let frame := str_or timeframe (DEFAULT_TIMEFRAME hs) in
  let bars := int_or limit (DEFAULT_HISTORY_LIMIT hs) in
  let cache_id := _cache_key pair frame bars in
  doh cached <- hgets (fun mk => OHLCV_CACHE mk !! cache_id);
  doh now <- in_world time_time;
  let refresh :=
    doh data <- exchange_fetch_ohlcv (lower (str_or mode (DEFAULT_MODE cfg))) pair frame bars;
    doh _ <- hmodify (fun mk => set_OHLCV_CACHE (<[cache_id := (now, data)]> (OHLCV_CACHE mk)) mk);
    hret data in
  match cached with
  | Some (ts, data) =>
      if (now - ts <? CACHE_TTL cfg)%float then hret data else refresh
  | None => refresh
  end.

(** One round of the loop of [_normalize_bars]: unpacking a row that has
    not exactly six entries raises [ValueError]. *)
Definition normalize_row (hs : history_settings) (row : list float) : exn + bar :=
  match row with
  | [ts; opn; high; low; close; vol] =>
      match utc_date hs (ts / 1000)%float with
      | inl e => inl e
      | inr date => inr (Bar date opn high low close vol ts)
      end
  | _ => inl ValueError
  end.

Fixpoint normalize_rows (hs : history_settings) (ohlcv : list (list float)) (bars : list bar)
    : exn + list bar :=
  match ohlcv with
  | [] => inr bars
  | row :: rest =>
      match normalize_row hs row with
      | inl e => inl e
      | inr b => normalize_rows hs rest (bars ++ [b])%list
      end
  end.

(** The three parameters default to the constants; [None] is the
    parameter left out. *)
Definition _normalize_bars (symbol timeframe : option string) (limit : option Z)
    : MH (list bar) :=
  doh cfg <- hgets (fun mk => env (trading mk));
  doh hs <- hgets hist;
  doh ohlcv <- fetch_ohlcv (Some (default (DEFAULT_PAIR cfg) symbol))
                 (Some (default (DEFAULT_TIMEFRAME hs) timeframe))
                 (Some (default (DEFAULT_HISTORY_LIMIT hs) limit)) None;
  hlift (normalize_rows hs ohlcv []).

(** [symbol.replace('/', '_')]. *)
Fixpoint replace_slash (s : string) : string :=
  match s with
  | EmptyString => EmptyString
  | String c s' => String (if Ascii.eqb c "/" then "_"%char else c) (replace_slash s')
  end.

(** The file is opened for writing only after the candles have been
    normalised; it is named by its name under [HISTORY_DIR] and holds one
    line per candle. *)
Definition snapshot_history (symbol timeframe : option string) (limit : option Z)
    : MH string :=
  doh cfg <- hgets (fun mk => env (trading mk));
  doh hs <- hgets hist;
  let symbol := default (DEFAULT_PAIR cfg) symbol in
  let timeframe := default (DEFAULT_TIMEFRAME hs) timeframe in
  let limit := default (DEFAULT_HISTORY_LIMIT hs) limit in
  doh bars <- _normalize_bars (Some symbol) (Some timeframe) (Some limit);
  let filename := replace_slash symbol ++ "_" ++ timeframe ++ ".jsonl" in
  doh _ <- hmodify (fun mk => set_history_files (<[filename := bars]> (history_files mk)) mk);
  hret filename.

(** [for idx in range(len(bars) - 1, -1, -1)], with [n] indices left. *)
Fixpoint _locate_bar_from (target_date : string) (bars : list bar) (n : nat) : option bar :=
  match n with
  | O => None
  | S idx =>
      match bars !! idx with
      | Some bar =>
          if String.eqb (bar_date bar) target_date then Some bar
          else _locate_bar_from target_date bars idx
      | None => None
      end
  end.

Definition _locate_bar (target_date : string) (bars : list bar) : option bar :=
  _locate_bar_from target_date bars (length bars).

(** [for idx, bar in enumerate(bars)] up to the [break]. *)
Fixpoint first_match (target_date : string) (bars : list bar) (idx : Z) : option Z :=
  match bars with
  | [] => None
  | bar :: rest =>
      if String.eqb (bar_date bar) target_date then Some idx
      else first_match target_date rest (idx + 1)
  end.

(** [bars[i]] for an index that is not negative. *)
Definition bar_at (bars : list bar) (i : Z) : option bar := bars !! Z.to_nat i.

Definition _locate_previous (target_date : string) (bars : list bar) : option bar :=
  match first_match target_date bars 0 with
  | None => None
  | Some last_match_index =>
      let prev_index := Z.max 0 (last_match_index - 1) in
      let prev_index :=
        match bar_at bars prev_index with
        | Some b =>
            if String.eqb (bar_date b) target_date && (prev_index =? last_match_index)
            then Z.max 0 (last_match_index - 1) else prev_index
        | None => prev_index
        end in
      if prev_index =? last_match_index then None else bar_at bars prev_index
  end.

(** The dictionary with the one key [f"{symbol_alias}_price"]. *)
Definition price_dict (symbol_alias : string) (v : option float)
    : gmap string (option float) :=
  {[ symbol_alias ++ "_price" := v ]}.

Definition get_open_prices (today_date symbol_alias : string)
    : MH (gmap string (option float)) :=
  doh bars <- _normalize_bars None None None;
  match _locate_bar today_date bars with
  | None => hret (price_dict symbol_alias None)
  | Some bar => hret (price_dict symbol_alias (Some (bar_open bar)))
  end.

Definition get_yesterday_open_and_close_price (today_date symbol_alias : string)
    : MH (gmap string (option float) * gmap string (option float)) :=
  doh bars <- _normalize_bars None None None;
  match _locate_bar today_date bars with
  | None => hret (price_dict symbol_alias None, price_dict symbol_alias None)
  | Some target_bar =>
      let prev_bar := default target_bar (_locate_previous today_date bars) in
      hret (price_dict symbol_alias (Some (bar_open prev_bar)),
            price_dict symbol_alias (Some (bar_close prev_bar)))
  end.

(** The dictionary of [get_daily_snapshot]; [snap_ohlcv] is [None] for
    the empty dictionary. *)
Record snapshot := Snapshot {
  snap_prices : gmap string (option float);
  snap_ohlcv : option bar
}.

Definition get_daily_snapshot (today_date symbol_alias : string) : MH snapshot :=
  doh bars <- _normalize_bars None None None;
  match _locate_bar today_date bars with
  | None => hret (Snapshot (price_dict symbol_alias None) None)
  | Some bar => hret (Snapshot (price_dict symbol_alias (Some (bar_open bar))) (Some bar))
  end.

(** *** [agent_tools/tool_get_price_crypto.py] *)

(** The payload of [get_crypto_price]: the snapshot with two more keys. *)
Record price_payload := PricePayload {
  pay_prices : gmap string (option float);
  pay_ohlcv : option bar;
  pay_date : string;
  pay_symbol : string
}.

Definition get_crypto_price (date : string) (symbol_alias : option string)
    : MH price_payload :=
  doh hs <- hgets hist;
  let symbol_alias := default (PRICE_BASE_SYMBOL hs) symbol_alias in
  doh payload <- get_daily_snapshot date symbol_alias;
  hret (PricePayload (snap_prices payload) (snap_ohlcv payload) date symbol_alias).

Definition sync_crypto_history (limit : option Z) : MH string :=
  snapshot_history None None (Some (default 365 limit)).

(** Sample candles: three days from 2025-01-01 on, stamped at 00:00 UTC
    in milliseconds, and the days those stamps fall on. *)
Definition sample_candles : list (list float) :=
  [[1735689600000; 93000; 95000; 92000; 94000; 1200];
   [1735776000000; 94000; 97000; 93500; 96500; 1500];
   [1735862400000; 96500; 98500; 96000; 98000; 1100]]%float.

Definition sample_utc_date (x : float) : exn + string :=
  if (x <? 1735689600)%float then inl ValueError
  else if (x <? 1735776000)%float then inr "2025-01-01"
  else if (x <? 1735862400)%float then inr "2025-01-02"
  else if (x <? 1735948800)%float then inr "2025-01-03"
  else inl ValueError.

(** The sample candles, normalised. *)
Definition sample_bars : list bar :=
  [Bar "2025-01-01" 93000 95000 92000 94000 1200 1735689600000;
   Bar "2025-01-02" 94000 97000 93500 96500 1500 1735776000000;
   Bar "2025-01-03" 96500 98500 96000 98000 1100 1735862400000].

Definition sample_market : market :=
  Market (fresh_world 96500)
    (HistorySettings "1d" 365 "BTC" sample_utc_date (fun _ _ _ _ _ => inr sample_candles))
    ∅ ∅.

(** *** Constants read from the environment at import time *)

(** [os.environ]. *)
Definition environ := gmap string string.

(** [s.split("/")[0]]. *)
Fixpoint before_slash (s : string) : string :=
  match s with
  | EmptyString => EmptyString
  | String c s' => if Ascii.eqb c "/" then EmptyString else String c (before_slash s')
  end.

(** [ccxt_client.py], line 14. *)
Definition ccxt_DEFAULT_PAIR (e : environ) : string :=
  upper (default "BTC/USDT" (e !! "CRYPTO_PAIR")).

(** [tool_trade_crypto.py], line 19. *)
Definition trade_BASE_SYMBOL (e : environ) : string :=
  upper (default "BTC" (e !! "CRYPTO_BASE_SYMBOL")).

(** [price_tools.py], lines 22 and 23. *)
Definition price_BASE_SYMBOL (e : environ) : string :=
  upper (str_or (e !! "CRYPTO_BASE_SYMBOL") (before_slash (ccxt_DEFAULT_PAIR e))).

(** An environment that names another pair and no base symbol, and a
    world whose constants were read from it: the agent holds 10000 in
    cash, the venue quotes 2500. *)
Definition eth_environ : environ := <["CRYPTO_PAIR" := "eth/usdt"]> ∅.

Definition eth_world : world :=
  World
    (Settings (trade_BASE_SYMBOL eth_environ) (ccxt_DEFAULT_PAIR eth_environ) "paper"
       60%float (fun _ => None) (fun _ => 1000%float)
       (fun _ _ _ => inr (ticker_last 2500))
       (fun _ _ _ _ _ _ _ => inl (VenueError "no live venue")))
    (<["agent" := [Row (sample_record "2025-01-02" 0 10000 0)]]> ∅)
    ∅ (Some "agent") (Some "2025-01-02") false ∅ 0 0.

(** *** More vocabulary and sample worlds *)

(** A venue in live mode: it quotes [px] and answers every order with
    the same receipt. *)
Definition live_world (px : float) : world :=
  World
    (Settings "BTC" "BTC/USDT" "live" 60%float (fun _ => None) (fun _ => 1000%float)
       (fun _ _ _ => inr (ticker_last px))
       (fun _ _ _ _ _ _ _ => inr "filled"))
    ∅ ∅ (Some "agent") (Some "2025-01-02") false ∅ 0 0.

(** The same world in front of a venue that answers orders by [vo]. *)
Definition with_venue_order
    (vo : nat → string → string → string → string → float → option float → exn + string)
    (w : world) : world :=
  World
    (Settings (BASE_SYMBOL (env w)) (DEFAULT_PAIR (env w)) (DEFAULT_MODE (env w))
       (CACHE_TTL (env w)) (str_to_float (env w)) (clock (env w)) (venue_ticker (env w)) vo)
    (files w) (locks w) (cfg_SIGNATURE w) (cfg_TODAY_DATE w) (cfg_IF_TRADE w)
    (TICKER_CACHE w) (ticks w) (calls w).

(** A call whose outcome and effects do not depend on how the venue
    answers orders. *)
Definition ignores_orders {A} (m : M A) : Prop :=
  ∀ vo w, m (with_venue_order vo w) = ((m w).1, with_venue_order vo (m w).2).

(** A line as the writers produce them: a record with a date and an id
    that is not negative. *)
Definition written_line (l : line) : Prop :=
  ∃ r d i, l = Row r ∧ rec_date r = Some d ∧ rec_id r = Some i ∧ 0 <= i.

(* ===================================================================== *)
(** ** Part II — properties                                               *)
(* ===================================================================== *)

(** *** The reading loop *)

Lemma on_date_app d l1 l2 : on_date d (l1 ++ l2) = (on_date d l1 ++ on_date d l2)%list.
Proof.
  unfold on_date. rewrite <- List.filter_app. f_equal.
  induction l1 as [|[| |r] rest IH]; simpl; congruence.
Qed.

Lemma scan_garbled d lines acc :
  Garbled ∈ lines → scan d lines acc = inl JSONDecodeError.
Proof.
  revert acc. induction lines as [|[| |r] rest IH]; intros acc H; simpl.
  - inversion H.
  - apply IH. inversion H; by subst.
  - done.
  - assert (Garbled ∈ rest) as H' by (inversion H; by subst).
    destruct (date_is d r); [destruct (get_id r >? acc.2)|]; by apply IH.
Qed.

Lemma scan_total d lines acc :
  Garbled ∉ lines → ∃ res, scan d lines acc = inr res.
Proof.
  revert acc. induction lines as [|[| |r] rest IH]; intros acc H; simpl.
  - eauto.
  - apply IH. intros Hin. apply H. by right.
  - exfalso. apply H. left.
  - assert (Garbled ∉ rest) by (intros Hin; apply H; by right).
    destruct (date_is d r); [destruct (get_id r >? acc.2)|]; by apply IH.
Qed.

(** Blank lines do not matter to the loop. *)
Lemma scan_skips_blank d lines acc :
  scan d (List.filter (fun l => match l with Blank => false | _ => true end) lines) acc
  = scan d lines acc.
Proof.
  revert acc. induction lines as [|[| |r] rest IH]; intros acc; simpl; auto.
  destruct (date_is d r); [destruct (get_id r >? acc.2)|]; apply IH.
Qed.

(** What the loop computes: an upper bound of the ids of the date, which
    is either the initial accumulator or a record of the date. *)
Lemma scan_sound d lines acc res :
  scan d lines acc = inr res →
  acc.2 <= res.2
  ∧ (∀ r, r ∈ on_date d lines → get_id r <= res.2)
  ∧ (res = acc
     ∨ (acc.2 < res.2 ∧ ∃ r, r ∈ on_date d lines ∧ res = (get_positions r, get_id r))).
Proof.
  revert acc. induction lines as [|[| |r] rest IH]; intros acc H; simpl in H.
  - inversion H; subst. split; [lia|]. split; [|by left].
    intros r Hr. inversion Hr.
  - apply IH in H. exact H.
  - discriminate.
  - unfold on_date in *. simpl. destruct (date_is d r) eqn:Hd.
    + destruct (get_id r >? acc.2) eqn:Hgt.
      * apply IH in H as (Hle & Hub & Hres). simpl in Hle.
        apply Z.gtb_lt in Hgt.
        split; [lia|]. split.
        { intros r' Hr'. apply elem_of_cons in Hr' as [->|Hr']; [lia|auto]. }
        right. split.
        { destruct Hres as [->|[Hlt _]]; simpl in *; lia. }
        destruct Hres as [->|(_ & r' & Hr' & ->)].
        -- exists r. split; [left|done].
        -- exists r'. split; [by right|done].
      * apply IH in H as (Hle & Hub & Hres).
        assert (get_id r <= acc.2) by (rewrite Z.gtb_ltb in Hgt; apply Z.ltb_ge in Hgt; lia).
        split; [lia|]. split.
        { intros r' Hr'. apply elem_of_cons in Hr' as [->|Hr']; [lia|auto]. }
        destruct Hres as [->|(Hlt & r' & Hr' & ->)]; [by left|].
        right. split; [done|]. exists r'. split; [by right|done].
    + apply IH in H as (Hle & Hub & Hres). split; [lia|]. split; [done|]. done.
Qed.

(** The scan reads: it returns the world it was given. *)
Lemma get_latest_position_pure today sig w :
  (get_latest_position today sig w).2 = w.
Proof.
  unfold get_latest_position, bind, gets, lift. simpl.
  by destruct (latest_of today (files w !! sig)).
Qed.

Lemma get_latest_position_eq today sig w :
  get_latest_position today sig w
  = (match latest_of today (files w !! sig) with inl e => Raise e | inr res => Ret res end, w).
Proof.
  unfold get_latest_position, bind, gets, lift. simpl.
  by destruct (latest_of today (files w !! sig)).
Qed.

(** *** The calendar *)

Lemma days_before_year_succ y :
  Calendar.days_before_year (y + 1)
  = Calendar.days_before_year y + 365 + (if Calendar.is_leap y then 1 else 0).
Proof.
  unfold Calendar.days_before_year, Calendar.is_leap. cbv zeta.
  replace (y + 1 - 1) with y by lia.
  destruct (y mod 4 =? 0) eqn:H4; destruct (y mod 100 =? 0) eqn:H100;
    destruct (y mod 400 =? 0) eqn:H400; simpl;
    rewrite ?Z.eqb_eq, ?Z.eqb_neq in *; Z.div_mod_to_equations; lia.
Qed.

(** The day before a valid date is the valid date whose ordinal is one
    less. *)
Lemma minus_one_day_ordinal d d' :
  Calendar.valid d = true → Calendar.minus_one_day d = Some d' →
  Calendar.valid d' = true ∧ Calendar.toordinal d' = Calendar.toordinal d - 1.
Proof.
  destruct d as [y m dd]. unfold Calendar.valid, Calendar.minus_one_day. simpl.
  intros Hv Hm. rewrite !andb_true_iff, !Z.leb_le in Hv.
  destruct Hv as ((((Hy & Hm1) & Hm12) & Hd1) & Hdm).
  destruct (1 <? dd) eqn:Hdd.
  { inversion Hm; subst. apply Z.ltb_lt in Hdd. unfold Calendar.valid, Calendar.toordinal. simpl.
    split; [|lia]. rewrite !andb_true_iff, !Z.leb_le. lia. }
  apply Z.ltb_ge in Hdd. assert (dd = 1) as -> by lia.
  destruct (1 <? m) eqn:Hmm.
  { inversion Hm; subst. apply Z.ltb_lt in Hmm.
    unfold Calendar.valid, Calendar.toordinal. simpl.
    assert (m = 2 ∨ m = 3 ∨ m = 4 ∨ m = 5 ∨ m = 6 ∨ m = 7 ∨ m = 8 ∨ m = 9
            ∨ m = 10 ∨ m = 11 ∨ m = 12) as Hcases by lia.
    unfold Calendar.days_before_month, Calendar.days_in_month.
    destruct (Calendar.is_leap y);
      repeat (destruct Hcases as [->|Hcases]); try subst m; simpl;
      (split; [rewrite !andb_true_iff, !Z.leb_le; lia | lia]). }
  apply Z.ltb_ge in Hmm. assert (m = 1) as -> by lia.
  destruct (1 <? y) eqn:Hyy; [|discriminate].
  inversion Hm; subst. apply Z.ltb_lt in Hyy.
  unfold Calendar.valid, Calendar.toordinal, Calendar.days_in_month. simpl.
  split; [rewrite !andb_true_iff, !Z.leb_le; lia|].
  pose proof (days_before_year_succ (y - 1)) as Hs.
  replace (y - 1 + 1) with y in Hs by lia.
  unfold Calendar.days_before_month. simpl.
  destruct (Calendar.is_leap (y - 1)); simpl; lia.
Qed.

Lemma digit_range c n : Calendar.digit c = Some n → 0 <= n <= 9.
Proof.
  unfold Calendar.digit. cbv zeta.
  destruct ((48 <=? Z.of_N (N_of_ascii c)) && (Z.of_N (N_of_ascii c) <=? 57)) eqn:H; [|done].
  intros [= <-]. apply andb_true_iff in H as [H1 H2]. lia.
Qed.

Lemma digit_digit_char n : 0 <= n <= 9 → Calendar.digit (Calendar.digit_char n) = Some n.
Proof.
  intros H.
  assert (n = 0 ∨ n = 1 ∨ n = 2 ∨ n = 3 ∨ n = 4 ∨ n = 5 ∨ n = 6 ∨ n = 7 ∨ n = 8 ∨ n = 9)
    as Hc by lia.
  repeat (destruct Hc as [->|Hc]); try subst n; reflexivity.
Qed.

Lemma read_month_pad2 m rest :
  1 <= m <= 12 →
  Calendar.read_month (Calendar.pad2 m ++ "-"%char :: rest) = Some (m, "-"%char :: rest).
Proof.
  intros H.
  assert (m = 1 ∨ m = 2 ∨ m = 3 ∨ m = 4 ∨ m = 5 ∨ m = 6 ∨ m = 7 ∨ m = 8 ∨ m = 9
          ∨ m = 10 ∨ m = 11 ∨ m = 12) as Hc by lia.
  repeat (destruct Hc as [->|Hc]); try subst m; reflexivity.
Qed.

Lemma read_day_pad2 d :
  1 <= d <= 31 → Calendar.read_day (Calendar.pad2 d) = Some (d, []).
Proof.
  intros H.
  assert (∃ n : nat, d = Z.of_nat n ∧ (n <= 31)%nat) as (n & -> & Hn).
  { exists (Z.to_nat d). lia. }
  do 32 (destruct n as [|n]; [try lia; reflexivity|]). lia.
Qed.

Lemma strptime_strftime d :
  Calendar.valid d = true → Calendar.year d <= 9999 →
  Calendar.strptime (Calendar.strftime d) = Some d.
Proof.
  destruct d as [y m dd]. intros Hv Hy. simpl in Hy.
  pose proof Hv as Hv'. unfold Calendar.valid in Hv'. simpl in Hv'.
  rewrite !andb_true_iff, !Z.leb_le in Hv'.
  destruct Hv' as ((((Hy1 & Hm1) & Hm12) & Hd1) & Hdm).
  assert (dd <= 31) as Hd31.
  { unfold Calendar.days_in_month in Hdm.
    destruct (m =? 2); [destruct (Calendar.is_leap y)|destruct (_ || _)]; lia. }
  unfold Calendar.strptime, Calendar.strftime.
  rewrite list_ascii_of_string_of_list_ascii.
  cbn [Calendar.year Calendar.month Calendar.day Calendar.pad4 app].
  rewrite !digit_digit_char by (Z.div_mod_to_equations; lia).
  change (Ascii.eqb "-" "-") with true. cbv iota.
  rewrite read_month_pad2 by lia.
  change (Ascii.eqb "-" "-") with true. cbv iota.
  rewrite read_day_pad2 by lia. cbv zeta.
  replace (1000 * (y / 1000 mod 10) + 100 * (y / 100 mod 10) + 10 * (y / 10 mod 10) + y mod 10)
    with y by (Z.div_mod_to_equations; lia).
  by rewrite Hv.
Qed.

Lemma strptime_valid s d :
  Calendar.strptime s = Some d → Calendar.valid d = true ∧ Calendar.year d <= 9999.
Proof.
  unfold Calendar.strptime.
  destruct (list_ascii_of_string s) as [|y1 [|y2 [|y3 [|y4 [|dash1 rest]]]]]; try done.
  destruct (Calendar.digit y1) as [a|] eqn:Ha; [|done].
  destruct (Calendar.digit y2) as [b|] eqn:Hb; [|done].
  destruct (Calendar.digit y3) as [c|] eqn:Hc; [|done].
  destruct (Calendar.digit y4) as [e|] eqn:He; [|done].
  destruct (Ascii.eqb dash1 "-"); [|done].
  destruct (Calendar.read_month rest) as [[m [|dash2 rest']]|]; try done.
  destruct (Ascii.eqb dash2 "-"); [|done].
  destruct (Calendar.read_day rest') as [[dd [|? ?]]|]; try done.
  cbv zeta. destruct (Calendar.valid _) eqn:Hv; [|done].
  intros [= <-]. split; [done|]. simpl.
  apply digit_range in Ha, Hb, Hc, He. lia.
Qed.

(** [get_yesterday_date] returns the canonical name of the calendar day
    that immediately precedes the one its argument names. *)
Lemma get_yesterday_date_spec today prev :
  get_yesterday_date today = inr prev →
  ∃ d d', Calendar.strptime today = Some d ∧ Calendar.strptime prev = Some d'
          ∧ Calendar.toordinal d' = Calendar.toordinal d - 1.
Proof.
  unfold get_yesterday_date.
  destruct (Calendar.strptime today) as [d|] eqn:Hd; [|done].
  destruct (Calendar.minus_one_day d) as [d'|] eqn:Hd'; [|done].
  intros [= <-]. exists d, d'.
  apply strptime_valid in Hd as Hvd. destruct Hvd as [Hv Hy].
  destruct (minus_one_day_ordinal _ _ Hv Hd') as [Hv' Ho].
  split; [done|]. split; [|done].
  apply strptime_strftime; [done|].
  revert Hd'. unfold Calendar.minus_one_day.
  destruct (1 <? Calendar.day d); [intros [= <-]; simpl; lia|].
  destruct (1 <? Calendar.month d); [intros [= <-]; simpl; lia|].
  destruct (1 <? Calendar.year d); [intros [= <-]; simpl; lia|done].
Qed.

(** *** The latest position *)

Lemma readable_spec lines : readable lines = true ↔ Garbled ∉ lines.
Proof.
  unfold readable. rewrite forallb_forall. split.
  - intros H Hin. apply list_elem_of_In, H in Hin. discriminate.
  - intros H l Hl. destruct l; try done. exfalso. by apply H, list_elem_of_In.
Qed.

Lemma ids_nonneg_spec lines r :
  ids_nonneg lines = true → r ∈ rows lines → 0 <= get_id r.
Proof.
  unfold ids_nonneg. rewrite forallb_forall. intros H Hr.
  apply list_elem_of_In, H in Hr. unfold get_id.
  destruct (rec_id r); simpl; [lia|done].
Qed.

Lemma on_date_rows d lines r : r ∈ on_date d lines → r ∈ rows lines.
Proof. unfold on_date. rewrite !list_elem_of_In, filter_In. tauto. Qed.

(** The loop from the empty accumulator over a readable file with
    well-formed ids: the latest record of the date, or nothing. *)
Lemma scan_latest d lines :
  readable lines = true → ids_nonneg lines = true →
  ∃ res, scan d lines (∅, -1) = inr res
    ∧ (on_date d lines ≠ [] → is_latest_of (on_date d lines) res ∧ 0 <= res.2)
    ∧ (on_date d lines = [] → res = (∅, -1)).
Proof.
  intros Hr Hi. apply readable_spec in Hr.
  destruct (scan_total d lines (∅, -1) Hr) as [res Hres].
  exists res. split; [done|].
  destruct (scan_sound _ _ _ _ Hres) as (Hle & Hub & Hcase). simpl in Hle.
  split.
  - intros Hne. destruct Hcase as [->|(Hlt & r & Hin & ->)].
    + destruct (on_date d lines) as [|r0 rs] eqn:E; [done|].
      assert (r0 ∈ on_date d lines) as Hin by (rewrite E; left).
      specialize (Hub r0 ltac:(left)).
      apply on_date_rows, (ids_nonneg_spec _ _ Hi) in Hin. simpl in Hub. lia.
    + split; [by exists r|]. simpl in *.
      apply on_date_rows, (ids_nonneg_spec _ _ Hi) in Hin. lia.
  - intros He. destruct Hcase as [->|(_ & r & Hin & _)]; [done|].
    rewrite He in Hin. inversion Hin.
Qed.

(** C3.  On a readable ledger whose records carry non-negative ids, and
    for a date that names a calendar day after 0001-01-01,
    [get_latest_position] returns the positions and id of a record with
    the maximum id among the records of the requested date; when that date
    has no record, of a record with the maximum id among the records of
    [prev], the canonical name of the immediately preceding calendar day
    (ordinal one less); and when neither date has a record it returns the
    empty position and [-1], whatever other dates hold.  The world is left
    as it was. *)
Theorem get_latest_position_spec today prev sig w :
  readable (ledger sig w) = true →
  ids_nonneg (ledger sig w) = true →
  get_yesterday_date today = inr prev →
  (∃ d d', Calendar.strptime today = Some d ∧ Calendar.strptime prev = Some d'
           ∧ Calendar.toordinal d' = Calendar.toordinal d - 1)
  ∧ ∃ res, get_latest_position today sig w = (Ret res, w)
    ∧ (on_date today (ledger sig w) ≠ [] → is_latest_of (on_date today (ledger sig w)) res)
    ∧ (on_date today (ledger sig w) = [] → on_date prev (ledger sig w) ≠ [] →
       is_latest_of (on_date prev (ledger sig w)) res)
    ∧ (on_date today (ledger sig w) = [] → on_date prev (ledger sig w) = [] →
       res = (∅, -1)).
Proof.
  intros Hr Hi Hy. split; [by apply get_yesterday_date_spec|].
  rewrite get_latest_position_eq. unfold ledger, latest_of in *.
  destruct (files w !! sig) as [lines|] eqn:Hf; simpl in *.
  2:{ exists (∅, -1). repeat split; done. }
  destruct (scan_latest today lines Hr Hi) as (res1 & Hs1 & Hne1 & He1).
  destruct (scan_latest prev lines Hr Hi) as (res2 & Hs2 & Hne2 & He2).
  rewrite Hs1. destruct res1 as [p1 m1]. simpl.
  destruct (on_date today lines) as [|r0 rs] eqn:E.
  - specialize (He1 eq_refl). inversion He1; subst. simpl.
    rewrite Hy. simpl. rewrite Hs2. exists res2. split; [done|].
    split; [done|]. split; [intros _ Hne; by apply Hne2|intros _; exact He2].
  - destruct (Hne1 ltac:(done)) as [Hl Hge]. simpl in Hge.
    assert ((m1 >=? 0) = true) as -> by (apply Z.geb_le; lia).
    exists (p1, m1). split; [done|]. split; [done|]. split; done.
Qed.

(** No record on 2025-01-02: the latest of 2025-01-01 is returned. *)
Lemma get_latest_position_spec_witness :
  ∃ res,
    get_latest_position "2025-01-02" "agent" (with_ledger two_day_ledger (fresh_world 50000))
    = (Ret res, with_ledger two_day_ledger (fresh_world 50000))
    ∧ is_latest_of
        (on_date "2025-01-01" (ledger "agent" (with_ledger two_day_ledger (fresh_world 50000))))
        res.
Proof.
  destruct (get_latest_position_spec "2025-01-02" "2025-01-01" "agent"
              (with_ledger two_day_ledger (fresh_world 50000)))
    as (_ & res & Hres & _ & Hprev & _); [reflexivity..|].
  exists res. split; [exact Hres|].
  apply Hprev; [reflexivity|discriminate].
Defined.

Example latest_of_two_day_ledger :
  get_latest_position "2025-01-02" "agent" (with_ledger two_day_ledger (fresh_world 50000))
  = (Ret (<["BTC" := 0%float]> (<["CASH" := 10000%float]> ∅), 1),
     with_ledger two_day_ledger (fresh_world 50000)).
Proof. vm_compute. reflexivity. Qed.

(** Records of older dates are not consulted. *)
Example latest_ignores_older_dates :
  get_latest_position "2025-01-02" "agent" (with_ledger stale_ledger (fresh_world 50000))
  = (Ret (∅, -1), with_ledger stale_ledger (fresh_world 50000)).
Proof. reflexivity. Qed.

(** Scenario C: no record on the day, one the day before. *)
Example scenario_C_initial_position :
  get_today_init_position "2025-01-02" "agent" seeded_world
  = (Ret (<["BTC" := 0%float]> (<["CASH" := 10000%float]> ∅)), seeded_world).
Proof. vm_compute. reflexivity. Qed.

(** *** Corrupt and blank lines *)

Lemma readable_false lines : readable lines = false → Garbled ∈ lines.
Proof.
  induction lines as [|l rest IH]; simpl; [done|].
  destruct l; simpl; intros H; try (right; by apply IH). left.
Qed.

Lemma get_latest_position_garbled today sig w :
  (get_latest_position today sig w).1 = Raise JSONDecodeError ↔ Garbled ∈ ledger sig w.
Proof.
  rewrite get_latest_position_eq. unfold ledger, latest_of. simpl.
  destruct (files w !! sig) as [lines|]; simpl.
  2:{ split; [done|]. intros H. inversion H. }
  split.
  - intros H. destruct (readable lines) eqn:Hr.
    2:{ by apply readable_false. }
    apply readable_spec in Hr as Hn. exfalso.
    destruct (scan_total today lines (∅, -1) Hn) as [[p m] Hs]. rewrite Hs in H. simpl in H.
    destruct (m >=? 0); [done|].
    unfold get_yesterday_date in H.
    destruct (Calendar.strptime today); [|done].
    destruct (Calendar.minus_one_day _) as [dprev|]; [|done]. simpl in H.
    destruct (scan_total (Calendar.strftime dprev) lines (∅, -1) Hn) as [res Hs'].
    rewrite Hs' in H. done.
  - intros H. by rewrite (scan_garbled today lines _ H).
Qed.

(** C5, as the code has it.  Scanning for the latest record skips blank
    lines only: the answer is the same with the blank lines removed.  A
    non-blank line that fails to parse is not skipped: the scan raises
    [JSONDecodeError] exactly when the file has such a line, wherever it
    stands.  Raising or not, the scan leaves the file (and the rest of the
    world) as it was. *)
Theorem get_latest_position_strict_read today sig w :
  (get_latest_position today sig w).2 = w
  ∧ ((get_latest_position today sig w).1 = Raise JSONDecodeError ↔ Garbled ∈ ledger sig w)
  ∧ ∀ lines, files w !! sig = Some lines →
      (get_latest_position today sig
         (set_files (<[sig := strip_blank lines]> (files w)) w)).1
      = (get_latest_position today sig w).1.
Proof.
  split; [apply get_latest_position_pure|]. split; [apply get_latest_position_garbled|].
  intros lines Hf.
  rewrite !get_latest_position_eq. simpl.
  rewrite lookup_insert_eq, Hf. unfold latest_of, strip_blank.
  rewrite !scan_skips_blank.
  destruct (scan today lines (∅, -1)) as [e|[p m]]; [done|].
  destruct (m >=? 0); [done|].
  destruct (get_yesterday_date today) as [e|prev]; [done|].
  by rewrite scan_skips_blank.
Qed.

Lemma get_latest_position_strict_read_witness :
  (get_latest_position "2025-01-02" "agent"
     (set_files (<["agent" := strip_blank two_day_ledger]>
                   (files (with_ledger two_day_ledger (fresh_world 50000))))
        (with_ledger two_day_ledger (fresh_world 50000)))).1
  = (get_latest_position "2025-01-02" "agent"
       (with_ledger two_day_ledger (fresh_world 50000))).1.
Proof.
  destruct (get_latest_position_strict_read "2025-01-02" "agent"
              (with_ledger two_day_ledger (fresh_world 50000))) as (_ & _ & Hblank).
  apply Hblank. reflexivity.
Defined.

(** C5, as stated, fails: with a garbled line between two good records
    of the date the scan raises, although the parseable lines alone have
    a latest record (id 1). *)
Lemma corrupt_line_not_skipped :
  let w := with_ledger corrupt_ledger (fresh_world 50000) in
  let w' := with_ledger (List.filter parses corrupt_ledger) (fresh_world 50000) in
  get_latest_position "2025-01-02" "agent" w = (Raise JSONDecodeError, w)
  ∧ get_latest_position "2025-01-02" "agent" w'
    = (Ret (<["BTC" := 0.1%float]> (<["CASH" := 5000%float]> ∅), 1), w').
Proof. split; reflexivity. Qed.

(** *** The monad and what the gateway leaves alone *)

Lemma bind_Ret {A B} (m : M A) (k : A → M B) w a w' :
  m w = (Ret a, w') → bind m k w = k a w'.
Proof. unfold bind. by intros ->. Qed.

Lemma same_books_refl w : same_books w w.
Proof. by repeat split. Qed.

Lemma same_books_trans w1 w2 w3 : same_books w1 w2 → same_books w2 w3 → same_books w1 w3.
Proof. unfold same_books. intros (?&?&?&?&?&?) (?&?&?&?&?&?). repeat split; congruence. Qed.

Lemma keeps_books_bind {A B} (m : M A) (k : A → M B) :
  keeps_books m → (∀ a, keeps_books (k a)) → keeps_books (bind m k).
Proof.
  intros Hm Hk w. unfold bind. specialize (Hm w).
  destruct (m w) as [[a| |] w']; simpl in *; [|done..].
  eapply same_books_trans; [exact Hm|apply Hk].
Qed.

Lemma keeps_books_ret {A} (a : A) : keeps_books (ret a).
Proof. intros w. apply same_books_refl. Qed.

Lemma keeps_books_raise {A} e : keeps_books (@raise A e).
Proof. intros w. apply same_books_refl. Qed.

Lemma keeps_books_gets {A} (f : world → A) : keeps_books (gets f).
Proof. intros w. apply same_books_refl. Qed.

Lemma keeps_books_time_time : keeps_books time_time.
Proof. intros w. by repeat split. Qed.

Lemma keeps_books_exchange_fetch_ticker mode pair :
  keeps_books (exchange_fetch_ticker mode pair).
Proof. intros w. by repeat split. Qed.

Lemma keeps_books_exchange_create_order mode pair ot side amount price :
  keeps_books (exchange_create_order mode pair ot side amount price).
Proof. intros w. by repeat split. Qed.

Lemma keeps_books_set_cache f :
  keeps_books (modify (fun w => set_TICKER_CACHE (f w) w)).
Proof. intros w. by repeat split. Qed.

Create HintDb books.
#[local] Hint Resolve keeps_books_ret keeps_books_raise keeps_books_gets
  keeps_books_time_time keeps_books_exchange_fetch_ticker
  keeps_books_exchange_create_order keeps_books_set_cache : books.

Ltac books :=
  repeat first
    [ progress eauto with books
    | apply keeps_books_bind; [|intros ?]
    | match goal with
      | |- keeps_books (match ?x with _ => _ end) => destruct x
      | |- keeps_books (if ?b then _ else _) => destruct b
      end ].

Lemma keeps_books_fetch_ticker symbol mode : keeps_books (fetch_ticker symbol mode).
Proof. unfold fetch_ticker. books. Qed.

Lemma keeps_books_get_last_price symbol mode : keeps_books (get_last_price symbol mode).
Proof. unfold get_last_price. pose proof keeps_books_fetch_ticker. books. Qed.

Lemma keeps_books_execute_order side amount symbol ot price mode :
  keeps_books (execute_order side amount symbol ot price mode).
Proof. unfold execute_order. pose proof keeps_books_get_last_price. books. Qed.

Lemma keeps_books_quote side amount ot : keeps_books (quote side amount ot).
Proof.
  unfold quote. pose proof keeps_books_get_last_price.
  pose proof keeps_books_execute_order. books.
Qed.

(** *** [_run_order], unfolded once *)

Lemma unlock_lock sig w : sig ∉ locks w → unlock sig (lock sig w) = w.
Proof.
  intros H. destruct w. unfold unlock, lock, set_locks. simpl in *. f_equal.
  apply set_eq. intros x. rewrite elem_of_difference, elem_of_union, elem_of_singleton.
  split; [intros [[->|?] ?]; done|]. intros Hx. split; [by right|]. by intros ->.
Qed.

(** The [with] statement, unfolded: it waits while the lock is held, and
    otherwise runs the body with the lock taken and releases it. *)
Lemma _position_lock_eq {A} sig (body : M A) w :
  _position_lock sig body w
  = if bool_decide (sig ∈ locks w) then (Blocked, w)
    else let '(r, w') := body (lock sig w) in (r, unlock sig w').
Proof. unfold _position_lock, _Lock__enter__. by destruct (bool_decide _). Qed.

Lemma _run_order_eq side amount sig today ot w :
  sig ∉ locks w →
  _run_order side amount sig today ot w =
    match latest_of today (files w !! sig) with
    | inl e => (Raise e, w)
    | inr (p, last_id) =>
        let base := BASE_SYMBOL (env w) in
        match quote side amount ot (lock sig w) with
        | (Ret (fill_price, order), w') =>
            match apply_side base side fill_price amount (opening base p) with
            | inl err => (Ret err, unlock sig w')
            | inr p' =>
                (Ret (Positions p'),
                 unlock sig
                   (set_IF_TRADE true
                      (appended sig
                         (trade_record today last_id side base amount fill_price p' order)
                         w')))
            end
        | (Raise e, w') => (Raise e, unlock sig w')
        | (Blocked, w') => (Blocked, unlock sig w')
        end
    end.
Proof.
  intros Hfree. unfold _run_order. rewrite _position_lock_eq.
  rewrite bool_decide_eq_false_2 by done.
  unfold bind at 1. unfold gets at 1. unfold bind at 1.
  rewrite get_latest_position_eq.
  change (files (lock sig w)) with (files w). change (env (lock sig w)) with (env w).
  destruct (latest_of today (files w !! sig)) as [e|[p last_id]].
  { fold (unlock sig (lock sig w)). by rewrite unlock_lock. }
  cbv zeta. unfold quote. unfold bind.
  destruct (get_last_price None None (lock sig w)) as [[px| |] w2]; [|done..].
  destruct (execute_order side amount None ot None None w2) as [[order| |] w3]; [|done..].
  unfold ret, opening. 
  destruct (apply_side _ _ _ _ _) as [err|p']; [done|].
  reflexivity.
Qed.

Lemma _run_order_held side amount sig today ot w :
  sig ∈ locks w → _run_order side amount sig today ot w = (Blocked, w).
Proof. intros H. unfold _run_order. rewrite _position_lock_eq. by rewrite bool_decide_eq_true_2. Qed.

Lemma buy_eq amount w sig today :
  cfg_SIGNATURE w = Some sig → sig ≠ EmptyString →
  cfg_TODAY_DATE w = Some today → today ≠ EmptyString →
  (amount <=? 0)%float = false →
  buy amount w = _run_order "buy" amount sig today "market" w.
Proof.
  intros Hs Hs' Ht Ht' Ha. unfold buy, bind, gets. rewrite Hs, Ht. simpl.
  apply String.eqb_neq in Hs', Ht'. rewrite Hs', Ht', Ha. done.
Qed.

Lemma same_books_unlock sig w w' :
  sig ∉ locks w → same_books (lock sig w) w' → same_books w (unlock sig w').
Proof.
  intros Hfree (He & Hf & Hl & Hs & Ht & Hi). repeat split; try done.
  change (locks (unlock sig w')) with (locks w' ∖ {[sig]}). rewrite Hl.
  change (locks (lock sig w)) with ({[sig]} ∪ locks w).
  apply set_eq. intros x. rewrite elem_of_difference, elem_of_union, elem_of_singleton.
  split; [intros [[->|?] ?]; done|]. intros Hx. split; [by right|]. by intros ->.
Qed.

(** *** Rejection *)

(** C2.  A buy whose [CASH - fill_price * amount] is negative, and a sell
    whose holding is below the amount, return the error dictionary with
    its diagnostic fields (required and available cash, or holding and
    attempted amount); no record is appended, the ledger files, the lock
    and the configuration (the trade flag included) are as before, and
    the latest position reads as before.  The buy test is taken in the
    form in which the code computes it; in binary64 a difference is
    negative exactly when its first operand is the smaller one. *)
Theorem rejection_is_atomic side amount sig today ot w p last_id fill_price order w' :
  sig ∉ locks w →
  latest_of today (files w !! sig) = inr (p, last_id) →
  quote side amount ot (lock sig w) = (Ret (fill_price, order), w') →
  let base := BASE_SYMBOL (env w) in
  let pos := opening base p in
  let out := _run_order side amount sig today ot w in
  (side = "buy" ∧ (get0 pos "CASH" - fill_price * amount <? 0)%float = true →
     out.1 = Ret (ErrInsufficientCash (fill_price * amount)%float (get0 pos "CASH")))
  ∧ (side ≠ "buy" ∧ (get0 pos base <? amount)%float = true →
     out.1 = Ret (ErrInsufficientHolding (get0 pos base) amount))
  ∧ ((side = "buy" ∧ (get0 pos "CASH" - fill_price * amount <? 0)%float = true)
     ∨ (side ≠ "buy" ∧ (get0 pos base <? amount)%float = true) →
     same_books w out.2
     ∧ get_latest_position today sig out.2 = (Ret (p, last_id), out.2)).
Proof.
  intros Hfree Hl Hq base pos out.
  assert (same_books (lock sig w) w') as Hsb.
  { pose proof (keeps_books_quote side amount ot (lock sig w)) as H. by rewrite Hq in H. }
  assert (∀ err, apply_side base side fill_price amount pos = inl err →
            out = (Ret err, unlock sig w')) as Hout.
  { intros err Herr. unfold out. rewrite _run_order_eq by done. rewrite Hl. cbv zeta.
    rewrite Hq. fold base. fold pos. by rewrite Herr. }
  assert (∀ err, apply_side base side fill_price amount pos = inl err →
            same_books w out.2
            ∧ get_latest_position today sig out.2 = (Ret (p, last_id), out.2)) as Hsame.
  { intros err Herr. rewrite (Hout err Herr). simpl.
    pose proof (same_books_unlock _ _ _ Hfree Hsb) as Hb. split; [done|].
    rewrite get_latest_position_eq. destruct Hb as (_ & -> & _). by rewrite Hl. }
  split; [|split].
  - intros [-> Hlt]. erewrite Hout; [done|]. unfold apply_side. simpl. by rewrite Hlt.
  - intros [Hs Hlt]. erewrite Hout; [done|]. unfold apply_side.
    apply String.eqb_neq in Hs. rewrite Hs. by rewrite Hlt.
  - intros [[-> Hlt]|[Hs Hlt]]; eapply Hsame; unfold apply_side.
    + simpl. by rewrite Hlt.
    + apply String.eqb_neq in Hs. rewrite Hs. by rewrite Hlt.
Qed.

(** Scenario B: holding 0.1, selling 0.2. *)
Lemma rejection_is_atomic_witness :
  let w := with_ledger [Row (sample_record "2025-01-02" 0 5000 0.1)] (fresh_world 50000) in
  let out := _run_order "sell" 0.2 "agent" "2025-01-02" "market" w in
  out.1 = Ret (ErrInsufficientHolding 0.1 0.2) ∧ files out.2 = files w.
Proof.
  intros w out.
  edestruct (rejection_is_atomic "sell" 0.2%float "agent" "2025-01-02" "market" w)
    as (_ & Hsell & Hsame).
  - apply not_elem_of_empty.
  - reflexivity.
  - reflexivity.
  - split.
    + apply Hsell. split; [discriminate|reflexivity].
    + destruct Hsame as [(_ & Hf & _) _]; [|exact Hf].
      right. split; [discriminate|reflexivity].
Defined.

(** *** Settlement arithmetic *)

Lemma get0_insert_eq k v (p : position) : get0 (<[k := v]> p) k = v.
Proof. unfold get0. by rewrite lookup_insert_eq. Qed.

Lemma get0_insert_ne k k' v (p : position) : k ≠ k' → get0 (<[k := v]> p) k' = get0 p k'.
Proof. intros H. unfold get0. by rewrite lookup_insert_ne. Qed.

(** *** One rounded operation *)

(** The binary64 operations are specified by [SpecFloat]: the exact
    result, as an integer mantissa, is shifted to the right until it has
    at most 53 digits, and rounded to nearest, ties to even, on the bits
    shifted out. *)
Lemma shr_inv_0 m : 0 <= m → shr_inv m 0 (Build_shr_record m false false).
Proof.
  intros Hm. split; [exact Hm|]. exists 0. simpl. split; [lia|]. split; [lia|].
  split; [discriminate|congruence].
Qed.

Lemma shr_1_inv m k mrs : 0 <= k → shr_inv m k mrs → shr_inv m (k + 1) (shr_1 mrs).
Proof.
  intros Hk [Hm (t & Ht & Hr & Hs)].
  assert (2 ^ (k + 1) = 2 * 2 ^ k) as Hp by (rewrite Z.pow_add_r by lia; lia).
  assert (0 < 2 ^ k) as Hpos by (apply Z.pow_pos_nonneg; lia).
  destruct mrs as [mm r s]. cbn [shr_m shr_r shr_s] in *.
  assert ((r || s)%bool = true <-> b2z r * 2 ^ k + t <> 0) as Hs'.
  { destruct r; cbn [b2z orb]; [split; [intros _; lia|reflexivity]|].
    rewrite Hs. split; intros H; lia. }
  destruct mm as [|[p|p|]|p]; cbn [shr_1 shr_m shr_r shr_s]; try lia;
    unfold shr_inv; cbn [shr_m shr_r shr_s];
    (split; [lia|]); exists (b2z r * 2 ^ k + t); rewrite Hp;
    cbn [shr_m shr_r shr_s];
    (split; [|split; [destruct r; cbn [b2z]; lia|exact Hs']]).
  all: cbn [b2z] in *; nia.
Qed.

Lemma iter_pos_shr_inv m p : ∀ k mrs,
  0 <= k → shr_inv m k mrs → shr_inv m (k + Zpos p) (SpecFloat.iter_pos shr_1 p mrs).
Proof.
  induction p as [p IH|p IH|]; intros k mrs Hk Hinv; simpl.
  - replace (k + Zpos p~1) with (k + 1 + Zpos p + Zpos p) by lia.
    apply IH; [lia|]. apply IH; [lia|]. apply shr_1_inv; assumption.
  - replace (k + Zpos p~0) with (k + Zpos p + Zpos p) by lia.
    apply IH; [lia|]. apply IH; assumption.
  - apply shr_1_inv; assumption.
Qed.

Lemma shr_spec m e n : 0 <= m →
  shr_inv m (Z.max n 0) (fst (shr (Build_shr_record m false false) e n))
  ∧ snd (shr (Build_shr_record m false false) e n) = e + Z.max n 0.
Proof.
  intros Hm. destruct n as [|p|p]; cbn [shr fst snd].
  - split; [apply shr_inv_0; assumption|lia].
  - split; [|lia]. replace (Z.max (Z.pos p) 0) with (0 + Z.pos p) by lia.
    apply iter_pos_shr_inv; [lia|]. apply shr_inv_0; assumption.
  - split; [apply shr_inv_0; assumption|lia].
Qed.

Lemma rne_spec m k mrs : 0 <= k → shr_inv m k mrs →
  let r := round_nearest_even (shr_m mrs) (loc_of_shr_record mrs) in
  shr_m mrs <= r <= shr_m mrs + 1
  ∧ Z.abs (2 * (r * 2 ^ k - m)) <= 2 ^ k
  ∧ (k = 0 → r = m)
  ∧ shr_m mrs * 2 ^ k <= m.
Proof.
  intros Hk [Hm (t & Ht & Hr & Hs)].
  assert (0 < 2 ^ k) as Hpos by (apply Z.pow_pos_nonneg; lia).
  assert (k = 0 -> 2 ^ k = 1) as H0 by (intros ->; reflexivity).
  destruct mrs as [mm r s]. cbn [shr_m shr_r shr_s] in *.
  destruct r, s; cbn [loc_of_shr_record round_nearest_even b2z] in *.
  - assert (t <> 0) as Hne by (apply Hs; reflexivity).
    split; [lia|]. split; [nia|]. split; [intros Hk0; specialize (H0 Hk0); lia|nia].
  - assert (t = 0) as -> by (destruct (Z.eq_dec t 0) as [E|E]; [exact E|apply Hs in E; discriminate]).
    destruct (Z.even mm); (split; [lia|]); (split; [nia|]);
      (split; [intros Hk0; specialize (H0 Hk0); lia|nia]).
  - assert (t <> 0) as Hne by (apply Hs; reflexivity).
    split; [lia|]. split; [nia|]. split; [intros Hk0; specialize (H0 Hk0); lia|nia].
  - assert (t = 0) as -> by (destruct (Z.eq_dec t 0) as [E|E]; [exact E|apply Hs in E; discriminate]).
    split; [lia|]. split; [nia|]. split; [intros Hk0; specialize (H0 Hk0); lia|nia].
Qed.

Lemma digits2_pos_bounds p :
  2 ^ (Zpos (digits2_pos p) - 1) <= Zpos p < 2 ^ Zpos (digits2_pos p).
Proof.
  induction p as [p IH|p IH|]; cbn [digits2_pos].
  - rewrite Pos2Z.inj_succ.
    replace (Z.succ (Zpos (digits2_pos p)) - 1) with (Z.succ (Zpos (digits2_pos p) - 1)) by lia.
    rewrite !Z.pow_succ_r by lia. lia.
  - rewrite Pos2Z.inj_succ.
    replace (Z.succ (Zpos (digits2_pos p)) - 1) with (Z.succ (Zpos (digits2_pos p) - 1)) by lia.
    rewrite !Z.pow_succ_r by lia. lia.
  - simpl. lia.
Qed.

Lemma binary_round_aux_spec sx m e :
  match binary_round_aux prec emax sx (Zpos m) e loc_Exact with
  | S754_zero s => s = sx ∧ round_err (Zpos m) e 0
  | S754_finite s m' e' =>
      s = sx ∧ e <= e' ∧ round_err (Zpos m) e (Zpos m' * 2 ^ (e' - e))
  | _ => True
  end.
Proof.
  unfold binary_round_aux, shr_fexp. cbn [shr_record_of_loc Zdigits2].
  set (d := Zpos (digits2_pos m)).
  set (n := fexp prec emax (d + e) - e).
  pose proof (digits2_pos_bounds m) as Hd. fold d in Hd.
  destruct (shr_spec (Zpos m) e n ltac:(lia)) as [Hinv He'].
  destruct (shr {| shr_m := Zpos m; shr_r := false; shr_s := false |} e n) as [mrs' e'].
  cbn [fst snd] in Hinv, He'.
  set (k := Z.max n 0) in *.
  destruct (rne_spec (Zpos m) k mrs' ltac:(lia) Hinv) as (Hr & Herr & Hexact & Hle).
  set (r := round_nearest_even (shr_m mrs') (loc_of_shr_record mrs')) in *.
  assert (0 <= shr_m mrs') as Hmm by apply Hinv.
  assert (0 < 2 ^ k) as Hpos by (apply Z.pow_pos_nonneg; lia).
  set (n2 := fexp prec emax (Zdigits2 r + e') - e').
  destruct (shr_spec r e' n2 ltac:(lia)) as [Hinv2 He''].
  destruct (shr {| shr_m := r; shr_r := false; shr_s := false |} e' n2) as [mrs'' e''].
  cbn [fst snd] in Hinv2, He''.
  set (k2 := Z.max n2 0) in *.
  (* the first shift leaves at most 53 digits *)
  assert (n = Z.max (d - 53) (-1074 - e)) as Hn.
  { unfold n, fexp, SpecFloat.emin, prec, emax. lia. }
  assert (1 <= d) as Hd1 by (unfold d; lia).
  assert (r <= 2 ^ 53) as Hr53.
  { destruct (Z_le_gt_dec n 0) as [Hn0|Hn0].
    - assert (k = 0) as Hk0 by lia. rewrite (Hexact Hk0).
      assert (d <= 53) by lia.
      assert (2 ^ d <= 2 ^ 53) by (apply Z.pow_le_mono_r; lia). lia.
    - assert (k = n) as Hkn by lia.
      destruct (Z_le_gt_dec d k) as [Hdk|Hdk].
      + assert (2 ^ d <= 2 ^ k) by (apply Z.pow_le_mono_r; lia).
        assert (shr_m mrs' = 0) by nia.
        assert (1 <= 2 ^ 53) by (apply Z.pow_le_mono_r with (b := 0); lia). lia.
      + assert (2 ^ d = 2 ^ (d - k) * 2 ^ k) as Hsplit
          by (rewrite <- Z.pow_add_r by lia; f_equal; lia).
        assert (shr_m mrs' < 2 ^ (d - k)) by nia.
        assert (2 ^ (d - k) <= 2 ^ 53) by (apply Z.pow_le_mono_r; lia). lia. }
  (* the second shift is exact *)
  assert (e' <= e'' /\ shr_m mrs'' * 2 ^ (e'' - e') = r /\ 0 <= shr_m mrs'') as (Hee & Hval & Hm'').
  { destruct Hinv2 as [Hm2 (t & Ht & Htr & _)].
    assert (k2 = 0 \/ (k2 = 1 /\ r = 2 ^ 53)) as [Hk2|[Hk2 Hr2]].
    { destruct r as [|q|q]; [left|..]; try lia.
      - unfold k2, n2, fexp, SpecFloat.emin, prec, emax. cbn [Zdigits2]. lia.
      - pose proof (digits2_pos_bounds q) as Hq.
        unfold k2, n2, fexp, SpecFloat.emin, prec, emax. cbn [Zdigits2].
        destruct (Z_le_gt_dec (Zpos (digits2_pos q)) 53) as [Hq53|Hq53]; [left; lia|right].
        assert (2 ^ 53 <= 2 ^ (Zpos (digits2_pos q) - 1)) by (apply Z.pow_le_mono_r; lia).
        assert (Zpos (digits2_pos q) = 54).
        { destruct (Z_le_gt_dec (Zpos (digits2_pos q)) 54) as [H54|H54]; [lia|].
          assert (2 ^ 54 <= 2 ^ (Zpos (digits2_pos q) - 1)) by (apply Z.pow_le_mono_r; lia).
          assert (2 ^ 54 = 2 * 2 ^ 53) by reflexivity. lia. }
        lia. }
    - rewrite Hk2 in *. replace (e'' - e') with 0 by lia.
      change (2 ^ 0) with 1 in *. split; [lia|]. split; [|lia].
      destruct (shr_r mrs''); cbn [b2z] in Ht; lia.
    - rewrite Hk2 in *. replace (e'' - e') with 1 by lia.
      change (2 ^ 1) with 2 in *. rewrite Hr2 in Ht.
      assert (2 ^ 53 = 2 * 2 ^ 52) as H53 by reflexivity.
      split; [lia|]. split; [|lia]. rewrite Hr2.
      destruct (shr_r mrs''); cbn [b2z] in Ht; lia. }
  (* the error of the first shift *)
  assert (round_err (Zpos m) e (r * 2 ^ k)) as Hround.
  { destruct (Z_le_gt_dec n 0) as [Hn0|Hn0].
    - left. assert (k = 0) as Hk0 by lia. rewrite (Hexact Hk0), Hk0.
      change (2 ^ 0) with 1. replace (Zpos m * 1 - Zpos m) with 0 by lia. simpl. lia.
    - assert (k = n) as Hkn by lia.
      destruct (Z_le_gt_dec (-1074 - e) (d - 53)) as [Hnormal|Hsub].
      + left. assert (k = d - 53) by lia.
        assert (2 ^ (d - 1) = 2 ^ (k - 1) * 2 ^ 53) as Hsplit
          by (rewrite <- Z.pow_add_r by lia; f_equal; lia).
        assert (2 ^ k = 2 * 2 ^ (k - 1)) as Hk1
          by (rewrite <- Z.pow_succ_r by lia; f_equal; lia).
        assert (0 < 2 ^ 53) by reflexivity. nia.
      + right. assert (k = -1074 - e) as Hk by lia. rewrite <- Hk. split; [lia|]. lia. }
  assert (e'' - e = k + (e'' - e')) as Hj by lia.
  destruct (shr_m mrs'') as [|m'|m'] eqn:Hm; [| |lia].
  - split; [reflexivity|]. replace 0 with (r * 2 ^ k) by nia. exact Hround.
  - destruct (e'' <=? emax - prec); [|exact I].
    split; [reflexivity|]. split; [lia|].
    replace (Zpos m' * 2 ^ (e'' - e)) with (r * 2 ^ k); [exact Hround|].
    rewrite Hj, Z.pow_add_r by lia. rewrite <- Hval. ring.
Qed.

Section RoundingError.

Local Open Scope Q_scope.

Lemma two_neq_0 : ¬ 2 == 0.
Proof. discriminate. Qed.

Lemma pow2_pos e : 0 < 2 ^ e.
Proof. apply Qpower_0_lt. reflexivity. Qed.

Lemma inject_pow2 j : (0 <= j)%Z → inject_Z (2 ^ j) == 2 ^ j.
Proof. intros Hj. apply (Zpower_Qpower 2 j Hj). Qed.

Lemma qv_shift s m e e' : (e <= e')%Z → qv s (m * 2 ^ (e' - e)) e == qv s m e'.
Proof.
  intros He. unfold qv. rewrite inject_Z_mult, inject_pow2 by lia.
  replace e' with (e + (e' - e))%Z at 2 by lia.
  rewrite (Qpower_plus 2 e (e' - e) two_neq_0). ring.
Qed.

Lemma qv_diff s R m e : qv s R e - qv s m e == qv s (R - m) e.
Proof.
  unfold qv. unfold Z.sub. rewrite inject_Z_plus, inject_Z_opp. ring.
Qed.

Lemma Qabs_qv s R e : Qabs (qv s R e) == inject_Z (Z.abs R) * 2 ^ e.
Proof.
  unfold qv. rewrite !Qabs_Qmult. rewrite (Qabs_pos (2 ^ e)) by (apply Qlt_le_weak, pow2_pos).
  change (Qabs (inject_Z R)) with (inject_Z (Z.abs R)).
  destruct s; [change (Qabs (-1)) with 1|change (Qabs 1) with 1]; ring.
Qed.

Lemma u64_pow : u64 * inject_Z (2 ^ 53) == 1.
Proof.
  unfold u64. rewrite inject_pow2 by lia.
  rewrite <- (Qpower_plus 2 (-53) 53 two_neq_0). reflexivity.
Qed.

Lemma u64_pos : 0 < u64.
Proof. apply pow2_pos. Qed.

Lemma eta64_pos : 0 < eta64.
Proof. apply pow2_pos. Qed.

Lemma rounding_bound_nonneg x : 0 <= rounding_bound x.
Proof.
  unfold rounding_bound. pose proof u64_pos. pose proof eta64_pos.
  pose proof (Qabs_nonneg x). nra.
Qed.

(** An integer within [round_err] of [m], in units of [2^e], is within
    the rounding bound of the number [m] stands for. *)
Lemma round_err_bound s m e R :
  (0 <= m)%Z → round_err m e R →
  Qabs (qv s R e - qv s m e) <= rounding_bound (qv s m e).
Proof.
  intros Hm Herr. rewrite qv_diff. unfold rounding_bound. rewrite !Qabs_qv.
  rewrite (Z.abs_eq m) by exact Hm.
  pose proof (pow2_pos e) as HP. pose proof u64_pos as Hu. pose proof eta64_pos as Heta.
  set (P := 2 ^ e) in *. set (A := Z.abs (R - m)).
  assert (0 <= inject_Z A) as HA.
  { change (inject_Z 0 <= inject_Z A). rewrite <- Zle_Qle. apply Z.abs_nonneg. }
  destruct Herr as [H|[He H]].
  - assert (inject_Z A * inject_Z (2 ^ 53) <= inject_Z m) as H'.
    { rewrite <- inject_Z_mult. rewrite <- Zle_Qle. exact H. }
    pose proof u64_pow as Hup.
    assert (inject_Z A <= u64 * inject_Z m) as HAm.
    { setoid_replace (inject_Z A) with (u64 * (inject_Z A * inject_Z (2 ^ 53))) using relation Qeq by (rewrite (Qmult_comm (inject_Z A)), Qmult_assoc, Hup; ring).
      apply Qmult_le_l; [exact Hu|exact H']. }
    apply Qle_trans with (u64 * inject_Z m * P).
    + apply Qmult_le_compat_r; [exact HAm|apply Qlt_le_weak, HP].
    + rewrite <- Qmult_assoc. rewrite <- (Qplus_0_r (u64 * (inject_Z m * P))) at 1.
      apply Qplus_le_r. apply Qlt_le_weak, Heta.
  - assert (2 * inject_Z A <= 2 ^ (-1074 - e)) as H'.
    { rewrite <- inject_pow2 by lia.
      rewrite Zle_Qle in H. rewrite inject_Z_mult in H. exact H. }
    assert (2 ^ (-1074 - e) * P == 2 * eta64) as Hpe.
    { unfold P, eta64. rewrite <- (Qpower_plus 2 (-1074 - e) e two_neq_0).
      replace (-1074 - e + e)%Z with (1 + -1075)%Z by lia.
      rewrite (Qpower_plus 2 1 (-1075) two_neq_0). reflexivity. }
    assert (inject_Z A * P <= eta64) as HAP.
    { apply Qmult_le_l with (z := 2); [reflexivity|].
      rewrite <- Hpe. rewrite Qmult_assoc.
      apply Qmult_le_compat_r; [exact H'|apply Qlt_le_weak, HP]. }
    apply Qle_trans with eta64; [exact HAP|].
    rewrite <- (Qplus_0_l eta64) at 1. apply Qplus_le_l.
    apply Qmult_le_0_compat; [apply Qlt_le_weak, Hu|].
    apply Qmult_le_0_compat; [|apply Qlt_le_weak, HP].
    change (inject_Z 0 <= inject_Z m). rewrite <- Zle_Qle. exact Hm.
Qed.

Lemma qv_cond_Zopp s R e : qv s R e == inject_Z (cond_Zopp s R) * 2 ^ e.
Proof.
  unfold qv, cond_Zopp. destruct s; [rewrite inject_Z_opp|]; ring.
Qed.

Lemma round_aux_bound sx m e c :
  SFval (binary_round_aux prec emax sx (Zpos m) e loc_Exact) = Some c →
  Qabs (c - qv sx (Zpos m) e) <= rounding_bound (qv sx (Zpos m) e).
Proof.
  pose proof (binary_round_aux_spec sx m e) as H.
  destruct (binary_round_aux prec emax sx (Z.pos m) e loc_Exact) as [s| | |s m' e'];
    cbn [SFval]; intros Hc; try discriminate; injection Hc as <-.
  - destruct H as [_ H].
    setoid_replace 0 with (qv sx 0 e) using relation Qeq by (unfold qv; ring).
    apply round_err_bound; [lia|exact H].
  - destruct H as (-> & He & H). fold (qv sx (Zpos m') e').
    rewrite <- (qv_shift sx (Zpos m') e e' He).
    apply round_err_bound; [lia|exact H].
Qed.

Lemma iter_xO m d : Zpos (Pos.iter xO m d) = (Zpos m * 2 ^ Zpos d)%Z.
Proof.
  induction d as [|d IH] using Pos.peano_ind.
  - simpl. lia.
  - rewrite Pos.iter_succ, Pos2Z.inj_xO, IH, Pos2Z.inj_succ, Z.pow_succ_r by lia. ring.
Qed.

Lemma shl_align_spec mx ex t :
  (snd (shl_align mx ex t) <= ex)%Z
  ∧ Zpos (fst (shl_align mx ex t)) = (Zpos mx * 2 ^ (ex - snd (shl_align mx ex t)))%Z
  ∧ ((t <= ex)%Z → snd (shl_align mx ex t) = t).
Proof.
  unfold shl_align. destruct (t - ex)%Z as [|d|d] eqn:Hd; cbn [fst snd].
  - split; [lia|]. split; [|lia]. rewrite Z.sub_diag. simpl. lia.
  - split; [lia|]. split; [|lia]. rewrite Z.sub_diag. simpl. lia.
  - split; [lia|]. split; [|reflexivity]. rewrite iter_xO. f_equal. f_equal. lia.
Qed.

Lemma binary_normalize_bound M e c :
  SFval (binary_normalize prec emax M e false) = Some c →
  Qabs (c - inject_Z M * 2 ^ e) <= rounding_bound (inject_Z M * 2 ^ e).
Proof.
  assert (forall s m, SFval (binary_round prec emax s m e) = Some c ->
            Qabs (c - qv s (Zpos m) e) <= rounding_bound (qv s (Zpos m) e)) as Hround.
  { intros s m. unfold binary_round.
    destruct (shl_align_spec m e (fexp prec emax (Z.pos (digits2_pos m) + e))) as (Hle & Hm & _).
    destruct (shl_align m e (fexp prec emax (Z.pos (digits2_pos m) + e))) as [mz ez].
    cbn [fst snd] in Hle, Hm. intros Hc.
    apply round_aux_bound in Hc. unfold rounding_bound in *.
    rewrite <- (qv_shift s (Zpos m) ez e Hle), <- Hm. exact Hc. }
  destruct M as [|m|m]; cbn [binary_normalize SFval].
  - intros [= <-]. unfold rounding_bound.
    setoid_replace (0 - inject_Z 0 * 2 ^ e) with 0 using relation Qeq by (unfold inject_Z; ring).
    pose proof (rounding_bound_nonneg (inject_Z 0 * 2 ^ e)). exact H.
  - intros Hc. specialize (Hround false m Hc). unfold rounding_bound in *.
    rewrite (qv_cond_Zopp false) in Hround. exact Hround.
  - intros Hc. specialize (Hround true m Hc). unfold rounding_bound in *.
    rewrite (qv_cond_Zopp true) in Hround. exact Hround.
Qed.

Lemma bound_exact x y : x == y → Qabs (x - y) <= rounding_bound y.
Proof.
  intros H. setoid_replace (x - y) with 0 using relation Qeq by (rewrite H; ring).
  apply rounding_bound_nonneg.
Qed.

Lemma SFmul_bound x y a b c :
  SFval x = Some a → SFval y = Some b → SFval (SFmul prec emax x y) = Some c →
  Qabs (c - a * b) <= rounding_bound (a * b).
Proof.
  destruct x as [sx| | |sx mx ex], y as [sy| | |sy my ey]; cbn [SFval SFmul];
    intros Ha Hb Hc; try discriminate;
    injection Ha as <-; injection Hb as <-.
  - injection Hc as <-. apply bound_exact. ring.
  - injection Hc as <-. apply bound_exact. ring.
  - injection Hc as <-. apply bound_exact. ring.
  - apply round_aux_bound in Hc. unfold rounding_bound in *.
    assert (qv (xorb sx sy) (Zpos (mx * my)) (ex + ey)
            == (if sx then -1 else 1) * inject_Z (Zpos mx) * 2 ^ ex
               * ((if sy then -1 else 1) * inject_Z (Zpos my) * 2 ^ ey)) as E.
    { unfold qv. rewrite Pos2Z.inj_mul, inject_Z_mult, (Qpower_plus 2 ex ey two_neq_0).
      destruct sx, sy; cbn [xorb]; ring. }
    rewrite <- E. exact Hc.
Qed.

(** Two numbers brought to the smaller of their exponents. *)
Lemma aligned (sx : bool) mx ex ez :
  (ez <= ex)%Z →
  (if sx then -1 else 1) * inject_Z (Zpos mx) * 2 ^ ex
  == inject_Z (cond_Zopp sx (Zpos (fst (shl_align mx ex ez)))) * 2 ^ ez.
Proof.
  intros He. destruct (shl_align_spec mx ex ez) as (_ & Hm & Hez).
  rewrite Hm, (Hez He). rewrite <- qv_cond_Zopp. rewrite (qv_shift sx (Zpos mx) ez ex He).
  reflexivity.
Qed.

Lemma SFadd_bound x y a b c :
  SFval x = Some a → SFval y = Some b → SFval (SFadd prec emax x y) = Some c →
  Qabs (c - (a + b)) <= rounding_bound (a + b).
Proof.
  destruct x as [sx| | |sx mx ex], y as [sy| | |sy my ey]; cbn [SFval SFadd];
    intros Ha Hb Hc; try discriminate;
    injection Ha as <-; injection Hb as <-.
  - assert (c = 0) as ->
      by (destruct sx, sy; cbn [SFval] in Hc; injection Hc as <-; reflexivity).
    apply bound_exact. ring.
  - cbn [SFval] in Hc. injection Hc as <-. apply bound_exact. ring.
  - cbn [SFval] in Hc. injection Hc as <-. apply bound_exact. ring.
  - apply binary_normalize_bound in Hc. unfold rounding_bound in *.
    rewrite (aligned sx mx ex (Z.min ex ey)) by lia.
    rewrite (aligned sy my ey (Z.min ex ey)) by lia.
    rewrite inject_Z_plus in Hc.
    rewrite <- Qmult_plus_distr_l. exact Hc.
Qed.

Lemma SFsub_bound x y a b c :
  SFval x = Some a → SFval y = Some b → SFval (SFsub prec emax x y) = Some c →
  Qabs (c - (a - b)) <= rounding_bound (a - b).
Proof.
  destruct x as [sx| | |sx mx ex], y as [sy| | |sy my ey]; cbn [SFval SFsub];
    intros Ha Hb Hc; try discriminate;
    injection Ha as <-; injection Hb as <-.
  - assert (c = 0) as ->
      by (destruct sx, sy; cbn [SFval] in Hc; injection Hc as <-; reflexivity).
    apply bound_exact. ring.
  - cbn [SFval] in Hc. injection Hc as <-. apply bound_exact. destruct sy; cbn [negb]; ring.
  - cbn [SFval] in Hc. injection Hc as <-. apply bound_exact. ring.
  - apply binary_normalize_bound in Hc. unfold rounding_bound in *.
    rewrite (aligned sx mx ex (Z.min ex ey)) by lia.
    rewrite (aligned sy my ey (Z.min ex ey)) by lia.
    unfold Z.sub in Hc at 1 2. rewrite inject_Z_plus, inject_Z_opp in Hc.
    setoid_replace (inject_Z (cond_Zopp sx (Z.pos (fst (shl_align mx ex (Z.min ex ey))))) * 2 ^ Z.min ex ey
                    - inject_Z (cond_Zopp sy (Z.pos (fst (shl_align my ey (Z.min ex ey))))) * 2 ^ Z.min ex ey)
      with ((inject_Z (cond_Zopp sx (Z.pos (fst (shl_align mx ex (Z.min ex ey)))))
             + - inject_Z (cond_Zopp sy (Z.pos (fst (shl_align my ey (Z.min ex ey)))))) * 2 ^ Z.min ex ey)
      using relation Qeq by ring.
    exact Hc.
Qed.

Lemma Fval_SFval x : Fval x = SFval (Prim2SF x).
Proof. reflexivity. Qed.

Lemma mul_bound x y a b c :
  Fval x = Some a → Fval y = Some b → Fval (x * y)%float = Some c →
  Qabs (c - a * b) <= rounding_bound (a * b).
Proof. rewrite !Fval_SFval, mul_spec. apply SFmul_bound. Qed.

Lemma add_bound x y a b c :
  Fval x = Some a → Fval y = Some b → Fval (x + y)%float = Some c →
  Qabs (c - (a + b)) <= rounding_bound (a + b).
Proof. rewrite !Fval_SFval, add_spec. apply SFadd_bound. Qed.

Lemma sub_bound x y a b c :
  Fval x = Some a → Fval y = Some b → Fval (x - y)%float = Some c →
  Qabs (c - (a - b)) <= rounding_bound (a - b).
Proof. rewrite !Fval_SFval, sub_spec. apply SFsub_bound. Qed.

(** A sum or a difference is a number only if both operands are. *)
Lemma add_finite x y c :
  Fval (x + y)%float = Some c → ∃ a b, Fval x = Some a ∧ Fval y = Some b.
Proof.
  rewrite !Fval_SFval, add_spec. unfold SF64add.
  destruct (Prim2SF x) as [sx|sx| |sx mx ex], (Prim2SF y) as [sy|sy| |sy my ey];
    cbn [SFadd SFval]; intros H; try discriminate H; try (eexists _, _; split; reflexivity).
  destruct sx, sy; discriminate H.
Qed.

Lemma sub_finite x y c :
  Fval (x - y)%float = Some c → ∃ a b, Fval x = Some a ∧ Fval y = Some b.
Proof.
  rewrite !Fval_SFval, sub_spec. unfold SF64sub.
  destruct (Prim2SF x) as [sx|sx| |sx mx ex], (Prim2SF y) as [sy|sy| |sy my ey];
    cbn [SFsub SFval]; intros H; try discriminate H; try (eexists _, _; split; reflexivity).
  destruct sx, sy; discriminate H.
Qed.

Lemma drift_bound e1 e2 e3 q b1 b2 b3 :
  Qabs e1 <= b1 → Qabs e2 <= b2 → Qabs e3 <= b3 →
  Qabs (e1 + e2 + e3 * q) <= b1 + b2 + Qabs q * b3.
Proof.
  intros H1 H2 H3.
  apply Qle_trans with (Qabs (e1 + e2) + Qabs (e3 * q)); [apply Qabs_triangle|].
  apply Qplus_le_compat.
  - apply Qle_trans with (Qabs e1 + Qabs e2); [apply Qabs_triangle|].
    apply Qplus_le_compat; assumption.
  - rewrite Qabs_Qmult, (Qmult_comm (Qabs q)).
    apply Qmult_le_compat_r; [assumption|apply Qabs_nonneg].
Qed.

(** The notional value after a buy, against the value before: one
    rounding error for each of the three operations. *)
Lemma buy_drift C0 h0 p a C h q C' h' :
  Fval C0 = Some C → Fval h0 = Some h → Fval p = Some q →
  Fval (C0 - p * a)%float = Some C' → Fval (h0 + a)%float = Some h' →
  ∃ qa c,
    Fval a = Some qa ∧ Fval (p * a)%float = Some c
    ∧ Qabs ((C' + h' * q) - (C + h * q))
       <= rounding_bound (C - c) + rounding_bound (q * qa) + Qabs q * rounding_bound (h + qa).
Proof.
  intros HC Hh Hq HC' Hh'.
  destruct (sub_finite _ _ _ HC') as (C1 & c & HC1 & Hc).
  destruct (add_finite _ _ _ Hh') as (h1 & qa & Hh1 & Ha).
  exists qa, c. split; [exact Ha|]. split; [exact Hc|].
  pose proof (mul_bound _ _ _ _ _ Hq Ha Hc) as B2.
  pose proof (sub_bound _ _ _ _ _ HC Hc HC') as B1.
  pose proof (add_bound _ _ _ _ _ Hh Ha Hh') as B3.
  setoid_replace (C' + h' * q - (C + h * q))
    with ((C' - (C - c)) + - (c - q * qa) + (h' - (h + qa)) * q) using relation Qeq by ring.
  apply drift_bound; [exact B1| |exact B3].
  rewrite Qabs_opp. exact B2.
Qed.

Lemma sell_drift C0 h0 p a C h q C' h' :
  Fval C0 = Some C → Fval h0 = Some h → Fval p = Some q →
  Fval (C0 + p * a)%float = Some C' → Fval (h0 - a)%float = Some h' →
  ∃ qa c,
    Fval a = Some qa ∧ Fval (p * a)%float = Some c
    ∧ Qabs ((C' + h' * q) - (C + h * q))
       <= rounding_bound (C + c) + rounding_bound (q * qa) + Qabs q * rounding_bound (h - qa).
Proof.
  intros HC Hh Hq HC' Hh'.
  destruct (add_finite _ _ _ HC') as (C1 & c & HC1 & Hc).
  destruct (sub_finite _ _ _ Hh') as (h1 & qa & Hh1 & Ha).
  exists qa, c. split; [exact Ha|]. split; [exact Hc|].
  pose proof (mul_bound _ _ _ _ _ Hq Ha Hc) as B2.
  pose proof (add_bound _ _ _ _ _ HC Hc HC') as B1.
  pose proof (sub_bound _ _ _ _ _ Hh Ha Hh') as B3.
  setoid_replace (C' + h' * q - (C + h * q))
    with ((C' - (C + c)) + (c - q * qa) + (h' - (h - qa)) * q) using relation Qeq by ring.
  apply drift_bound; [exact B1|exact B2|exact B3].
Qed.

End RoundingError.

Lemma exact2_spec fop qop x y :
  exact2 fop qop x y = true →
  ∃ a b c, Fval x = Some a ∧ Fval y = Some b ∧ Fval (fop x y) = Some c ∧ (c == qop a b)%Q.
Proof.
  unfold exact2. destruct (Fval x) as [a|]; [|done]. destruct (Fval y) as [b|]; [|done].
  destruct (Fval (fop x y)) as [c|]; [|done]. intros H%Qeq_bool_iff. by exists a, b, c.
Qed.

(** C4, as the code has it.  A committed settlement at fill price [p]
    returns and records the positions [p'] obtained from the opening
    positions by one rounded binary64 operation per leg: a buy sets
    [CASH' = CASH - p * a] and [symbol' = symbol + a], a sell sets
    [symbol' = symbol - a] and [CASH' = CASH + p * a]; every other symbol is
    untouched, and the record carries [p] as its fill price.  Whenever the
    three operations of the settlement incur no rounding, the numbers the
    results stand for satisfy [CASH' + symbol' * p = CASH + symbol * p]
    exactly.  Otherwise, as long as cash and holding valued at [p] are
    numbers before and after (no NaN, nothing infinite), the identity
    holds up to rounding: the two sides differ by at most one rounding
    error for each of the three operations, that of the holding taken
    [|p|] times, where the rounding error of an operation with exact
    result [x] is at most [2^-53 * |x| + 2^-1075]. *)
Theorem settlement_conserves_up_to_rounding
    side amount sig today ot w p last_id fill_price order w' p' :
  sig ∉ locks w →
  latest_of today (files w !! sig) = inr (p, last_id) →
  quote side amount ot (lock sig w) = (Ret (fill_price, order), w') →
  BASE_SYMBOL (env w) ≠ "CASH" →
  let base := BASE_SYMBOL (env w) in
  let pos := opening base p in
  apply_side base side fill_price amount pos = inr p' →
  _run_order side amount sig today ot w
  = (Ret (Positions p'),
     unlock sig
       (set_IF_TRADE true
          (appended sig
             (trade_record today last_id side base amount fill_price p' order) w')))
  ∧ (∀ k, k ≠ "CASH" → k ≠ base → p' !! k = pos !! k)
  ∧ (side = "buy" →
       p' !! "CASH" = Some (get0 pos "CASH" - fill_price * amount)%float
       ∧ p' !! base = Some (get0 pos base + amount)%float
       ∧ (exact2 PrimFloat.mul Qmult fill_price amount = true →
          exact2 PrimFloat.sub Qminus (get0 pos "CASH") (fill_price * amount)%float = true →
          exact2 PrimFloat.add Qplus (get0 pos base) amount = true →
          ∃ v v', notional base fill_price pos = Some v
                  ∧ notional base fill_price p' = Some v' ∧ (v' == v)%Q)
       ∧ (∀ v v',
            notional base fill_price pos = Some v →
            notional base fill_price p' = Some v' →
            ∃ C h q a c,
              Fval (get0 pos "CASH") = Some C ∧ Fval (get0 pos base) = Some h
              ∧ Fval fill_price = Some q ∧ Fval amount = Some a
              ∧ Fval (fill_price * amount)%float = Some c
              ∧ (Qabs (v' - v)
                 <= rounding_bound (C - c) + rounding_bound (q * a)
                    + Qabs q * rounding_bound (h + a))%Q))
  ∧ (side ≠ "buy" →
       p' !! base = Some (get0 pos base - amount)%float
       ∧ p' !! "CASH" = Some (get0 pos "CASH" + fill_price * amount)%float
       ∧ (exact2 PrimFloat.mul Qmult fill_price amount = true →
          exact2 PrimFloat.sub Qminus (get0 pos base) amount = true →
          exact2 PrimFloat.add Qplus (get0 pos "CASH") (fill_price * amount)%float = true →
          ∃ v v', notional base fill_price pos = Some v
                  ∧ notional base fill_price p' = Some v' ∧ (v' == v)%Q)
       ∧ (∀ v v',
            notional base fill_price pos = Some v →
            notional base fill_price p' = Some v' →
            ∃ C h q a c,
              Fval (get0 pos "CASH") = Some C ∧ Fval (get0 pos base) = Some h
              ∧ Fval fill_price = Some q ∧ Fval amount = Some a
              ∧ Fval (fill_price * amount)%float = Some c
              ∧ (Qabs (v' - v)
                 <= rounding_bound (C + c) + rounding_bound (q * a)
                    + Qabs q * rounding_bound (h - a))%Q)).
Proof.
  intros Hfree Hl Hq Hbase base pos Hap.
  assert ("CASH" ≠ base) as Hne by (intros H; apply Hbase; by rewrite H).
  split.
  { rewrite _run_order_eq by done. rewrite Hl. cbv zeta. rewrite Hq.
    fold base. fold pos. by rewrite Hap. }
  unfold apply_side in Hap.
  destruct (String.eqb side "buy") eqn:Hside.
  - apply String.eqb_eq in Hside.
    destruct (_ <? 0)%float; [done|]. injection Hap as <-.
    rewrite get0_insert_ne by done.
    split; [|split; [|intros Hn; by destruct Hn]].
    + intros k Hk1 Hk2. by rewrite !lookup_insert_ne.
    + intros _. split; [|split; [|split]].
      * rewrite lookup_insert_ne by done. by rewrite lookup_insert_eq.
      * by rewrite lookup_insert_eq.
      * intros (q & a & cost & Hfq & Hfa & Hfcost & Hcost)%exact2_spec
               (c & cost' & c' & Hfc & Hfcost' & Hfc' & Hc')%exact2_spec
               (h & a' & h' & Hfh & Hfa' & Hfh' & Hh')%exact2_spec.
        assert (cost' = cost) as -> by congruence. assert (a' = a) as -> by congruence.
        unfold notional. rewrite get0_insert_eq.
        rewrite get0_insert_ne by done. rewrite get0_insert_eq.
        rewrite Hfc, Hfh, Hfq, Hfc', Hfh'. eexists _, _. split; [done|]. split; [done|].
        rewrite Hc', Hh', Hcost. ring.
      * intros v v'. unfold notional. rewrite get0_insert_eq.
        rewrite get0_insert_ne by done. rewrite get0_insert_eq.
        destruct (Fval (get0 pos "CASH")) as [C|] eqn:HC; [|done].
        destruct (Fval (get0 pos base)) as [h|] eqn:Hh; [|done].
        destruct (Fval fill_price) as [q|] eqn:Hq'; [|done].
        destruct (Fval (get0 pos "CASH" - fill_price * amount)) as [C'|] eqn:HC'; [|done].
        destruct (Fval (get0 pos base + amount)) as [h'|] eqn:Hh'; [|done].
        intros [= <-] [= <-].
        destruct (buy_drift _ _ _ _ _ _ _ _ _ HC Hh Hq' HC' Hh') as (a & c & Ha & Hc & Hb).
        by exists C, h, q, a, c.
  - apply String.eqb_neq in Hside.
    destruct (_ <? amount)%float; [done|]. injection Hap as <-.
    rewrite get0_insert_ne by done.
    split; [|split; [done|]].
    + intros k Hk1 Hk2. by rewrite !lookup_insert_ne.
    + intros _. split; [|split; [|split]].
      * rewrite lookup_insert_ne by done. by rewrite lookup_insert_eq.
      * by rewrite lookup_insert_eq.
      * intros (q & a & cost & Hfq & Hfa & Hfcost & Hcost)%exact2_spec
               (h & a' & h' & Hfh & Hfa' & Hfh' & Hh')%exact2_spec
               (c & cost' & c' & Hfc & Hfcost' & Hfc' & Hc')%exact2_spec.
        assert (cost' = cost) as -> by congruence. assert (a' = a) as -> by congruence.
        unfold notional. rewrite get0_insert_eq.
        rewrite get0_insert_ne by done. rewrite get0_insert_eq.
        rewrite Hfc, Hfh, Hfq, Hfc', Hfh'. eexists _, _. split; [done|]. split; [done|].
        rewrite Hc', Hh', Hcost. ring.
      * intros v v'. unfold notional. rewrite get0_insert_eq.
        rewrite get0_insert_ne by done. rewrite get0_insert_eq.
        destruct (Fval (get0 pos "CASH")) as [C|] eqn:HC; [|done].
        destruct (Fval (get0 pos base)) as [h|] eqn:Hh; [|done].
        destruct (Fval fill_price) as [q|] eqn:Hq'; [|done].
        destruct (Fval (get0 pos "CASH" + fill_price * amount)) as [C'|] eqn:HC'; [|done].
        destruct (Fval (get0 pos base - amount)) as [h'|] eqn:Hh'; [|done].
        intros [= <-] [= <-].
        destruct (sell_drift _ _ _ _ _ _ _ _ _ HC Hh Hq' HC' Hh') as (a & c & Ha & Hc & Hb).
        by exists C, h, q, a, c.
Qed.

(** An exact settlement: 0.125 BTC at 50000 out of 10000 in cash.  A
    settlement that rounds: 0.2 BTC at 30000 out of 10000 in cash and 0.1
    BTC held, where the value moves, by less than three parts in a
    million millions. *)
Lemma settlement_conserves_up_to_rounding_witness :
  (∃ p' v v',
     (_run_order "buy" 0.125 "agent" "2025-01-02" "market" seeded_world).1
     = Ret (Positions p')
     ∧ p' !! "CASH" = Some 3750%float ∧ p' !! "BTC" = Some 0.125%float
     ∧ notional "BTC" 50000 (opening "BTC" (<["BTC" := 0%float]> (<["CASH" := 10000%float]> ∅)))
       = Some v
     ∧ notional "BTC" 50000 p' = Some v' ∧ (v' == v)%Q)
  ∧ (∃ p' v v',
       (_run_order "buy" 0.2 "agent" "2025-01-02" "market" rounding_world).1
       = Ret (Positions p')
       ∧ notional "BTC" 30000
           (opening "BTC" (<["BTC" := 0.1%float]> (<["CASH" := 10000%float]> ∅)))
         = Some v
       ∧ notional "BTC" 30000 p' = Some v'
       ∧ ¬ (v' == v)%Q
       ∧ (Qabs (v' - v) <= 3 # 1000000000000)%Q).
Proof.
  split.
  - edestruct (settlement_conserves_up_to_rounding "buy" 0.125%float "agent" "2025-01-02"
                 "market" seeded_world) as (Hrun & _ & Hbuy & _).
    + apply not_elem_of_empty.
    + reflexivity.
    + reflexivity.
    + discriminate.
    + reflexivity.
    + destruct (Hbuy eq_refl) as (Hc & Hb & Hex & _).
      destruct Hex as (v & v' & Hv & Hv' & Heq); [reflexivity..|].
      eexists _, v, v'. split; [by rewrite Hrun|]. split; [exact Hc|]. split; [exact Hb|].
      split; [exact Hv|]. split; [exact Hv'|exact Heq].
  - edestruct (settlement_conserves_up_to_rounding "buy" 0.2%float "agent" "2025-01-02"
                 "market" rounding_world) as (Hrun & _ & Hbuy & _).
    + apply not_elem_of_empty.
    + reflexivity.
    + reflexivity.
    + discriminate.
    + reflexivity.
    + destruct (Hbuy eq_refl) as (_ & _ & _ & Hbound).
      eexists _, _, _. split; [by rewrite Hrun|].
      split; [reflexivity|]. split; [reflexivity|].
      split.
      * intros H. apply Qeq_bool_iff in H. vm_compute in H. discriminate.
      * edestruct Hbound as (C & h & q & a & c & HC & Hh & Hq & Ha & Hc & Hb);
          [reflexivity|reflexivity|].
        vm_compute in HC, Hh, Hq, Ha, Hc.
        injection HC as <-. injection Hh as <-. injection Hq as <-. injection Ha as <-.
        injection Hc as <-.
        eapply Qle_trans; [exact Hb|].
        apply Qle_bool_iff. vm_compute. reflexivity.
Defined.

(** C4, as stated, fails under rounding: buying 0.2 BTC at 30000 with
    10000 in cash and 0.1 BTC held commits, and cash plus holding valued
    at the fill price is not what it was, neither as Python would compute
    it nor as exact numbers. *)
Lemma notional_not_conserved :
  ∃ p' v v',
    let pos := opening "BTC" (<["BTC" := 0.1%float]> (<["CASH" := 10000%float]> ∅)) in
    (_run_order "buy" 0.2 "agent" "2025-01-02" "market" rounding_world).1
    = Ret (Positions p')
    ∧ (notional_float "BTC" 30000 p' =? notional_float "BTC" 30000 pos)%float = false
    ∧ notional "BTC" 30000 pos = Some v ∧ notional "BTC" 30000 p' = Some v'
    ∧ ¬ (v' == v)%Q.
Proof.
  eexists _, _, _. cbv zeta. split; [reflexivity|]. split; [reflexivity|].
  split; [reflexivity|]. split; [reflexivity|].
  intros H. apply Qeq_bool_iff in H. vm_compute in H. discriminate.
Qed.

(** *** Scenario A *)

(** C1, as the code has it.  [buy(0.1)] at fill price 50000:
    for a fresh agent (no ledger file) the position is seeded with
    [CASH = 0], so the buy is rejected with [required_cash = 5000] and
    [cash_available = 0] and no file is written; for an agent whose latest
    snapshot is [{CASH: 10000, BTC: 0}] it succeeds, returns
    [{CASH: 5000, BTC: 0.1}] and appends that snapshot under the id
    [last_id + 1]. *)
Theorem scenario_A_buy sig today w w' order last_id :
  cfg_SIGNATURE w = Some sig → sig ≠ EmptyString →
  cfg_TODAY_DATE w = Some today → today ≠ EmptyString →
  BASE_SYMBOL (env w) = "BTC" →
  sig ∉ locks w →
  quote "buy" 0.1 "market" (lock sig w) = (Ret (50000%float, order), w') →
  (files w !! sig = None →
     buy 0.1 w = (Ret (ErrInsufficientCash 5000 0), unlock sig w')
     ∧ files (unlock sig w') !! sig = None)
  ∧ (latest_of today (files w !! sig)
       = inr (<["BTC" := 0%float]> (<["CASH" := 10000%float]> ∅), last_id) →
     let p' : position := <["BTC" := 0.1%float]> (<["CASH" := 5000%float]> ∅) in
     buy 0.1 w
     = (Ret (Positions p'),
        unlock sig
          (set_IF_TRADE true
             (appended sig (trade_record today last_id "buy" "BTC" 0.1 50000 p' order) w')))).
Proof.
  intros Hs Hs' Ht Ht' Hbase Hfree Hq.
  rewrite (buy_eq 0.1%float _ _ _ Hs Hs' Ht Ht' eq_refl).
  rewrite _run_order_eq by done. cbv zeta. rewrite Hq, Hbase.
  split.
  - intros Hnone. rewrite Hnone. simpl. split; [reflexivity|].
    pose proof (keeps_books_quote "buy" 0.1%float "market" (lock sig w)) as Hb.
    rewrite Hq in Hb. destruct Hb as (_ & Hf & _). simpl in Hf.
    change (files (unlock sig w')) with (files w'). by rewrite Hf.
  - intros ->. reflexivity.
Qed.

Lemma scenario_A_buy_witness :
  ∃ w',
    buy 0.1 seeded_world
    = (Ret (Positions (<["BTC" := 0.1%float]> (<["CASH" := 5000%float]> ∅))), w')
    ∧ (List.last (rows (ledger "agent" w')) (sample_record EmptyString 0 0 0)).(rec_id) = Some 1.
Proof.
  edestruct (scenario_A_buy "agent" "2025-01-02" seeded_world) as [_ Hseeded];
    [reflexivity|discriminate|reflexivity|discriminate|reflexivity
    |apply not_elem_of_empty|reflexivity|].
  eexists. split.
  - apply Hseeded. reflexivity.
  - reflexivity.
Defined.

(** C1, as stated, fails: the fresh agent's buy does not succeed, and no
    record (with id 0 or any other) is written. *)
Lemma fresh_agent_buy_rejected :
  let out := buy 0.1 (fresh_world 50000) in
  out.1 = Ret (ErrInsufficientCash 5000 0)
  ∧ out.1 ≠ Ret (Positions (<["BTC" := 0.1%float]> (<["CASH" := 5000%float]> ∅)))
  ∧ files out.2 !! "agent" = None.
Proof. split; [reflexivity|]. split; [discriminate|reflexivity]. Qed.

(** *** Appending to the ledger *)

Lemma scan_app d l1 l2 acc :
  scan d (l1 ++ l2)%list acc
  = match scan d l1 acc with
    | inl e => inl e
    | inr acc' => scan d l2 acc'
    end.
Proof.
  revert acc. induction l1 as [|[| |r] rest IH]; intros acc; simpl; auto.
  destruct (date_is d r); [destruct (get_id r >? acc.2)|]; apply IH.
Qed.

Lemma date_is_refl d r : rec_date r = Some d → date_is d r = true.
Proof. unfold date_is. intros ->. apply String.eqb_refl. Qed.

(** After a record of the date with the next id is appended, the latest
    position of that date is the record's. *)
Lemma latest_of_snoc d file p m r :
  latest_of d file = inr (p, m) →
  rec_date r = Some d → rec_id r = Some (m + 1) →
  latest_of d (Some (default [] file ++ [Row r])%list) = inr (get_positions r, m + 1).
Proof.
  intros Hl Hd Hi. unfold latest_of in *.
  assert (get_id r = m + 1) as Hid by (unfold get_id; by rewrite Hi).
  destruct file as [L|]; simpl.
  - rewrite scan_app.
    destruct (scan d L (∅, -1)) as [e|[p1 m1]] eqn:Hs1; [done|].
    simpl. rewrite (date_is_refl _ _ Hd), Hid.
    assert (-1 <= m ∧ ((m1 >=? 0) = true → m = m1) ∧ ((m1 >=? 0) = false → m1 < 0))
      as (Hm & Hm1 & Hm1').
    { destruct (m1 >=? 0) eqn:Hge.
      - injection Hl as -> ->. apply Z.geb_le in Hge. split; [lia|]. split; [done|done].
      - destruct (get_yesterday_date d) as [e|prev]; [done|].
        apply scan_sound in Hl as (Hle & _). simpl in Hle.
        rewrite Z.geb_leb in Hge. apply Z.leb_gt in Hge. split; [lia|]. split; [done|lia]. }
    assert ((m + 1 >? m1) = true) as ->.
    { apply Z.gtb_lt. destruct (m1 >=? 0); [rewrite Hm1 by done|specialize (Hm1' eq_refl)]; lia. }
    assert ((m + 1 >=? 0) = true) as -> by (apply Z.geb_le; lia). done.
  - injection Hl as <- <-. rewrite (date_is_refl _ _ Hd), Hid. done.
Qed.

Lemma add_no_trade_record_eq today sig w :
  add_no_trade_record today sig w
  = match latest_of today (files w !! sig) with
    | inl e => (Raise e, w)
    | inr (p, m) => (Ret tt, appended sig (no_trade_record today m p) w)
    end.
Proof.
  unfold add_no_trade_record, bind. rewrite get_latest_position_eq.
  by destruct (latest_of today (files w !! sig)) as [e|[p m]].
Qed.

Lemma files_appended sig r w :
  files (appended sig r w) = <[sig := (ledger sig w ++ [Row r])%list]> (files w).
Proof. done. Qed.

Lemma ledger_appended sig r w : ledger sig (appended sig r w) = (ledger sig w ++ [Row r])%list.
Proof. unfold ledger at 1. by rewrite files_appended, lookup_insert_eq. Qed.

Lemma ledger_appended_ne sig sig' r w :
  sig ≠ sig' → ledger sig' (appended sig r w) = ledger sig' w.
Proof. intros H. unfold ledger. by rewrite files_appended, lookup_insert_ne. Qed.

(** *** No-trade records *)

(** C7.  When the latest position reads [(p, m)], calling
    [add_no_trade_record] twice in a row appends exactly two records to
    the agent's ledger, with ids [m + 1] and [m + 2]; the [positions] of
    both are [p], the snapshot that was latest before the first call.  No
    other ledger changes. *)
Theorem no_trade_twice today sig w p m :
  get_latest_position today sig w = (Ret (p, m), w) →
  ∃ w1 w2 r1 r2,
    add_no_trade_record today sig w = (Ret tt, w1)
    ∧ add_no_trade_record today sig w1 = (Ret tt, w2)
    ∧ ledger sig w2 = (ledger sig w ++ [Row r1; Row r2])%list
    ∧ rec_positions r1 = Some p ∧ rec_positions r2 = Some p
    ∧ rec_id r1 = Some (m + 1) ∧ rec_id r2 = Some (m + 2)
    ∧ rec_date r1 = Some today ∧ rec_date r2 = Some today
    ∧ ∀ sig', sig' ≠ sig → ledger sig' w2 = ledger sig' w.
Proof.
  rewrite get_latest_position_eq. intros H.
  destruct (latest_of today (files w !! sig)) as [e|[p0 m0]] eqn:Hl; [done|].
  injection H as -> ->.
  set (r1 := no_trade_record today m p).
  set (r2 := no_trade_record today (m + 1) p).
  exists (appended sig r1 w), (appended sig r2 (appended sig r1 w)), r1, r2.
  split; [by rewrite add_no_trade_record_eq, Hl|].
  split.
  { rewrite add_no_trade_record_eq, files_appended, lookup_insert_eq.
    unfold ledger.
    by rewrite (latest_of_snoc today (files w !! sig) p m r1 Hl eq_refl eq_refl). }
  split; [by rewrite !ledger_appended, <- app_assoc|].
  repeat split; try done.
  - simpl. f_equal. lia.
  - intros sig' Hne. by rewrite !ledger_appended_ne.
Qed.

Lemma no_trade_twice_witness :
  ∃ w1 w2 r1 r2,
    add_no_trade_record "2025-01-02" "agent" seeded_world = (Ret tt, w1)
    ∧ add_no_trade_record "2025-01-02" "agent" w1 = (Ret tt, w2)
    ∧ ledger "agent" w2 = (ledger "agent" seeded_world ++ [Row r1; Row r2])%list
    ∧ rec_positions r1 = Some (<["BTC" := 0%float]> (<["CASH" := 10000%float]> ∅))
    ∧ rec_positions r2 = Some (<["BTC" := 0%float]> (<["CASH" := 10000%float]> ∅))
    ∧ rec_id r1 = Some 1 ∧ rec_id r2 = Some 2.
Proof.
  destruct (no_trade_twice "2025-01-02" "agent" seeded_world
              (<["BTC" := 0%float]> (<["CASH" := 10000%float]> ∅)) 0 eq_refl)
    as (w1 & w2 & r1 & r2 & H1 & H2 & HL & Hp1 & Hp2 & Hi1 & Hi2 & _).
  exists w1, w2, r1, r2. repeat split; assumption.
Defined.

(** *** Record ids *)

Lemma rows_app l1 l2 : rows (l1 ++ l2) = (rows l1 ++ rows l2)%list.
Proof. induction l1 as [|[| |r] rest IH]; simpl; congruence. Qed.

Lemma ids_on_app d l1 l2 : ids_on d (l1 ++ l2) = (ids_on d l1 ++ ids_on d l2)%list.
Proof. unfold ids_on. by rewrite on_date_app, map_app. Qed.

Lemma ids_on_row d r : ids_on d [Row r] = if date_is d r then [get_id r] else [].
Proof. unfold ids_on, on_date. simpl. by destruct (date_is d r). Qed.

Lemma readable_app l1 l2 : readable (l1 ++ l2) = readable l1 && readable l2.
Proof. apply forallb_app. Qed.

Lemma ids_nonneg_app l1 l2 : ids_nonneg (l1 ++ l2) = ids_nonneg l1 && ids_nonneg l2.
Proof. unfold ids_nonneg. by rewrite rows_app, forallb_app. Qed.

Lemma ids_on_nonneg d lines i :
  ids_nonneg lines = true → i ∈ ids_on d lines → 0 <= i.
Proof.
  intros Hn Hi. unfold ids_on in Hi. apply list_elem_of_fmap in Hi as (r & -> & Hr).
  eapply ids_nonneg_spec; [done|]. by eapply on_date_rows.
Qed.

Lemma last_elem_of (l : list Z) x : l ≠ [] → List.last l x ∈ l.
Proof.
  induction l as [|a [|b l'] IH]; intros H; [done|left|].
  right. apply IH. done.
Qed.

Lemma last_ids_on d lines :
  ids_nonneg lines = true →
  -1 <= List.last (ids_on d lines) (-1)
  ∧ (List.last (ids_on d lines) (-1) < 0 → ids_on d lines = []).
Proof.
  intros Hn. destruct (ids_on d lines) as [|a l] eqn:E; [simpl; split; [lia|done]|].
  assert (List.last (a :: l) (-1) ∈ ids_on d lines) as Hin.
  { rewrite E. by apply last_elem_of. }
  apply (ids_on_nonneg _ _ _ Hn) in Hin. split; [lia|]. intros. lia.
Qed.

Lemma consecutive_snoc l a :
  consecutive l = true → (l = [] ∨ List.last l (-1) = a - 1) →
  consecutive (l ++ [a]) = true.
Proof.
  induction l as [|x [|y l'] IH]; intros Hc Hl; [done| |].
  - simpl in *. destruct Hl as [|Hl]; [done|]. rewrite andb_true_r. apply Z.eqb_eq. lia.
  - change (consecutive ((x :: y :: l') ++ [a])) with
      ((y =? x + 1) && consecutive ((y :: l') ++ [a])).
    change (consecutive (x :: y :: l')) with ((y =? x + 1) && consecutive (y :: l')) in Hc.
    apply andb_true_iff in Hc as [-> Hc]. simpl andb. apply IH; [done|].
    right. destruct Hl as [|Hl]; [done|]. exact Hl.
Qed.

Lemma first_id_ok_snoc d L x :
  first_id_ok d L → ids_on d L ≠ [] ∨ ids_on d [x] = [] → first_id_ok d (L ++ [x]).
Proof.
  intros Hok Hc i rest Hids. rewrite ids_on_app in Hids.
  assert (∃ rest', ids_on d L = i :: rest') as [rest' Hi].
  { destruct Hc as [Hne|He].
    - destruct (ids_on d L) as [|i0 r0]; [done|]. injection Hids as -> _. by exists r0.
    - rewrite He, app_nil_r in Hids. by exists rest. }
  destruct (Hok i rest' Hi) as (before & after & r & -> & Hb & Hd & Hr & Hfirst).
  exists before, (after ++ [x])%list, r. split; [by rewrite <- app_assoc|]. done.
Qed.

(** What holds of a chained ledger: it can be read, its ids are not
    negative, the ids of each date are consecutive, the reading loop ends
    on the last id of the date, and each date starts at 0 or continues
    the day before. *)
Lemma chained_facts L :
  chained L →
  readable L = true ∧ ids_nonneg L = true
  ∧ ∀ d, consecutive (ids_on d L) = true
         ∧ (∃ p, scan d L (∅, -1) = inr (p, List.last (ids_on d L) (-1)))
         ∧ first_id_ok d L.
Proof.
  induction 1 as [|L HL (Hr & Hn & IH)|L r d0 p m HL (Hr & Hn & IH) Hd Hi Hlat].
  - repeat split; try done. by exists ∅.
  - rewrite readable_app, ids_nonneg_app, Hr, Hn. repeat split; try done.
    + rewrite ids_on_app. simpl. rewrite app_nil_r. apply IH.
    + rewrite ids_on_app, scan_app. simpl. rewrite app_nil_r.
      destruct (IH d) as (_ & (q & ->) & _). by exists q.
    + apply first_id_ok_snoc; [apply IH|by right].
  - (* what the answer [m] was *)
    assert (-1 <= m
            ∧ (ids_on d0 L ≠ [] → m = List.last (ids_on d0 L) (-1))
            ∧ (ids_on d0 L = [] →
               m = -1 ∨ ∃ prev, get_yesterday_date d0 = inr prev ∧ m ∈ ids_on prev L
                                ∧ ∀ k, k ∈ ids_on prev L → k <= m))
      as (Hm & Hm_today & Hm_prev).
    { destruct Hlat as [Hlat|[-> ->]].
      2:{ split; [lia|]. split; [done|by left]. }
      unfold latest_of in Hlat.
      destruct (IH d0) as (_ & (p1 & Hs1) & _). rewrite Hs1 in Hlat.
      destruct (last_ids_on d0 L Hn) as [Hge Hempty].
      destruct (List.last (ids_on d0 L) (-1) >=? 0) eqn:Hge0.
      - injection Hlat as <- <-. split; [lia|]. split; [done|].
        intros He. rewrite He in Hge0. done.
      - rewrite Z.geb_leb in Hge0. apply Z.leb_gt in Hge0.
        destruct (get_yesterday_date d0) as [e|prev] eqn:Hy; [done|].
        destruct (IH prev) as (_ & (p2 & Hs2) & _). rewrite Hs2 in Hlat.
        injection Hlat as <- <-.
        destruct (last_ids_on prev L Hn) as [Hge' Hempty'].
        split; [lia|]. split; [intros Hne; by destruct (Hne (Hempty Hge0))|].
        intros _.
        assert (∀ k, k ∈ ids_on prev L → k <= List.last (ids_on prev L) (-1)) as Hub.
        { intros k Hk. apply scan_sound in Hs2 as (_ & Hub & _). simpl in Hub.
          unfold ids_on in Hk. apply list_elem_of_fmap in Hk as (r' & -> & Hr').
          by apply Hub. }
        destruct (decide (ids_on prev L = [])) as [E|E]; [left; by rewrite E|right].
        exists prev. split; [done|]. split; [by apply last_elem_of|done]. }
    assert (get_id r = m + 1) as Hid by (unfold get_id; by rewrite Hi).
    rewrite readable_app, ids_nonneg_app, Hr, Hn. split; [done|]. split.
    { unfold ids_nonneg. simpl. rewrite Hi. rewrite andb_true_r. apply Z.leb_le. lia. }
    intros d. destruct (IH d) as (Hc & (q & Hs) & Hok).
    destruct (String.eqb_spec d0 d) as [<-|Hne].
    + (* the date of the new record *)
      rewrite ids_on_app, ids_on_row, scan_app, Hs, (date_is_refl _ _ Hd). simpl.
      rewrite (date_is_refl _ _ Hd), Hid.
      destruct (last_ids_on d0 L Hn) as [Hge Hempty].
      assert (List.last (ids_on d0 L) (-1) < m + 1) as Hlt.
      { destruct (ids_on d0 L) as [|a l] eqn:E; [simpl; lia|].
        rewrite <- Hm_today by done. lia. }
      split; [|split].
      * apply consecutive_snoc; [done|].
        destruct (ids_on d0 L) as [|a l] eqn:E; [by left|right].
        rewrite <- Hm_today by done. lia.
      * exists (get_positions r).
        apply Z.gtb_lt in Hlt. rewrite Hlt. by rewrite last_last.
      * destruct (ids_on d0 L) as [|a l] eqn:E.
        -- intros i rest. rewrite ids_on_app, ids_on_row, E, (date_is_refl _ _ Hd), Hid.
           simpl. intros [= <- <-].
           exists L, [], r. split; [done|]. split; [done|].
           split; [by apply date_is_refl|]. split; [done|].
           destruct (Hm_prev eq_refl) as [->|(prev & Hy & Hin & Hub)]; [by left|right].
           exists prev. replace (m + 1 - 1) with m by lia. done.
        -- apply first_id_ok_snoc; [done|left]. by rewrite E.
    + (* another date *)
      assert (date_is d r = false) as Hdr.
      { unfold date_is. rewrite Hd. by apply String.eqb_neq. }
      rewrite ids_on_app, ids_on_row, scan_app, Hs, Hdr, app_nil_r. simpl. rewrite Hdr.
      split; [done|]. split; [by exists q|].
      apply first_id_ok_snoc; [done|right]. by rewrite ids_on_row, Hdr.
Qed.

Lemma _run_order_step side amount sig today ot w :
  files (_run_order side amount sig today ot w).2 = files w
  ∨ appended_next w (_run_order side amount sig today ot w).2.
Proof.
  destruct (decide (sig ∈ locks w)) as [Hheld|Hfree].
  { left. unfold _run_order. rewrite _position_lock_eq. by rewrite bool_decide_eq_true_2. }
  rewrite _run_order_eq by done.
  destruct (latest_of today (files w !! sig)) as [e|[p last_id]] eqn:Hl; [by left|].
  cbv zeta.
  pose proof (keeps_books_quote side amount ot (lock sig w)) as Hb.
  destruct (quote side amount ot (lock sig w)) as [[[fp order]| |] w'];
    destruct Hb as (_ & Hf & _); simpl in Hf; [|by left..].
  destruct (apply_side _ _ _ _ _) as [err|p']; [by left|].
  right. exists sig, (trade_record today last_id side (BASE_SYMBOL (env w)) amount fp p' order),
    today, p, last_id.
  split; [|split; [done|split; [done|]]].
  - simpl. unfold ledger. by rewrite Hf.
  - by rewrite get_latest_position_eq, Hl.
Qed.

Lemma add_no_trade_record_step today sig w :
  files (add_no_trade_record today sig w).2 = files w
  ∨ appended_next w (add_no_trade_record today sig w).2.
Proof.
  rewrite add_no_trade_record_eq.
  destruct (latest_of today (files w !! sig)) as [e|[p m]] eqn:Hl; [by left|].
  right. exists sig, (no_trade_record today m p), today, p, m.
  split; [done|]. split; [done|]. split; [done|].
  by rewrite get_latest_position_eq, Hl.
Qed.

(** Every step leaves the ledger files alone or appends one record,
    numbered [last_id + 1] from the latest position before the step. *)
Lemma exec_step o w : files (exec o w) = files w ∨ appended_next w (exec o w).
Proof.
  destruct o as [amount|amount|today sig|sig today|sig today]; simpl.
  - unfold buy, bind, gets.
    destruct (unset (cfg_SIGNATURE w) || unset (cfg_TODAY_DATE w)); [by left|].
    destruct (amount <=? 0)%float; [by left|]. apply _run_order_step.
  - unfold sell, bind, gets.
    destruct (unset (cfg_SIGNATURE w) || unset (cfg_TODAY_DATE w)); [by left|].
    destruct (amount <=? 0)%float; [by left|]. apply _run_order_step.
  - apply add_no_trade_record_step.
  - unfold _handle_trading_result, bind, gets.
    destruct (cfg_IF_TRADE w); [by left|]. apply add_no_trade_record_step.
  - by left.
Qed.

Lemma chained_step w w' :
  (∀ sig, chained (ledger sig w)) →
  files w' = files w ∨ appended_next w w' →
  ∀ sig, chained (ledger sig w').
Proof.
  intros Hw [Hf|(sig0 & r & d & p & m & Hf & Hd & Hi & Hl)] sig; unfold ledger at 1; rewrite Hf.
  { apply Hw. }
  destruct (decide (sig0 = sig)) as [<-|Hne].
  2:{ rewrite lookup_insert_ne by done. apply Hw. }
  rewrite lookup_insert_eq. simpl.
  apply (chained_row _ r d p m); [apply Hw|done|done|].
  rewrite get_latest_position_eq in Hl. unfold ledger.
  destruct (files w !! sig0) as [L|].
  - left. change (default [] (Some L)) with L.
    destruct (latest_of d (Some L)) as [e|res]; [discriminate|].
    by injection Hl as ->.
  - right. simpl in Hl. by injection Hl as _ <-.
Qed.

Lemma chained_run ops w :
  (∀ sig, chained (ledger sig w)) → ∀ sig, chained (ledger sig (run ops w)).
Proof.
  revert w. induction ops as [|o ops IH]; intros w Hw; [done|].
  simpl. apply IH. apply (chained_step w); [done|apply exec_step].
Qed.

(** X22.  Operations that run one after another number the records
    without gaps.  Every step of the system (a buy, a sell, a no-trade
    record, the end of a session, a change of agent or date) leaves the ledger
    files alone or appends one record whose id is the [last_id] that
    [get_latest_position] returned for the record's agent and date just
    before, plus one.  Hence along every run, from ledgers numbered that
    way (in particular from no ledger at all), each agent's ledger stays
    numbered that way, and for every date the ids of the records of that
    date, in file order, are non-negative and consecutive (strictly
    increasing, no gap); the first of them is 0, or one more than the
    largest id that the day before had when that record was written. *)
Theorem ids_gap_free :
  (∀ o w, files (exec o w) = files w ∨ appended_next w (exec o w))
  ∧ ∀ ops w,
      (∀ sig, chained (ledger sig w)) →
      ∀ sig,
        chained (ledger sig (run ops w))
        ∧ ids_nonneg (ledger sig (run ops w)) = true
        ∧ ∀ d, consecutive (ids_on d (ledger sig (run ops w))) = true
               ∧ first_id_ok d (ledger sig (run ops w)).
Proof.
  split; [apply exec_step|]. intros ops w Hw sig.
  pose proof (chained_run ops w Hw sig) as Hc. split; [done|].
  destruct (chained_facts _ Hc) as (_ & Hn & Hd). split; [done|].
  intros d. destruct (Hd d) as (Hcons & _ & Hfirst). by split.
Qed.

Lemma ids_gap_free_witness :
  ids_on "2025-01-02" (ledger "agent" (run sample_session seeded_world)) = [1; 2; 3]
  ∧ consecutive (ids_on "2025-01-02" (ledger "agent" (run sample_session seeded_world))) = true
  ∧ first_id_ok "2025-01-02" (ledger "agent" (run sample_session seeded_world)).
Proof.
  split; [reflexivity|].
  destruct ids_gap_free as [_ H].
  destruct (H sample_session seeded_world) with (sig := "agent") as (_ & _ & Hd).
  - intros sig. unfold ledger, seeded_world, with_ledger. simpl.
    destruct (decide ("agent" = sig)) as [<-|Hne].
    + rewrite lookup_insert_eq. simpl.
      apply (chained_row [] _ "2025-01-01" ∅ (-1)); [constructor|done|done|by right].
    + rewrite lookup_insert_ne by done. constructor.
  - exact (Hd "2025-01-02").
Defined.

(** C6, at a failing input.  The ledger of the agent holds one record,
    of 2025-01-01, with id 0.  On 2025-01-02 a buy of 0.1 has taken the
    lock and has read the latest position, so that its record will carry
    the id 1, when the session ends and [_handle_trading_result] finds no
    trade recorded yet.  Another call of [_run_order] would wait for the
    lock at this point, but [add_no_trade_record] does not take it: it
    reads the same latest position and appends its record under the id 1.
    The buy then appends its own record under the id 1 as well, although
    the latest id of the date is 1 by then: the ids of 2025-01-02 are 1
    and 1, and [get_latest_position] keeps answering the positions from
    before the buy. *)
Theorem no_trade_race_repeats_id :
  let rq := Request "buy" 0.1 "market" in
  let p0 : position := <["BTC" := 0%float]> (<["CASH" := 10000%float]> ∅) in
  let p1 : position := <["BTC" := 0.1%float]> (<["CASH" := 5000%float]> ∅) in
  let w1 := lock "agent" seeded_world in
  let w2 := appended "agent" (no_trade_record "2025-01-02" 0 p0) w1 in
  ∃ w3,
    run_schedule "agent" "2025-01-02" [0; 0]%nat (start seeded_world [rq])
    = Some (System w1 [(rq, Loaded p0 0)])
    ∧ _run_order "sell" 0.1 "agent" "2025-01-02" "market" w1 = (Blocked, w1)
    ∧ _handle_trading_result "agent" "2025-01-02" w1 = (Ret tt, w2)
    ∧ ids_on "2025-01-02" (ledger "agent" w2) = [1]
    ∧ get_latest_position "2025-01-02" "agent" w2 = (Ret (p0, 1), w2)
    ∧ run_schedule "agent" "2025-01-02" [0; 0; 0]%nat (System w2 [(rq, Loaded p0 0)])
      = Some (System w3 [(rq, Returned (Ret (Positions p1)))])
    ∧ ids_on "2025-01-02" (ledger "agent" w3) = [1; 1]
    ∧ consecutive (ids_on "2025-01-02" (ledger "agent" w3)) = false
    ∧ get_latest_position "2025-01-02" "agent" w3 = (Ret (p0, 1), w3).
Proof.
  cbv zeta. eexists.
  split; [vm_compute; reflexivity|].
  split; [vm_compute; reflexivity|].
  split; [vm_compute; reflexivity|].
  split; [vm_compute; reflexivity|].
  split; [vm_compute; reflexivity|].
  split; [vm_compute; reflexivity|].
  split; [vm_compute; reflexivity|].
  split; vm_compute; reflexivity.
Qed.

(** *** The exchange gateway *)

Lemma paper_execute_order_steps side amount symbol ot mode w :
  lower (str_or mode (DEFAULT_MODE (env w))) ≠ "live" →
  ∀ px w1,
    get_last_price (Some (upper (str_or symbol (DEFAULT_PAIR (env w)))))
      (Some (lower (str_or mode (DEFAULT_MODE (env w))))) w = (Ret px, w1) →
    execute_order side amount symbol ot None mode w
    = (Ret (Fill "paper" (upper (str_or symbol (DEFAULT_PAIR (env w)))) side amount
              (Some px) (Some ot) (Some (clock (env w1) (ticks w1))) None),
       set_ticks (S (ticks w1)) w1).
Proof.
  intros Hmode px w1 Hpx. apply String.eqb_neq in Hmode.
  unfold execute_order. unfold bind at 1. unfold gets at 1.
  rewrite (bind_Ret _ _ _ _ _ Hpx).
  rewrite Hmode. by unfold bind, time_time, ret.
Qed.

(** C8, as the code has it.  In paper mode [execute_order] submits no
    order.  Given an explicit price it consults neither the venue nor the
    ticker cache: it reads the clock once and returns the paper fill with
    that price and that reading as timestamp.  Two calls with the same
    arguments therefore return records that agree in every field but
    [timestamp], and are equal when the clock readings are.  Without an
    explicit price the fill price is what [get_last_price] returns. *)
Theorem paper_execute_order side amount symbol ot mode w :
  lower (str_or mode (DEFAULT_MODE (env w))) ≠ "live" →
  let pair := upper (str_or symbol (DEFAULT_PAIR (env w))) in
  let trade_mode := lower (str_or mode (DEFAULT_MODE (env w))) in
  (∀ price,
     ∃ r1 r2 w1 w2,
       execute_order side amount symbol ot (Some price) mode w = (Ret r1, w1)
       ∧ execute_order side amount symbol ot (Some price) mode w1 = (Ret r2, w2)
       ∧ r1 = Fill "paper" pair side amount (Some price) (Some ot)
                (Some (clock (env w) (ticks w))) None
       ∧ r2 = with_timestamp (Some (clock (env w) (S (ticks w)))) r1
       ∧ calls w2 = calls w ∧ TICKER_CACHE w2 = TICKER_CACHE w
       ∧ w2 = set_ticks (S (S (ticks w))) w
       ∧ (clock (env w) (ticks w) = clock (env w) (S (ticks w)) → r1 = r2))
  ∧ (∀ px w1,
       get_last_price (Some pair) (Some trade_mode) w = (Ret px, w1) →
       execute_order side amount symbol ot None mode w
       = (Ret (Fill "paper" pair side amount (Some px) (Some ot)
                 (Some (clock (env w1) (ticks w1))) None),
          set_ticks (S (ticks w1)) w1)).
Proof.
  intros Hmode pair trade_mode. split.
  - intros price. apply String.eqb_neq in Hmode.
    eexists _, _, _, _. split; [|split; [|split; [reflexivity|]]].
    + unfold execute_order, bind, gets, ret, time_time. simpl. by rewrite Hmode.
    + unfold execute_order, bind, gets, ret, time_time. simpl. by rewrite Hmode.
    + split; [reflexivity|]. split; [reflexivity|]. split; [reflexivity|].
      split; [reflexivity|]. unfold with_timestamp. simpl. by intros ->.
  - intros px w1 Hpx. by apply paper_execute_order_steps.
Qed.

Lemma paper_execute_order_witness :
  (∃ r1 r2 w1 w2,
     execute_order "buy" 1 None "market" (Some 30000%float) None (fresh_world 30000)
     = (Ret r1, w1)
     ∧ execute_order "buy" 1 None "market" (Some 30000%float) None w1 = (Ret r2, w2)
     ∧ r1 = Fill "paper" "BTC/USDT" "buy" 1 (Some 30000%float) (Some "market")
              (Some 1000%float) None
     ∧ r1 = r2 ∧ calls w2 = 0%nat)
  ∧ (execute_order "buy" 1 None "market" None None (fresh_world 30000)).1
    = Ret (Fill "paper" "BTC/USDT" "buy" 1 (Some 30000%float) (Some "market")
             (Some 1000%float) None).
Proof.
  destruct (paper_execute_order "buy" 1%float None "market" None (fresh_world 30000))
    as [Hprice Hlast]; [discriminate|].
  split.
  - destruct (Hprice 30000%float) as (r1 & r2 & w1 & w2 & H1 & H2 & Hr1 & _ & Hc & _ & _ & Heq).
    exists r1, r2, w1, w2. split; [exact H1|]. split; [exact H2|]. split; [exact Hr1|].
    split; [apply Heq; reflexivity|exact Hc].
  - pose proof (Hlast 30000%float _ eq_refl) as H. rewrite H. reflexivity.
Defined.

(** C8, as stated, fails: two paper executions with the same side,
    amount, symbol, order type and explicit price, one second apart,
    return different records. *)
Lemma paper_fills_differ_in_timestamp :
  ∃ r1 w1 r2 w2,
    execute_order "buy" 1 None "market" (Some 30000%float) None ticking_world = (Ret r1, w1)
    ∧ execute_order "buy" 1 None "market" (Some 30000%float) None w1 = (Ret r2, w2)
    ∧ r1 ≠ r2.
Proof.
  exists (Fill "paper" "BTC/USDT" "buy" 1 (Some 30000%float) (Some "market")
            (Some 1000%float) None), (set_ticks 1 ticking_world),
         (Fill "paper" "BTC/USDT" "buy" 1 (Some 30000%float) (Some "market")
            (Some 1001%float) None), (set_ticks 2 ticking_world).
  split; [reflexivity|]. split; [reflexivity|].
  intros H. apply (f_equal fill_timestamp) in H. simpl in H.
  apply (f_equal (fun t => match t with Some x => (x <? 1001)%float | None => false end)) in H.
  vm_compute in H. discriminate.
Qed.

(** Scenario D needs a ticker: without an explicit price and with
    nothing cached, the paper execution asks the venue for one. *)
Example paper_execute_order_fetches_ticker :
  calls (execute_order "buy" 1 None "market" None None (fresh_world 30000)).2 = 1%nat.
Proof. reflexivity. Qed.

(** C10, as the code has it.  [get_last_price] settles on [last] when it
    is truthy, else on [close] when that is truthy, else on
    [info.lastPrice] whatever it is.  A falsy [last] or [close] (0, 0.0,
    [None], an empty string, or a missing key) is treated like a missing
    one, so a zero in the primary field is never what is returned.  The
    third field is only tested against [None]: the no-price error is
    raised exactly when [last] and [close] are falsy or missing and
    [info.lastPrice] is [None] or missing; a falsy [info.lastPrice] that
    is a number is returned as it is (0 gives 0.0), and a string goes
    through [float()]. *)
Theorem get_last_price_fallback symbol mode w t w' :
  fetch_ticker symbol mode w = (Ret t, w') →
  let last := dict_get (t_last t) in
  let close := dict_get (t_close t) in
  let lastPrice := info_lastPrice t in
  let out := get_last_price symbol mode w in
  out.2 = w'
  ∧ chosen_price t
    = (if truthy last then last else if truthy close then close else lastPrice)
  ∧ (out.1 = Raise NoLastPrice
     ↔ truthy last = false ∧ truthy close = false ∧ lastPrice = PyNone)
  ∧ (∀ x, chosen_price t = PyNum x → out.1 = Ret x)
  ∧ (∀ s, chosen_price t = PyStr s →
       out.1 = match str_to_float (env w') s with
               | Some x => Ret x
               | None => Raise ValueError
               end)
  ∧ (truthy last = false → truthy close = false →
     ∀ x, lastPrice = PyNum x → out.1 = Ret x).
Proof.
  intros Hft last close lastPrice out.
  assert (chosen_price t
          = (if truthy last then last else if truthy close then close else lastPrice))
    as Hchosen.
  { unfold chosen_price, py_or. fold last close lastPrice.
    destruct (truthy last) eqn:Hl; [by rewrite Hl|]. by destruct (truthy close) eqn:Hc. }
  assert (out = match chosen_price t with
                | PyNone => (Raise NoLastPrice, w')
                | PyNum x => (Ret x, w')
                | PyStr s => (match str_to_float (env w') s with
                              | Some x => Ret x
                              | None => Raise ValueError
                              end, w')
                end) as Hout.
  { unfold out, get_last_price. rewrite (bind_Ret _ _ _ _ _ Hft). fold (chosen_price t).
    destruct (chosen_price t) as [|x|s]; [done|done|].
    unfold bind, gets, ret, raise. by destruct (str_to_float (env w') s). }
  split; [rewrite Hout; by destruct (chosen_price t)|].
  split; [done|]. split; [|split; [|split]].
  - rewrite Hout, Hchosen. split.
    + destruct (truthy last) eqn:Hl.
      { destruct last as [|x|s]; [done|done|].
        simpl. by destruct (str_to_float (env w') s). }
      destruct (truthy close) eqn:Hc.
      { destruct close as [|x|s]; [done|done|].
        simpl. by destruct (str_to_float (env w') s). }
      destruct lastPrice as [|x|s]; [done|done|].
      simpl. by destruct (str_to_float (env w') s).
    + intros (-> & -> & ->). done.
  - intros x Hx. by rewrite Hout, Hx.
  - intros s Hs. by rewrite Hout, Hs.
  - intros Hl Hc x Hx. by rewrite Hout, Hchosen, Hl, Hc, Hx.
Qed.

Lemma get_last_price_fallback_witness :
  (get_last_price None None (fresh_world 30000)).1 = Ret 30000%float.
Proof.
  destruct (get_last_price_fallback None None (fresh_world 30000) (ticker_last 30000) _ eq_refl)
    as (_ & _ & _ & Hnum & _).
  apply Hnum. reflexivity.
Defined.

(** C10, as stated, fails: all three fields are falsy or missing, and
    yet no error is raised; the zero of [info.lastPrice] is returned. *)
Lemma zero_last_price_returned :
  ∃ w',
    fetch_ticker None None zero_world = (Ret zero_ticker, w')
    ∧ truthy (dict_get (t_last zero_ticker)) = false
    ∧ truthy (dict_get (t_close zero_ticker)) = false
    ∧ truthy (info_lastPrice zero_ticker) = false
    ∧ get_last_price None None zero_world = (Ret 0%float, w').
Proof. exists (fetch_ticker None None zero_world).2. repeat split. Qed.

(** *** Concurrent settlements *)

(** A call that starts with the lock free and is never interrupted is
    [_run_order]. *)
Lemma finish_waiting sig today rq w :
  sig ∉ locks w →
  finish sig today rq Waiting w
  = _run_order (req_side rq) (req_amount rq) sig today (req_order_type rq) w.
Proof.
  intros Hfree. rewrite _run_order_eq by done. simpl. unfold finish_entered.
  change (files (lock sig w)) with (files w).
  destruct (latest_of today (files w !! sig)) as [e|[p l]]; [by rewrite unlock_lock|].
  cbv zeta. unfold finish_loaded.
  pose proof (keeps_books_quote (req_side rq) (req_amount rq) (req_order_type rq) (lock sig w))
    as Hb.
  destruct (quote _ _ _ (lock sig w)) as [[[fp order]| |] w']; [|done..].
  destruct Hb as (He & _). simpl in He.
  unfold finish_quoted, settle_step. rewrite He.
  change (env (lock sig w)) with (env w).
  by destruct (apply_side _ _ _ _ _).
Qed.

(** The statements of a call, run one after the other with no other call
    in between, are [_run_order]: in every world they end with the reply
    and in the world of [_run_order], and where [_run_order] waits for the
    lock they do not get past [__enter__]. *)
Lemma call_alone_eq sig today rq w :
  call_alone sig today rq w
  = _run_order (req_side rq) (req_amount rq) sig today (req_order_type rq) w.
Proof.
  destruct (decide (sig ∈ locks w)) as [Hheld|Hfree].
  { rewrite _run_order_held by done. unfold call_alone. cbn [run_alone advance].
    unfold _Lock__enter__. by rewrite bool_decide_eq_true_2. }
  rewrite <- finish_waiting by done.
  unfold call_alone. cbn [run_alone advance]. unfold _Lock__enter__.
  rewrite bool_decide_eq_false_2 by done. fold (lock sig w).
  cbn [advance]. rewrite get_latest_position_eq.
  cbn [finish]. unfold finish_entered.
  destruct (latest_of today (files (lock sig w) !! sig)) as [e|[p l]]; [done|].
  cbn [advance]. unfold finish_loaded.
  destruct (quote _ _ _ (lock sig w)) as [[[fp order]| |] w1]; [|done..].
  cbn [advance]. unfold finish_quoted.
  by destruct (settle_step _ _ _ _ _ _ _ _) as [r w2].
Qed.

(** Advancing inside the [with] block does not change how the call will
    end. *)
Lemma finish_advance sig today rq s w s' w' :
  in_critical_section s = true →
  advance sig today rq s w = Some (s', w') →
  finish sig today rq s' w' = finish sig today rq s w.
Proof.
  destruct s as [| |p l|p l fp order|r|r]; try done; intros _; cbn [advance finish].
  - unfold finish_entered. rewrite get_latest_position_eq.
    destruct (latest_of today (files w !! sig)) as [e|[p l]]; by intros [= <- <-].
  - unfold finish_loaded.
    destruct (quote _ _ _ w) as [[[fp order]| |] w1]; by intros [= <- <-].
  - unfold finish_quoted.
    destruct (settle_step _ _ _ _ _ _ _ _) as [r w1]. by intros [= <- <-].
  - by intros [= <- <-].
Qed.

(** Inside the [with] block the lock stays held until [__exit__]. *)
Lemma advance_keeps_lock sig today rq s w s' w' :
  in_critical_section s = true →
  advance sig today rq s w = Some (s', w') →
  in_critical_section s' = true →
  locks w' = locks w.
Proof.
  destruct s as [| |p l|p l fp order|r|r]; try done; intros _; cbn [advance].
  - rewrite get_latest_position_eq.
    destruct (latest_of today (files w !! sig)) as [e|[p l]]; by intros [= <- <-].
  - pose proof (keeps_books_quote (req_side rq) (req_amount rq) (req_order_type rq) w) as Hb.
    destruct (quote _ _ _ w) as [[[fp order]| |] w1]; destruct Hb as (_ & _ & Hl & _);
      by intros [= <- <-].
  - unfold settle_step. destruct (apply_side _ _ _ _ _); by intros [= <- <-].
  - by intros [= <- <-].
Qed.

Lemma _run_order_releases side amount sig today ot w :
  sig ∉ locks w → sig ∉ locks (_run_order side amount sig today ot w).2.
Proof.
  intros Hfree. rewrite _run_order_eq by done.
  assert (∀ v, sig ∉ locks (unlock sig v)) as Hun.
  { intros v. change (locks (unlock sig v)) with (locks v ∖ {[sig]}).
    rewrite elem_of_difference, elem_of_singleton. tauto. }
  destruct (latest_of today (files w !! sig)) as [e|[p l]]; [done|]. cbv zeta.
  destruct (quote _ _ _ _) as [[[fp order]| |] w']; try apply Hun.
  destruct (apply_side _ _ _ _ _); apply Hun.
Qed.

Lemma lookup_insert_thread (ths : list (request * stage)) i j x y :
  <[i := x]> ths !! j = Some y → (j = i ∧ y = x) ∨ (j ≠ i ∧ ths !! j = Some y).
Proof.
  intros H. destruct (decide (j = i)) as [->|Hne].
  - left. split; [done|].
    destruct (decide (i < length ths)%nat) as [Hlt|Hge].
    + rewrite list_lookup_insert_eq in H by done. congruence.
    + rewrite list_insert_ge in H by lia. apply lookup_lt_Some in H. lia.
  - right. split; [done|]. by rewrite list_lookup_insert_ne in H.
Qed.

(** From a quiescent state the only possible step is a waiting call
    taking the lock. *)
Lemma step_from_quiescent sig today i sys sys' :
  quiescent sig sys → sys_step sig today i sys = Some sys' →
  ∃ rq, threads sys !! i = Some (rq, Waiting)
        ∧ sys' = System (lock sig (shared sys)) (<[i := (rq, Entered)]> (threads sys))
        ∧ holds sig i sys'.
Proof.
  intros [Hfree Hout]. unfold sys_step.
  destruct (threads sys !! i) as [[rq s]|] eqn:Hi; [|done].
  specialize (Hout i rq s Hi) as Hs.
  destruct s; try done; cbn [advance]. unfold _Lock__enter__.
  rewrite bool_decide_eq_false_2 by done. intros [= <-].
  exists rq. split; [done|]. split; [done|].
  split; [|split].
  - simpl. apply elem_of_union. left. by apply elem_of_singleton.
  - exists rq, Entered. split; [|done]. simpl.
    apply list_lookup_insert_eq. by apply lookup_lt_Some in Hi.
  - simpl. intros j rq' s' Hj Hne.
    rewrite list_lookup_insert_ne in Hj by done. by eapply Hout.
Qed.

(** While a call holds the lock, only that call can move; it stays
    alone inside the [with] block until it returns, and then the state is
    quiescent again. *)
Lemma step_from_holds sig today i j sys sys' :
  holds sig i sys → sys_step sig today j sys = Some sys' →
  j = i
  ∧ ∃ rq s s' w',
      threads sys !! i = Some (rq, s) ∧ in_critical_section s = true
      ∧ advance sig today rq s (shared sys) = Some (s', w')
      ∧ sys' = System w' (<[i := (rq, s')]> (threads sys))
      ∧ (in_critical_section s' = true → holds sig i sys')
      ∧ (in_critical_section s' = false →
         quiescent sig sys' ∧ (s', w') = (Returned (finish sig today rq s (shared sys)).1,
                                          (finish sig today rq s (shared sys)).2)).
Proof.
  intros (Hheld & (rq & s & Hi & Hs) & Hothers). unfold sys_step.
  destruct (threads sys !! j) as [[rqj sj]|] eqn:Hj; [|done].
  destruct (decide (j = i)) as [->|Hne].
  2:{ specialize (Hothers j rqj sj Hj Hne). destruct sj; try done; cbn [advance].
      unfold _Lock__enter__. by rewrite bool_decide_eq_true_2. }
  rewrite Hi in Hj. injection Hj as <- <-.
  destruct (advance sig today rq s (shared sys)) as [[s' w']|] eqn:Hadv; [|done].
  intros [= <-]. split; [done|]. exists rq, s, s', w'.
  split; [done|]. split; [done|]. split; [done|]. split; [done|].
  assert (∀ k rq' s0, <[i := (rq, s')]> (threads sys) !! k = Some (rq', s0) → k ≠ i →
            in_critical_section s0 = false) as Hothers'.
  { intros k rq' s0 Hk Hki. rewrite list_lookup_insert_ne in Hk by done. by eapply Hothers. }
  split.
  - intros Hs'. split; [|split].
    + simpl. by rewrite (advance_keeps_lock _ _ _ _ _ _ _ Hs Hadv Hs').
    + exists rq, s'. split; [|done]. simpl.
      apply list_lookup_insert_eq. by apply lookup_lt_Some in Hi.
    + exact Hothers'.
  - intros Hs'.
    assert (∃ r, s = Leaving r) as [r ->].
    { destruct s as [| |p l|p l fp order|r|r]; try done; cbn [advance] in Hadv.
      - rewrite get_latest_position_eq in Hadv.
        destruct (latest_of today _) as [e|[p l]]; injection Hadv as <- <-; done.
      - destruct (quote _ _ _ _) as [[[fp order]| |] w1]; injection Hadv as <- <-; done.
      - destruct (settle_step _ _ _ _ _ _ _ _). injection Hadv as <- <-. done.
      - by exists r. }
    cbn [advance] in Hadv. injection Hadv as <- <-. split; [|done].
    split.
    + simpl. rewrite elem_of_difference, elem_of_singleton. tauto.
    + simpl. intros k rq' s0 Hk.
      apply lookup_insert_thread in Hk as [[-> [= -> ->]]|[Hki Hk]]; [done|].
      by eapply Hothers.
Qed.

(** Mutual exclusion: in every state an interleaving can reach, either
    nobody is inside the [with] block or exactly one call is. *)
Lemma run_schedule_mutex sig today sched sys sys' :
  quiescent sig sys ∨ (∃ i, holds sig i sys) →
  run_schedule sig today sched sys = Some sys' →
  quiescent sig sys' ∨ (∃ i, holds sig i sys').
Proof.
  revert sys. induction sched as [|j rest IH]; intros sys Hm; simpl.
  { by intros [= <-]. }
  destruct (sys_step sig today j sys) as [sys1|] eqn:Hstep; [|done].
  apply IH. destruct Hm as [Hq|[i Hh]].
  - destruct (step_from_quiescent _ _ _ _ _ Hq Hstep) as (rq & _ & _ & Hh). right. by exists j.
  - destruct (step_from_holds _ _ _ _ _ _ Hh Hstep)
      as (-> & rq & s & s' & w' & _ & _ & _ & _ & Hin & Hout).
    destruct (in_critical_section s') eqn:Hs'.
    + right. exists i. by apply Hin.
    + left. by apply Hout.
Qed.

(** The call that holds the lock runs to its end before anything else
    happens: the rest of the interleaving continues from the state in
    which that call has finished on its own. *)
Lemma holds_run sig today sched sys sys' i rq s :
  holds sig i sys → threads sys !! i = Some (rq, s) →
  run_schedule sig today sched sys = Some sys' → all_returned sys' →
  let done_ := System (finish sig today rq s (shared sys)).2
                 (<[i := (rq, Returned (finish sig today rq s (shared sys)).1)]> (threads sys)) in
  ∃ rest, (length rest < length sched)%nat
          ∧ run_schedule sig today rest done_ = Some sys'
          ∧ quiescent sig done_.
Proof.
  revert sys s. induction sched as [|j rest IH]; intros sys s Hh Hi; simpl.
  { intros [= <-] Hall. destruct Hh as (_ & (rq' & s' & Hi' & Hs') & _).
    rewrite Hi in Hi'. injection Hi' as <- <-.
    specialize (Hall i rq s Hi). by destruct s. }
  destruct (sys_step sig today j sys) as [sys1|] eqn:Hstep; [|done].
  intros Hrun Hall.
  destruct (step_from_holds _ _ _ _ _ _ Hh Hstep)
    as (-> & rq0 & s0 & s' & w' & Hi0 & Hs0 & Hadv & -> & Hin & Hout).
  rewrite Hi in Hi0. injection Hi0 as <- <-.
  destruct (in_critical_section s') eqn:Hs'.
  - destruct (IH _ s' (Hin eq_refl)) with (2 := Hrun) (3 := Hall) as (rest' & Hlen & Hrun' & Hq).
    { simpl. apply list_lookup_insert_eq. by apply lookup_lt_Some in Hi. }
    simpl in Hrun', Hq.
    rewrite (finish_advance _ _ _ _ _ _ _ Hs0 Hadv), list_insert_insert_eq in Hrun', Hq.
    exists rest'. split; [lia|]. split; done.
  - destruct (Hout eq_refl) as [Hq [= -> ->]].
    exists rest. split; [lia|]. split; done.
Qed.

(** Serializability: a complete interleaving of calls that all started
    outside the [with] block ends where some order of uninterrupted
    calls of [_run_order] ends. *)
Lemma run_schedule_serial sig today n :
  ∀ sched sys sys',
    (length sched <= n)%nat →
    quiescent sig sys →
    run_schedule sig today sched sys = Some sys' → all_returned sys' →
    ∃ order, serial_run sig today order sys = Some sys'.
Proof.
  induction n as [|n IH]; intros sched sys sys' Hlen Hq.
  { destruct sched; [|simpl in Hlen; lia]. intros [= <-] _. by exists []. }
  destruct sched as [|j rest]; [intros [= <-] _; by exists []|]. simpl in *.
  destruct (sys_step sig today j sys) as [sys1|] eqn:Hstep; [|done].
  intros Hrun Hall.
  destruct (step_from_quiescent _ _ _ _ _ Hq Hstep) as (rq & Hj & -> & Hh).
  destruct (holds_run sig today rest _ sys' j rq Entered Hh) with (2 := Hrun) (3 := Hall)
    as (rest' & Hlen' & Hrun' & Hq').
  { simpl. apply list_lookup_insert_eq. by apply lookup_lt_Some in Hj. }
  cbn [threads shared] in Hrun', Hq'. rewrite list_insert_insert_eq in Hrun', Hq'.
  change (finish sig today rq Entered (lock sig (shared sys)))
    with (finish sig today rq Waiting (shared sys)) in Hrun', Hq'.
  rewrite finish_waiting in Hrun', Hq' by apply Hq.
  destruct (IH rest' _ sys' ltac:(lia) Hq' Hrun' Hall) as [order Horder].
  exists (j :: order). simpl. unfold serial_step. rewrite Hj.
  by destruct (_run_order _ _ _ _ _ _).
Qed.

(** *** A steady price *)

Lemma steady_same px w w' :
  env w' = env w → TICKER_CACHE w' = TICKER_CACHE w → steady px w → steady px w'.
Proof. unfold steady. intros -> ->. done. Qed.

Lemma fetch_ticker_steady px symbol mode w :
  steady px w →
  ∃ t w', fetch_ticker symbol mode w = (Ret t, w')
          ∧ chosen_price t = PyNum px ∧ steady px w'.
Proof.
  intros (Hmode & Hvenue & Hcache).
  set (pair := upper (str_or symbol (DEFAULT_PAIR (env w)))).
  set (tm := lower (str_or mode (DEFAULT_MODE (env w)))).
  destruct (Hvenue (calls w) tm pair) as (t & Ht & Hpx).
  assert (steady px
            (set_TICKER_CACHE (<[pair := (clock (env w) (ticks w), t)]> (TICKER_CACHE w))
               (set_calls (S (calls w)) (set_ticks (S (ticks w)) w)))) as Hnew.
  { split; [done|]. split; [done|]. simpl. intros k ts t' Hk.
    apply lookup_insert_Some in Hk as [[_ [= _ <-]]|[_ Hk]]; [done|]. by eapply Hcache. }
  unfold fetch_ticker, bind, gets, time_time, ret, modify, exchange_fetch_ticker.
  cbn [env calls ticks TICKER_CACHE set_ticks set_calls set_TICKER_CACHE].
  fold pair. fold tm.
  destruct (TICKER_CACHE w !! pair) as [[ts data]|] eqn:Hc.
  - destruct (clock (env w) (ticks w) - ts <? CACHE_TTL (env w))%float.
    + exists data, (set_ticks (S (ticks w)) w). split; [done|].
      split; [by eapply Hcache|]. by apply (steady_same px w).
    + cbn [env calls ticks TICKER_CACHE set_ticks set_calls set_TICKER_CACHE]. rewrite Ht.
      eexists _, _. split; [done|]. split; [exact Hpx|exact Hnew].
  - cbn [env calls ticks TICKER_CACHE set_ticks set_calls set_TICKER_CACHE]. rewrite Ht.
    eexists _, _. split; [done|]. split; [exact Hpx|exact Hnew].
Qed.

Lemma get_last_price_steady px symbol mode w :
  steady px w →
  ∃ w', get_last_price symbol mode w = (Ret px, w') ∧ steady px w'.
Proof.
  intros Hs. destruct (fetch_ticker_steady px symbol mode w Hs) as (t & w' & Hft & Hpx & Hs').
  exists w'. unfold get_last_price. rewrite (bind_Ret _ _ _ _ _ Hft).
  fold (chosen_price t). by rewrite Hpx.
Qed.

Lemma quote_steady px side amount ot w :
  steady px w →
  ∃ order w', quote side amount ot w = (Ret (px, order), w') ∧ steady px w'.
Proof.
  intros Hs. destruct (get_last_price_steady px None None w Hs) as (w1 & Hp1 & Hs1).
  pose proof Hs1 as (Hmode & _).
  set (pair := upper (str_or None (DEFAULT_PAIR (env w1)))).
  set (tm := lower (str_or None (DEFAULT_MODE (env w1)))).
  destruct (get_last_price_steady px (Some pair) (Some tm) w1 Hs1) as (w2 & Hp2 & Hs2).
  pose proof (paper_execute_order_steps side amount None ot None w1 Hmode px w2 Hp2) as Hex.
  eexists _, _. unfold quote. rewrite (bind_Ret _ _ _ _ _ Hp1), (bind_Ret _ _ _ _ _ Hex).
  split; [done|]. by apply (steady_same px w2).
Qed.

(** *** Funds for one buy only *)

Lemma buy_commit px a ot sig today w p l :
  steady px w → sig ∉ locks w →
  latest_of today (files w !! sig) = inr (p, l) →
  BASE_SYMBOL (env w) ≠ "CASH" →
  let base := BASE_SYMBOL (env w) in
  (get0 (opening base p) "CASH" - px * a <? 0)%float = false →
  ∃ order w',
    _run_order "buy" a sig today ot w
    = (Ret (Positions (bought base px a (opening base p))), w')
    ∧ steady px w' ∧ (sig ∉ locks w') ∧ env w' = env w
    ∧ files w'
      = <[sig := (ledger sig w
                  ++ [Row (trade_record today l "buy" base a px
                             (bought base px a (opening base p)) order)])%list]> (files w).
Proof.
  intros Hs Hfree Hl Hbase base Hok.
  assert (steady px (lock sig w)) as Hs1 by by apply (steady_same px w).
  destruct (quote_steady px "buy" a ot (lock sig w) Hs1) as (order & w1 & Hq & Hs2).
  pose proof (keeps_books_quote "buy" a ot (lock sig w)) as Hb. rewrite Hq in Hb.
  destruct Hb as (He & Hf & Hlk & _). simpl in He, Hf, Hlk.
  pose proof (_run_order_releases "buy" a sig today ot w Hfree) as Hrel.
  rewrite _run_order_eq in * by done. rewrite Hl in *. cbv zeta in *. rewrite Hq in *.
  fold base in Hrel |- *.
  assert (apply_side base "buy" px a (opening base p)
          = inr (bought base px a (opening base p))) as Hap.
  { unfold apply_side, bought. simpl. rewrite Hok.
    rewrite get0_insert_ne; [done|]. intros H. apply Hbase. by rewrite H. }
  rewrite Hap in *. eexists order, _. split; [done|].
  split; [by apply (steady_same px w1)|]. split; [done|]. split; [done|].
  simpl. unfold ledger. by rewrite Hf.
Qed.

Lemma buy_reject px a ot sig today w p l :
  steady px w → sig ∉ locks w →
  latest_of today (files w !! sig) = inr (p, l) →
  let base := BASE_SYMBOL (env w) in
  (get0 (opening base p) "CASH" - px * a <? 0)%float = true →
  ∃ w',
    _run_order "buy" a sig today ot w
    = (Ret (ErrInsufficientCash (px * a)%float (get0 (opening base p) "CASH")), w')
    ∧ steady px w' ∧ (sig ∉ locks w') ∧ env w' = env w ∧ files w' = files w.
Proof.
  intros Hs Hfree Hl base Hlow.
  assert (steady px (lock sig w)) as Hs1 by by apply (steady_same px w).
  destruct (quote_steady px "buy" a ot (lock sig w) Hs1) as (order & w1 & Hq & Hs2).
  pose proof (keeps_books_quote "buy" a ot (lock sig w)) as Hb. rewrite Hq in Hb.
  destruct Hb as (He & Hf & Hlk & _). simpl in He, Hf, Hlk.
  pose proof (_run_order_releases "buy" a sig today ot w Hfree) as Hrel.
  rewrite _run_order_eq in * by done. rewrite Hl in *. cbv zeta in *. rewrite Hq in *.
  fold base in Hrel |- *.
  assert (apply_side base "buy" px a (opening base p)
          = inl (ErrInsufficientCash (px * a)%float (get0 (opening base p) "CASH"))) as Hap.
  { unfold apply_side. simpl. by rewrite Hlow. }
  rewrite Hap in *. eexists. split; [done|].
  split; [by apply (steady_same px w1)|]. split; [done|]. split; done.
Qed.

Lemma opening_bought base px a pos :
  base ≠ "CASH" →
  opening base (bought base px a pos) = bought base px a pos
  ∧ get0 (bought base px a pos) "CASH" = (get0 pos "CASH" - px * a)%float.
Proof.
  intros Hbase. split.
  - unfold opening, is_empty.
    rewrite bool_decide_eq_false_2.
    2:{ intros Hd. assert (base ∈ dom (bought base px a pos)) as Hin.
        { apply elem_of_dom. unfold bought. rewrite lookup_insert_eq. eauto. }
        rewrite Hd in Hin. by apply not_elem_of_empty in Hin. }
    unfold _ensure_symbol, setdefault, bought.
    rewrite lookup_insert_eq. rewrite lookup_insert_ne by done. by rewrite lookup_insert_eq.
  - unfold bought. rewrite get0_insert_ne by done. apply get0_insert_eq.
Qed.

Section OneWins.

Variables (sig today : string) (px : float) (w0 : world) (reqs : list request).
Variables (p0 : position) (l0 : Z).

Hypothesis Hlatest : latest_of today (files w0 !! sig) = inr (p0, l0).
Hypothesis Hbase : BASE_SYMBOL (env w0) ≠ "CASH".
Hypothesis Hbuys : ∀ rq, rq ∈ reqs → req_side rq = "buy".
Hypothesis Honly :
  ∀ i j rqi rqj, reqs !! i = Some rqi → reqs !! j = Some rqj → i ≠ j →
    affordable (get0 (opening (BASE_SYMBOL (env w0)) p0) "CASH" - px * req_amount rqi)%float
      px rqj = false.

(** Once one call has bought, every later call is turned down and writes
    nothing. *)
Lemma spent_serial_step i rqi j sys sys' :
  spent sig today px (BASE_SYMBOL (env w0)) (opening (BASE_SYMBOL (env w0)) p0)
    (ledger sig w0) l0 reqs i rqi sys →
  serial_step sig today j sys = Some sys' →
  spent sig today px (BASE_SYMBOL (env w0)) (opening (BASE_SYMBOL (env w0)) p0)
    (ledger sig w0) l0 reqs i rqi sys'.
Proof.
  set (base := BASE_SYMBOL (env w0)). set (pos0 := opening base p0).
  intros (Hs & Hfree & He & (order & Hf) & Hrqi & Hlen & Hths). unfold serial_step.
  destruct (threads sys !! j) as [[rq s]|] eqn:Hj; [|done].
  destruct s; try done.
  destruct (Hths j rq Waiting Hj) as (Hrq & Hji & _).
  assert (j ≠ i) as Hne by (intros ->; by specialize (Hji eq_refl)).
  (* what the call reads *)
  set (rec := trade_record today l0 "buy" base (req_amount rqi) px
                (bought base px (req_amount rqi) pos0) order) in Hf.
  assert (latest_of today (files (shared sys) !! sig)
          = inr (bought base px (req_amount rqi) pos0, l0 + 1)) as Hl.
  { rewrite Hf. unfold ledger.
    apply (latest_of_snoc today (files w0 !! sig) p0 l0 rec Hlatest); done. }
  destruct (opening_bought base px (req_amount rqi) pos0 Hbase) as [Hop Hcash].
  assert ((get0 (opening (BASE_SYMBOL (env (shared sys)))
                   (bought base px (req_amount rqi) pos0)) "CASH"
           - px * req_amount rq <? 0)%float = true) as Hlow.
  { rewrite He, Hop, Hcash.
    specialize (Honly i j rqi rq Hrqi Hrq ltac:(done)). unfold affordable in Honly.
    fold base pos0 in Honly. by apply negb_false_iff in Honly. }
  destruct (buy_reject px (req_amount rq) (req_order_type rq) sig today (shared sys) _ _
              Hs Hfree Hl Hlow) as (w' & Hrun & Hs' & Hfree' & He' & Hf').
  rewrite (Hbuys rq) by (by eapply list_elem_of_lookup_2).
  rewrite Hrun. intros [= <-]. rewrite He, Hop, Hcash.
  split; [done|]. split; [done|]. split; [simpl; congruence|].
  split; [exists order; simpl; by rewrite Hf'|]. split; [done|].
  split; [simpl; by rewrite length_insert|].
  simpl. intros k rq' s' Hk.
  apply lookup_insert_thread in Hk as [[-> [= -> ->]]|[Hki Hk]].
  - split; [done|]. split; [done|]. intros _. by right.
  - by apply Hths.
Qed.

Lemma spent_serial_run i rqi order sys sys' :
  spent sig today px (BASE_SYMBOL (env w0)) (opening (BASE_SYMBOL (env w0)) p0)
    (ledger sig w0) l0 reqs i rqi sys →
  serial_run sig today order sys = Some sys' →
  spent sig today px (BASE_SYMBOL (env w0)) (opening (BASE_SYMBOL (env w0)) p0)
    (ledger sig w0) l0 reqs i rqi sys'.
Proof.
  revert sys. induction order as [|j rest IH]; intros sys Hsp; simpl.
  { by intros [= <-]. }
  destruct (serial_step sig today j sys) as [sys1|] eqn:Hstep; [|done].
  apply IH. by eapply spent_serial_step.
Qed.

Hypothesis Hsteady : steady px w0.
Hypothesis Hfree : sig ∉ locks w0.
Hypothesis Hone :
  ∀ rq, rq ∈ reqs →
    affordable (get0 (opening (BASE_SYMBOL (env w0)) p0) "CASH") px rq = true.

(** The first call to run buys. *)
Lemma start_serial_step i sys' :
  serial_step sig today i (start w0 reqs) = Some sys' →
  ∃ rqi, spent sig today px (BASE_SYMBOL (env w0)) (opening (BASE_SYMBOL (env w0)) p0)
           (ledger sig w0) l0 reqs i rqi sys'.
Proof.
  set (base := BASE_SYMBOL (env w0)). set (pos0 := opening base p0).
  unfold serial_step, start. simpl. rewrite list_lookup_fmap.
  destruct (reqs !! i) as [rqi|] eqn:Hi; [|done]. simpl.
  assert (rqi ∈ reqs) as Hin by (by eapply list_elem_of_lookup_2).
  rewrite (Hbuys rqi Hin).
  specialize (Hone rqi Hin). unfold affordable in Hone. apply negb_true_iff in Hone.
  destruct (buy_commit px (req_amount rqi) (req_order_type rqi) sig today w0 p0 l0
              Hsteady Hfree Hlatest Hbase Hone) as (order & w' & Hrun & Hs' & Hfree' & He' & Hf').
  rewrite Hrun. intros [= <-]. exists rqi. fold base pos0 in Hf' |- *.
  split; [done|]. split; [done|]. split; [simpl; by rewrite He'|].
  split; [exists order; simpl; by rewrite Hf', lookup_insert_eq|]. split; [done|].
  split; [simpl; by rewrite length_insert, length_map|].
  simpl. intros k rq' s' Hk.
  apply lookup_insert_thread in Hk as [[-> [= -> ->]]|[Hki Hk]].
  - split; [done|]. split; [done|]. done.
  - rewrite list_lookup_fmap in Hk. destruct (reqs !! k) as [rqk|]; [|done].
    injection Hk as <- <-. split; [done|]. split; [done|]. intros _. by left.
Qed.

(** Exactly one of the calls buys; all the others are turned down. *)
Lemma one_wins order sys' :
  reqs ≠ [] →
  serial_run sig today order (start w0 reqs) = Some sys' →
  all_returned sys' →
  ∃ i rqi, spent sig today px (BASE_SYMBOL (env w0)) (opening (BASE_SYMBOL (env w0)) p0)
             (ledger sig w0) l0 reqs i rqi sys'.
Proof.
  intros Hne. destruct order as [|i rest]; simpl.
  - intros [= <-] Hall. destruct reqs as [|rq rest]; [done|].
    by specialize (Hall 0%nat rq Waiting eq_refl).
  - destruct (serial_step sig today i (start w0 reqs)) as [sys1|] eqn:Hstep; [|done].
    intros Hrun _. destruct (start_serial_step i sys1 Hstep) as [rqi Hsp].
    exists i, rqi. by eapply spent_serial_run.
Qed.

End OneWins.

(** Inside the [with] block a call can always take its next step. *)
Lemma advance_inside sig today rq s w :
  in_critical_section s = true → ∃ s' w', advance sig today rq s w = Some (s', w').
Proof.
  destruct s as [| |p l|p l fp order|r|r]; try done; intros _; cbn [advance].
  - destruct (get_latest_position today sig w) as [[[p l]| |] w']; eauto.
  - destruct (quote _ _ _ w) as [[[fp order]| |] w']; eauto.
  - destruct (settle_step _ _ _ _ _ _ _ _) as [r w']. eauto.
  - eauto.
Qed.

(** No deadlock: as long as a call has not returned, some call can take
    a step. *)
Lemma sys_step_progress sig today sys i rq s :
  quiescent sig sys ∨ (∃ k, holds sig k sys) →
  threads sys !! i = Some (rq, s) → has_returned s = false →
  ∃ j sys', sys_step sig today j sys = Some sys'.
Proof.
  intros [[Hfree Hout]|[k (_ & (rqk & sk & Hk & Hsk) & _)]] Hi Hs.
  - exists i. unfold sys_step. rewrite Hi.
    specialize (Hout i rq s Hi). destruct s; try done. cbn [advance].
    unfold _Lock__enter__. rewrite bool_decide_eq_false_2 by done. eauto.
  - exists k. unfold sys_step. rewrite Hk.
    destruct (advance_inside sig today rqk sk (shared sys) Hsk) as (s' & w' & ->). eauto.
Qed.

Lemma start_quiescent sig w reqs : sig ∉ locks w → quiescent sig (start w reqs).
Proof.
  intros Hfree. split; [done|]. simpl. intros i rq s Hi.
  rewrite list_lookup_fmap in Hi. destruct (reqs !! i); [|done]. by injection Hi as <- <-.
Qed.



(** While one call is inside the [with] block, another cannot take a
    step: an interleaving that asks it to is not a run of the system. *)
Example lock_blocks_second_call :
  run_schedule "agent" "2025-01-02" [0; 1]%nat (start seeded_world three_buys) = None.
Proof. vm_compute. reflexivity. Qed.

(* ===================================================================== *)
(** ** Part III — further properties                                      *)
(* ===================================================================== *)

(** *** One settlement, whatever its outcome *)

Lemma apply_side_inl base side fill_price amount pos err :
  apply_side base side fill_price amount pos = inl err → ∀ p, err ≠ Positions p.
Proof.
  unfold apply_side. destruct (String.eqb side "buy").
  - destruct (_ <? 0)%float; [|done]. by intros [= <-].
  - destruct (_ <? amount)%float; [|done]. by intros [= <-].
Qed.

Lemma files_unlock sig w : files (unlock sig w) = files w.
Proof. done. Qed.

(** What a committed settlement leaves behind. *)
Lemma _run_order_committed side amount sig today ot w p' w' :
  _run_order side amount sig today ot w = (Ret (Positions p'), w') →
  (sig ∉ locks w)
  ∧ ∃ p last_id fill_price order w1,
      latest_of today (files w !! sig) = inr (p, last_id)
      ∧ quote side amount ot (lock sig w) = (Ret (fill_price, order), w1)
      ∧ apply_side (BASE_SYMBOL (env w)) side fill_price amount
          (opening (BASE_SYMBOL (env w)) p) = inr p'
      ∧ w' = unlock sig
               (set_IF_TRADE true
                  (appended sig
                     (trade_record today last_id side (BASE_SYMBOL (env w)) amount
                        fill_price p' order) w1)).
Proof.
  intros H. destruct (decide (sig ∈ locks w)) as [Hheld|Hfree].
  { by rewrite _run_order_held in H. }
  split; [done|]. rewrite _run_order_eq in H by done.
  destruct (latest_of today (files w !! sig)) as [e|[p last_id]]; [done|].
  cbv zeta in H.
  destruct (quote side amount ot (lock sig w)) as [[[fp order]| |] w1]; [|done..].
  destruct (apply_side _ _ _ _ _) as [err|q] eqn:Hap.
  { injection H as -> _. by destruct (apply_side_inl _ _ _ _ _ _ Hap p'). }
  injection H as -> <-. by exists p, last_id, fp, order, w1.
Qed.

(** X1.  Read your own write: when [_run_order] returns positions, it has
    appended exactly one record to the agent's ledger, dated [today], with
    the id that [get_latest_position] answered before plus one and with the
    returned positions; from then on [get_latest_position] answers those
    positions and that id, and the trade flag is set. *)
Theorem committed_trade_is_latest side amount sig today ot w p' w' :
  _run_order side amount sig today ot w = (Ret (Positions p'), w') →
  ∃ p last_id r,
    get_latest_position today sig w = (Ret (p, last_id), w)
    ∧ ledger sig w' = (ledger sig w ++ [Row r])%list
    ∧ rec_date r = Some today ∧ rec_id r = Some (last_id + 1)
    ∧ rec_positions r = Some p'
    ∧ get_latest_position today sig w' = (Ret (p', last_id + 1), w')
    ∧ cfg_IF_TRADE w' = true.
Proof.
  intros H. apply _run_order_committed in H
    as (Hfree & p & last_id & fp & order & w1 & Hl & Hq & Hap & ->).
  pose proof (keeps_books_quote side amount ot (lock sig w)) as Hb. rewrite Hq in Hb.
  destruct Hb as (_ & Hf & _). cbn [snd] in Hf. change (files (lock sig w)) with (files w) in Hf.
  set (r := trade_record today last_id side (BASE_SYMBOL (env w)) amount fp p' order).
  exists p, last_id, r.
  split; [by rewrite get_latest_position_eq, Hl|].
  assert (ledger sig w1 = ledger sig w) as HL by (unfold ledger; by rewrite Hf).
  split.
  { change (ledger sig (unlock sig (set_IF_TRADE true (appended sig r w1))))
      with (ledger sig (appended sig r w1)).
    by rewrite ledger_appended, HL. }
  split; [done|]. split; [done|]. split; [done|]. split; [|done].
  rewrite get_latest_position_eq. f_equal.
  rewrite files_unlock. change (files (set_IF_TRADE true (appended sig r w1)))
    with (files (appended sig r w1)).
  rewrite files_appended, lookup_insert_eq. unfold ledger. rewrite Hf.
  by rewrite (latest_of_snoc today (files w !! sig) p last_id r Hl eq_refl eq_refl).
Qed.

Lemma committed_trade_is_latest_witness :
  let p' : position := <["BTC" := 0.1%float]> (<["CASH" := 5000%float]> ∅) in
  let w' := (_run_order "buy" 0.1 "agent" "2025-01-02" "market" seeded_world).2 in
  ∃ p last_id r,
    get_latest_position "2025-01-02" "agent" seeded_world = (Ret (p, last_id), seeded_world)
    ∧ ledger "agent" w' = (ledger "agent" seeded_world ++ [Row r])%list
    ∧ rec_date r = Some "2025-01-02" ∧ rec_id r = Some (last_id + 1)
    ∧ rec_positions r = Some p'
    ∧ get_latest_position "2025-01-02" "agent" w' = (Ret (p', last_id + 1), w')
    ∧ cfg_IF_TRADE w' = true.
Proof.
  intros p' w'.
  apply (committed_trade_is_latest "buy" 0.1%float "agent" "2025-01-02" "market" seeded_world).
  vm_compute. reflexivity.
Defined.

(** X2.  The footprint of one settlement, whatever its outcome (positions,
    an error dictionary, an exception, or a wait on the lock): the
    settings, the set of held locks and the configured agent and date are
    as before, and so is the ledger of every other agent.  Either no file
    changed, the trade flag is as before and the call did not return
    positions; or the agent's ledger grew by exactly one record at its
    end, the trade flag is set, and the call returned that record's
    positions. *)
Theorem settlement_footprint side amount sig today ot w :
  let out := _run_order side amount sig today ot w in
  env out.2 = env w ∧ locks out.2 = locks w
  ∧ cfg_SIGNATURE out.2 = cfg_SIGNATURE w ∧ cfg_TODAY_DATE out.2 = cfg_TODAY_DATE w
  ∧ (∀ sig', sig' ≠ sig → files out.2 !! sig' = files w !! sig')
  ∧ ((files out.2 = files w ∧ cfg_IF_TRADE out.2 = cfg_IF_TRADE w
      ∧ ∀ p, out.1 ≠ Ret (Positions p))
     ∨ (∃ r, files out.2 = <[sig := (ledger sig w ++ [Row r])%list]> (files w)
             ∧ cfg_IF_TRADE out.2 = true
             ∧ out.1 = Ret (Positions (get_positions r)))).
Proof.
  intros out. unfold out.
  destruct (decide (sig ∈ locks w)) as [Hheld|Hfree].
  { rewrite _run_order_held by done. repeat split; try done. left. by repeat split. }
  rewrite _run_order_eq by done.
  destruct (latest_of today (files w !! sig)) as [e|[p last_id]].
  { repeat split; try done. left. by repeat split. }
  cbv zeta.
  pose proof (keeps_books_quote side amount ot (lock sig w)) as Hb.
  destruct (quote side amount ot (lock sig w)) as [[[fp order]| |] w1]; cbn [snd] in Hb;
    pose proof (same_books_unlock _ _ _ Hfree Hb) as (He & Hf & Hl & Hs & Ht & Hi).
  2,3: (cbn [fst snd]; split; [done|]; split; [done|]; split; [done|]; split; [done|];
        split; [by rewrite Hf|]; left; by repeat split).
  destruct (apply_side _ _ _ _ _) as [err|p'] eqn:Hap; cbn [fst snd].
  { split; [done|]. split; [done|]. split; [done|]. split; [done|].
    split; [by rewrite Hf|]. left. split; [done|]. split; [done|].
    intros q [= ->]. by destruct (apply_side_inl _ _ _ _ _ _ Hap q). }
  rewrite files_unlock in Hf.
  assert (ledger sig w1 = ledger sig w) as HL by (unfold ledger; by rewrite Hf).
  split; [exact He|]. split; [exact Hl|]. split; [exact Hs|]. split; [exact Ht|].
  split.
  { intros sig' Hne. rewrite files_unlock.
    change (files (set_IF_TRADE true ?v)) with (files v).
    rewrite files_appended, lookup_insert_ne by done. by rewrite Hf. }
  right.
  exists (trade_record today last_id side (BASE_SYMBOL (env w)) amount fp p' order).
  split; [|split; reflexivity].
  rewrite files_unlock. change (files (set_IF_TRADE true ?v)) with (files v).
  by rewrite files_appended, HL, Hf.
Qed.

(** *** Agents do not touch each other's ledgers *)

Lemma _run_order_elsewhere side amount sig today ot w sig' :
  sig' ≠ sig →
  files (_run_order side amount sig today ot w).2 !! sig' = files w !! sig'.
Proof.
  intros Hne. destruct (decide (sig ∈ locks w)) as [Hheld|Hfree].
  { by rewrite _run_order_held. }
  rewrite _run_order_eq by done.
  destruct (latest_of today (files w !! sig)) as [e|[p last_id]]; [done|].
  cbv zeta.
  pose proof (keeps_books_quote side amount ot (lock sig w)) as Hb.
  destruct (quote side amount ot (lock sig w)) as [[[fp order]| |] w1]; cbn [snd] in Hb;
    destruct Hb as (_ & Hf & _); change (files (lock sig w)) with (files w) in Hf;
    cbn [snd]; rewrite ?files_unlock; [|by rewrite Hf..].
  destruct (apply_side _ _ _ _ _) as [err|p']; cbn [snd]; rewrite files_unlock;
    [by rewrite Hf|].
  change (files (set_IF_TRADE true ?v)) with (files v).
  rewrite files_appended, lookup_insert_ne by done. by rewrite Hf.
Qed.

Lemma _run_order_garbled side amount sig today ot w :
  Garbled ∈ ledger sig w → files (_run_order side amount sig today ot w).2 = files w.
Proof.
  intros Hg. destruct (decide (sig ∈ locks w)) as [Hheld|Hfree].
  { by rewrite _run_order_held. }
  rewrite _run_order_eq by done.
  pose proof (proj2 (get_latest_position_garbled today sig w) Hg) as Hr.
  rewrite get_latest_position_eq in Hr. cbn [fst] in Hr.
  destruct (latest_of today (files w !! sig)) as [e|res]; [done|discriminate].
Qed.

Lemma add_no_trade_record_garbled today sig w :
  Garbled ∈ ledger sig w → files (add_no_trade_record today sig w).2 = files w.
Proof.
  intros Hg. rewrite add_no_trade_record_eq.
  pose proof (proj2 (get_latest_position_garbled today sig w) Hg) as Hr.
  rewrite get_latest_position_eq in Hr. cbn [fst] in Hr.
  destruct (latest_of today (files w !! sig)) as [e|[p m]]; [done|discriminate].
Qed.

Lemma add_no_trade_record_elsewhere today sig w sig' :
  sig' ≠ sig → files (add_no_trade_record today sig w).2 !! sig' = files w !! sig'.
Proof.
  intros Hne. rewrite add_no_trade_record_eq.
  destruct (latest_of today (files w !! sig)) as [e|[p m]]; [done|].
  cbn [snd]. by rewrite files_appended, lookup_insert_ne.
Qed.

Lemma exec_garbled sig o w :
  Garbled ∈ ledger sig w → ledger sig (exec o w) = ledger sig w.
Proof.
  intros Hg.
  enough (files (exec o w) !! sig = files w !! sig) as H by (unfold ledger; by rewrite H).
  assert (∀ side amount s today ot,
            files (_run_order side amount s today ot w).2 !! sig = files w !! sig) as Hrun.
  { intros side amount s today ot. destruct (decide (sig = s)) as [<-|Hne].
    - by rewrite _run_order_garbled.
    - by apply _run_order_elsewhere. }
  assert (∀ today s, files (add_no_trade_record today s w).2 !! sig = files w !! sig) as Hno.
  { intros today s. destruct (decide (sig = s)) as [<-|Hne].
    - by rewrite add_no_trade_record_garbled.
    - by apply add_no_trade_record_elsewhere. }
  destruct o as [amount|amount|today s|s today|s today]; simpl.
  - unfold buy, bind, gets.
    destruct (unset (cfg_SIGNATURE w) || unset (cfg_TODAY_DATE w)); [done|].
    destruct (amount <=? 0)%float; [done|]. apply Hrun.
  - unfold sell, bind, gets.
    destruct (unset (cfg_SIGNATURE w) || unset (cfg_TODAY_DATE w)); [done|].
    destruct (amount <=? 0)%float; [done|]. apply Hrun.
  - apply Hno.
  - unfold _handle_trading_result, bind, gets.
    destruct (cfg_IF_TRADE w); [done|]. apply Hno.
  - done.
Qed.

(** X3.  A ledger with a line that is not JSON is frozen: whatever
    sequence of buys, sells, no-trade records, session ends and changes
    of agent or date is run, for this agent or any other, the file stays
    exactly as it is.  Every writer reads the latest position first, and
    that read raises. *)
Theorem garbled_ledger_is_frozen sig ops w :
  Garbled ∈ ledger sig w → ledger sig (run ops w) = ledger sig w.
Proof.
  revert w. induction ops as [|o ops IH]; intros w Hg; [done|].
  simpl. pose proof (exec_garbled sig o w Hg) as Ho.
  rewrite IH; [done|]. by rewrite Ho.
Qed.

Lemma garbled_ledger_is_frozen_witness :
  ledger "agent" (run sample_session (with_ledger corrupt_ledger (fresh_world 50000)))
  = ledger "agent" (with_ledger corrupt_ledger (fresh_world 50000)).
Proof.
  apply (garbled_ledger_is_frozen "agent" sample_session
           (with_ledger corrupt_ledger (fresh_world 50000))).
  apply list_elem_of_In. vm_compute. tauto.
Defined.

(** *** A session: one order, then the end-of-session hook *)

Lemma sell_eq amount w sig today :
  cfg_SIGNATURE w = Some sig → sig ≠ EmptyString →
  cfg_TODAY_DATE w = Some today → today ≠ EmptyString →
  (amount <=? 0)%float = false →
  sell amount w = _run_order "sell" amount sig today "market" w.
Proof.
  intros Hs Hs' Ht Ht' Ha. unfold sell, bind, gets. rewrite Hs, Ht. simpl.
  apply String.eqb_neq in Hs', Ht'. rewrite Hs', Ht', Ha. done.
Qed.

Lemma order_invalid_amount amount w sig today :
  cfg_SIGNATURE w = Some sig → sig ≠ EmptyString →
  cfg_TODAY_DATE w = Some today → today ≠ EmptyString →
  (amount <=? 0)%float = true →
  buy amount w = (Ret ErrAmount, w) ∧ sell amount w = (Ret ErrAmount, w).
Proof.
  intros Hs Hs' Ht Ht' Ha. unfold buy, sell, bind, gets. rewrite Hs, Ht. simpl.
  apply String.eqb_neq in Hs', Ht'. rewrite Hs', Ht', Ha. done.
Qed.

Lemma _handle_trading_result_eq sig today w :
  _handle_trading_result sig today w
  = if cfg_IF_TRADE w then (Ret tt, set_IF_TRADE false w)
    else add_no_trade_record today sig w.
Proof. unfold _handle_trading_result, bind, gets. by destruct (cfg_IF_TRADE w). Qed.

(** The end-of-session hook after a call of [_run_order] that returned. *)
Lemma session_after_run_order side amount sig today w p m r w1 :
  cfg_IF_TRADE w = false →
  latest_of today (files w !! sig) = inr (p, m) →
  _run_order side amount sig today "market" w = (Ret r, w1) →
  ∃ rec w2,
    _handle_trading_result sig today w1 = (Ret tt, w2)
    ∧ cfg_IF_TRADE w2 = false
    ∧ ledger sig w2 = (ledger sig w ++ [Row rec])%list
    ∧ rec_date rec = Some today ∧ rec_id rec = Some (m + 1)
    ∧ match r with
      | Positions p' =>
          rec_positions rec = Some p'
          ∧ ∃ a, rec_this_action rec = Some a ∧ act_action a = side ∧ act_amount a = amount
      | _ =>
          rec_positions rec = Some p
          ∧ ∃ a, rec_this_action rec = Some a ∧ act_action a = "no_trade"
      end.
Proof.
  intros Hflag Hl H. rewrite _handle_trading_result_eq.
  destruct (decide (sig ∈ locks w)) as [Hheld|Hfree].
  { by rewrite _run_order_held in H. }
  rewrite _run_order_eq in H by done. rewrite Hl in H. cbv zeta in H.
  pose proof (keeps_books_quote side amount "market" (lock sig w)) as Hb.
  destruct (quote side amount "market" (lock sig w)) as [[[fp order]| |] w']; [|done..].
  cbn [snd] in Hb.
  pose proof (same_books_unlock _ _ _ Hfree Hb) as (_ & Hf & _ & _ & _ & Hi).
  rewrite files_unlock in Hf.
  destruct (apply_side _ _ _ _ _) as [err|p'] eqn:Hap.
  - injection H as <- <-.
    assert (cfg_IF_TRADE (unlock sig w') = false) as -> by (rewrite <- Hflag; exact Hi).
    rewrite add_no_trade_record_eq, files_unlock, Hf, Hl.
    exists (no_trade_record today m p), (appended sig (no_trade_record today m p) (unlock sig w')).
    split; [done|]. split; [rewrite <- Hflag; exact Hi|].
    split. { rewrite ledger_appended. unfold ledger. by rewrite files_unlock, Hf. }
    split; [done|]. split; [done|].
    assert (rec_positions (no_trade_record today m p) = Some p
            ∧ ∃ a, rec_this_action (no_trade_record today m p) = Some a
                   ∧ act_action a = "no_trade") as Hno.
    { split; [done|]. by eexists. }
    destruct err; try exact Hno. by destruct (apply_side_inl _ _ _ _ _ _ Hap p0).
  - injection H as <- <-.
    change (cfg_IF_TRADE (unlock sig (set_IF_TRADE true ?v))) with true. cbv iota.
    eexists _, _. split; [done|]. split; [done|].
    split.
    { change (ledger sig (set_IF_TRADE false (unlock sig (set_IF_TRADE true ?v))))
        with (ledger sig v).
      rewrite ledger_appended. unfold ledger. by rewrite Hf. }
    split; [done|]. split; [done|]. split; [done|]. by eexists.
Qed.

(** X4.  One order and the end of the session.  With the agent and the
    date configured, the trade flag down and a readable ledger whose
    latest position is [(p, m)]: whenever [buy] or [sell] returns (positions
    or an error dictionary), [_handle_trading_result] then returns too, the
    trade flag is down again, and the agent's ledger has grown by exactly
    one record, dated today with id [m + 1].  After a committed order it is
    the trade record, carrying the returned positions; after a refused
    order (bad amount, insufficient cash or holding) it is a no-trade
    record carrying [p]. *)
Theorem session_writes_one_record amount sig today w p m r w1 :
  cfg_SIGNATURE w = Some sig → sig ≠ EmptyString →
  cfg_TODAY_DATE w = Some today → today ≠ EmptyString →
  cfg_IF_TRADE w = false →
  latest_of today (files w !! sig) = inr (p, m) →
  buy amount w = (Ret r, w1) ∨ sell amount w = (Ret r, w1) →
  ∃ rec w2,
    _handle_trading_result sig today w1 = (Ret tt, w2)
    ∧ cfg_IF_TRADE w2 = false
    ∧ ledger sig w2 = (ledger sig w ++ [Row rec])%list
    ∧ rec_date rec = Some today ∧ rec_id rec = Some (m + 1)
    ∧ match r with
      | Positions p' =>
          rec_positions rec = Some p'
          ∧ ∃ a, rec_this_action rec = Some a ∧ act_action a ≠ "no_trade"
                 ∧ act_amount a = amount
      | _ =>
          rec_positions rec = Some p
          ∧ ∃ a, rec_this_action rec = Some a ∧ act_action a = "no_trade"
      end.
Proof.
  intros Hs Hs' Ht Ht' Hflag Hl H.
  destruct (amount <=? 0)%float eqn:Ha.
  - destruct (order_invalid_amount amount w sig today Hs Hs' Ht Ht' Ha) as [Hb Hse].
    rewrite Hb, Hse in H.
    assert (r = ErrAmount ∧ w1 = w) as [-> ->] by (destruct H as [[= <- <-]|[= <- <-]]; done).
    rewrite _handle_trading_result_eq, Hflag, add_no_trade_record_eq, Hl.
    exists (no_trade_record today m p), (appended sig (no_trade_record today m p) w).
    split; [done|]. split; [done|]. split; [by rewrite ledger_appended|].
    split; [done|]. split; [done|]. split; [done|]. by eexists.
  - rewrite (buy_eq amount w sig today Hs Hs' Ht Ht' Ha) in H.
    rewrite (sell_eq amount w sig today Hs Hs' Ht Ht' Ha) in H.
    destruct H as [H|H];
      destruct (session_after_run_order _ _ _ _ _ _ _ _ _ Hflag Hl H)
        as (rec & w2 & H1 & H2 & H3 & H4 & H5 & H6);
      exists rec, w2; (split; [done|]); (split; [done|]); (split; [done|]);
      (split; [done|]); (split; [done|]);
      destruct r; try exact H6;
      destruct H6 as (Hp & a & Ha1 & Ha2 & Ha3); (split; [done|]);
      exists a; (split; [done|]); (split; [|done]); by rewrite Ha2.
Qed.

Lemma session_writes_one_record_witness :
  let out := buy 20 seeded_world in
  ∃ rec w2,
    _handle_trading_result "agent" "2025-01-02" out.2 = (Ret tt, w2)
    ∧ cfg_IF_TRADE w2 = false
    ∧ ledger "agent" w2 = (ledger "agent" seeded_world ++ [Row rec])%list
    ∧ rec_date rec = Some "2025-01-02" ∧ rec_id rec = Some (0 + 1)
    ∧ rec_positions rec = Some (<["BTC" := 0%float]> (<["CASH" := 10000%float]> ∅))
    ∧ ∃ a, rec_this_action rec = Some a ∧ act_action a = "no_trade".
Proof.
  intros out.
  apply (session_writes_one_record 20%float "agent" "2025-01-02" seeded_world
           (<["BTC" := 0%float]> (<["CASH" := 10000%float]> ∅)) 0
           (ErrInsufficientCash 1000000 10000) out.2);
    [reflexivity|discriminate|reflexivity|discriminate|reflexivity
    |vm_compute; reflexivity|left; vm_compute; reflexivity].
Defined.

(** *** The position a day starts from *)

(** X5.  [get_today_init_position] never looks at the records of the
    day itself.  On a readable ledger with well-formed ids it returns the
    positions of a record with the largest id of the previous calendar
    day; when that day has no record, of a record with the largest id of
    the day before that one (two days back); and the empty position when
    neither day has a record.  It changes nothing.  A settlement looks
    back one day only: when neither [today] nor the previous day has a
    record, [get_latest_position] for [today] answers the empty position
    and [-1], also where [get_today_init_position] answers the positions
    of two days back. *)
Theorem get_today_init_position_spec today prev prev2 sig w :
  readable (ledger sig w) = true →
  ids_nonneg (ledger sig w) = true →
  get_yesterday_date today = inr prev →
  get_yesterday_date prev = inr prev2 →
  (∃ d d1 d2, Calendar.strptime today = Some d ∧ Calendar.strptime prev = Some d1
              ∧ Calendar.strptime prev2 = Some d2
              ∧ Calendar.toordinal d1 = Calendar.toordinal d - 1
              ∧ Calendar.toordinal d2 = Calendar.toordinal d - 2)
  ∧ (∃ p, get_today_init_position today sig w = (Ret p, w)
      ∧ (on_date prev (ledger sig w) ≠ [] →
         ∃ m, is_latest_of (on_date prev (ledger sig w)) (p, m))
      ∧ (on_date prev (ledger sig w) = [] → on_date prev2 (ledger sig w) ≠ [] →
         ∃ m, is_latest_of (on_date prev2 (ledger sig w)) (p, m))
      ∧ (on_date prev (ledger sig w) = [] → on_date prev2 (ledger sig w) = [] → p = ∅))
  ∧ (on_date today (ledger sig w) = [] → on_date prev (ledger sig w) = [] →
     get_latest_position today sig w = (Ret (∅, -1), w)).
Proof.
  intros Hr Hi Hy Hy2. split.
  { destruct (get_yesterday_date_spec _ _ Hy) as (d & d1 & Hd & Hd1 & Ho).
    destruct (get_yesterday_date_spec _ _ Hy2) as (d1' & d2 & Hd1' & Hd2 & Ho2).
    exists d, d1, d2. rewrite Hd1 in Hd1'. injection Hd1' as <-.
    repeat split; try done. lia. }
  unfold get_today_init_position. rewrite Hy. unfold lift at 1.
  unfold bind at 1. unfold ret at 1. unfold bind. rewrite !get_latest_position_eq.
  unfold ledger, latest_of in *.
  destruct (files w !! sig) as [lines|] eqn:Hf.
  2:{ split; [|done]. exists ∅. repeat split; done. }
  change (default [] (Some lines)) with lines in *.
  destruct (scan_latest today lines Hr Hi) as (res0 & Hs0 & Hne0 & He0).
  destruct (scan_latest prev lines Hr Hi) as (res1 & Hs1 & Hne1 & He1).
  destruct (scan_latest prev2 lines Hr Hi) as (res2 & Hs2 & Hne2 & He2).
  split.
  - rewrite Hs1. destruct res1 as [p1 m1]. cbn [fst snd] in *.
    destruct (on_date prev lines) as [|r0 rs] eqn:E.
    + specialize (He1 eq_refl). injection He1 as -> ->.
      change (-1 >=? 0) with false. cbv iota. rewrite Hy2, Hs2. destruct res2 as [p2 m2].
      exists p2. split; [done|]. split; [done|].
      split.
      * intros _ Hne. exists m2. by apply Hne2.
      * intros _ He. specialize (He2 He). by injection He2 as -> _.
    + destruct (Hne1 ltac:(done)) as [Hl Hge].
      assert ((m1 >=? 0) = true) as -> by (apply Z.geb_le; lia).
      exists p1. split; [done|]. split; [by exists m1|]. split; done.
  - intros Et Ep. rewrite Hs0, (He0 Et). change (-1 >=? 0) with false. cbv iota.
    by rewrite Hy, Hs1, (He1 Ep).
Qed.

(** The seeded agent on 2025-01-03: nothing on the 2nd, one record on the
    1st. *)
Lemma get_today_init_position_spec_witness :
  (∃ p, get_today_init_position "2025-01-03" "agent" seeded_world = (Ret p, seeded_world)
        ∧ ∃ m, is_latest_of (on_date "2025-01-01" (ledger "agent" seeded_world)) (p, m))
  ∧ get_latest_position "2025-01-03" "agent" seeded_world = (Ret (∅, -1), seeded_world).
Proof.
  destruct (get_today_init_position_spec "2025-01-03" "2025-01-02" "2025-01-01" "agent"
              seeded_world) as (_ & (p & Hp & _ & Htwo & _) & Hgap); [reflexivity..|].
  split.
  - exists p. split; [exact Hp|]. apply Htwo; [reflexivity|discriminate].
  - apply Hgap; reflexivity.
Defined.

(** *** An amount that is not a number *)

Lemma mul_nan x : (x * nan)%float = nan.
Proof.
  apply Prim2SF_inj. rewrite mul_spec. change (Prim2SF nan) with S754_nan.
  by destruct (Prim2SF x).
Qed.

Lemma sub_nan x : (x - nan)%float = nan.
Proof.
  apply Prim2SF_inj. rewrite sub_spec. change (Prim2SF nan) with S754_nan.
  by destruct (Prim2SF x).
Qed.

Lemma add_nan x : (x + nan)%float = nan.
Proof.
  apply Prim2SF_inj. rewrite add_spec. change (Prim2SF nan) with S754_nan.
  by destruct (Prim2SF x).
Qed.

Lemma nan_sub x : (nan - x)%float = nan.
Proof. apply Prim2SF_inj. rewrite sub_spec. by change (Prim2SF nan) with S754_nan. Qed.

Lemma nan_ltb x : (nan <? x)%float = false.
Proof. rewrite ltb_spec. by change (Prim2SF nan) with S754_nan. Qed.

Lemma ltb_nan x : (x <? nan)%float = false.
Proof.
  rewrite ltb_spec. change (Prim2SF nan) with S754_nan. unfold SFltb.
  by destruct (Prim2SF x).
Qed.

Lemma apply_side_nan base side fill_price pos :
  base ≠ "CASH" →
  ∃ p', apply_side base side fill_price nan pos = inr p'
        ∧ p' !! "CASH" = Some nan ∧ p' !! base = Some nan.
Proof.
  intros Hbase. unfold apply_side. destruct (String.eqb side "buy").
  - rewrite mul_nan, sub_nan, nan_ltb, add_nan. eexists. split; [done|].
    rewrite lookup_insert_ne by done. by rewrite !lookup_insert_eq.
  - rewrite ltb_nan, sub_nan, mul_nan, add_nan. eexists. split; [done|].
    rewrite lookup_insert_eq. rewrite lookup_insert_ne by done. by rewrite lookup_insert_eq.
Qed.

Lemma apply_side_poisoned base side fill_price amount pos :
  pos !! "CASH" = Some nan → pos !! base = Some nan →
  ∃ p', apply_side base side fill_price amount pos = inr p'.
Proof.
  intros Hc Hb. unfold apply_side, get0. rewrite Hc, Hb. cbn [default].
  destruct (String.eqb side "buy").
  - rewrite nan_sub, nan_ltb. by eexists.
  - rewrite nan_ltb. by eexists.
Qed.

Lemma opening_full base pos x y :
  pos !! "CASH" = Some x → pos !! base = Some y → opening base pos = pos.
Proof.
  intros Hc Hb. unfold opening, is_empty.
  rewrite bool_decide_eq_false_2.
  2:{ intros Hd. assert ("CASH" ∈ dom pos) as Hin by (apply elem_of_dom; eauto).
      rewrite Hd in Hin. by apply not_elem_of_empty in Hin. }
  unfold _ensure_symbol, setdefault. by rewrite Hb, Hc.
Qed.

(** X6.  Neither check stops an amount that is not a number.  [nan <= 0]
    is false, so [buy] and [sell] pass it on; in [_run_order] the cost is
    NaN, [cash < 0] and [holding < amount] are false, and the order is
    settled: the call returns and records positions whose cash and base
    holding are both NaN.  From such positions no later order is refused,
    whatever its side, amount and price. *)
Theorem nan_amount_is_settled sig today w p last_id :
  cfg_SIGNATURE w = Some sig → sig ≠ EmptyString →
  cfg_TODAY_DATE w = Some today → today ≠ EmptyString →
  sig ∉ locks w →
  latest_of today (files w !! sig) = inr (p, last_id) →
  BASE_SYMBOL (env w) ≠ "CASH" →
  let base := BASE_SYMBOL (env w) in
  let settled side (out : outcome reply * world) fill_price order w' :=
    ∃ p',
      out = (Ret (Positions p'),
             unlock sig
               (set_IF_TRADE true
                  (appended sig
                     (trade_record today last_id side base nan fill_price p' order) w')))
      ∧ p' !! "CASH" = Some nan ∧ p' !! base = Some nan
      ∧ ∀ side' fill_price' amount',
          ∃ p'', apply_side base side' fill_price' amount' (opening base p') = inr p'' in
  (nan <=? 0)%float = false
  ∧ (∀ fill_price order w',
       quote "buy" nan "market" (lock sig w) = (Ret (fill_price, order), w') →
       settled "buy" (buy nan w) fill_price order w')
  ∧ (∀ fill_price order w',
       quote "sell" nan "market" (lock sig w) = (Ret (fill_price, order), w') →
       settled "sell" (sell nan w) fill_price order w').
Proof.
  intros Hs Hs' Ht Ht' Hfree Hl Hbase base settled.
  assert (∀ s fp order w',
            quote s nan "market" (lock sig w) = (Ret (fp, order), w') →
            settled s (_run_order s nan sig today "market" w) fp order w') as Hrun.
  { intros s fp order w' Hqs.
    destruct (apply_side_nan base s fp (opening base p) Hbase) as (p' & Hap & Hc & Hb).
    exists p'. rewrite _run_order_eq by done. rewrite Hl. cbv zeta. rewrite Hqs.
    fold base. rewrite Hap. split; [done|]. split; [done|]. split; [done|].
    intros side' fp' a'. rewrite (opening_full base p' nan nan Hc Hb).
    by apply apply_side_poisoned. }
  split; [reflexivity|]. split; intros fp order w' Hq.
  - rewrite (buy_eq nan w sig today Hs Hs' Ht Ht' eq_refl). by apply Hrun.
  - rewrite (sell_eq nan w sig today Hs Hs' Ht Ht' eq_refl). by apply Hrun.
Qed.

Lemma nan_amount_is_settled_witness :
  ∃ p',
    (buy nan seeded_world).1 = Ret (Positions p')
    ∧ p' !! "CASH" = Some nan ∧ p' !! "BTC" = Some nan.
Proof.
  destruct (nan_amount_is_settled "agent" "2025-01-02" seeded_world
              (<["BTC" := 0%float]> (<["CASH" := 10000%float]> ∅)) 0)
    as (_ & Hbuy & _);
    [reflexivity|discriminate|reflexivity|discriminate|apply not_elem_of_empty
    |vm_compute; reflexivity|discriminate|].
  destruct (Hbuy 50000%float
              (Fill "paper" "BTC/USDT" "buy" nan (Some 50000%float) (Some "market")
                 (Some 1000%float) None)
              (quote "buy" nan "market" (lock "agent" seeded_world)).2)
    as (p' & Hout & Hc & Hb & _).
  - vm_compute. reflexivity.
  - exists p'. split; [rewrite Hout; reflexivity|]. split; [exact Hc|exact Hb].
Defined.

(** *** The ledger only grows *)

Lemma latest_of_lower_bound d file p m : latest_of d file = inr (p, m) → -1 <= m.
Proof.
  unfold latest_of. destruct file as [lines|]; [|by intros [= _ <-]].
  destruct (scan d lines (∅, -1)) as [e|[p1 m1]] eqn:Hs; [done|].
  destruct (m1 >=? 0) eqn:Hge.
  - intros [= _ <-]. apply Z.geb_le in Hge. lia.
  - destruct (get_yesterday_date d) as [e|prev]; [done|].
    intros H. apply scan_sound in H as (Hle & _). exact Hle.
Qed.

Lemma exec_appends o w sig :
  ∃ new, ledger sig (exec o w) = (ledger sig w ++ new)%list ∧ Forall written_line new.
Proof.
  destruct (exec_step o w) as [Hf|(sig0 & r & d & p & m & Hf & Hd & Hi & Hl)].
  { exists []. rewrite app_nil_r. split; [|constructor]. unfold ledger. by rewrite Hf. }
  destruct (decide (sig0 = sig)) as [->|Hne].
  - exists [Row r]. split.
    + unfold ledger at 1. by rewrite Hf, lookup_insert_eq.
    + constructor; [|constructor]. exists r, d, (m + 1). split; [done|]. split; [done|].
      split; [done|]. rewrite get_latest_position_eq in Hl.
      destruct (latest_of d (files w !! sig)) as [e|[p0 m0]] eqn:Hlat; [done|].
      injection Hl as _ <-. apply latest_of_lower_bound in Hlat. lia.
  - exists []. rewrite app_nil_r. split; [|constructor].
    unfold ledger. by rewrite Hf, lookup_insert_ne.
Qed.

(** X19.  The ledger is append-only.  Whatever sequence of buys, sells,
    no-trade records, session ends and changes of agent or date is run,
    every agent's ledger afterwards is its ledger before followed by
    new lines; no line is changed or removed, not even a blank or an
    unparseable one, and every new line is a record with a date and an id
    that is not negative. *)
Theorem ledger_is_append_only ops w sig :
  ∃ new,
    ledger sig (run ops w) = (ledger sig w ++ new)%list
    ∧ Forall written_line new.
Proof.
  revert w. induction ops as [|o ops IH]; intros w.
  { exists []. rewrite app_nil_r. split; [done|constructor]. }
  simpl. destruct (exec_appends o w sig) as (new1 & H1 & Hw1).
  destruct (IH (exec o w)) as (new2 & H2 & Hw2).
  exists (new1 ++ new2)%list. split.
  - by rewrite H2, H1, <- app_assoc.
  - by apply Forall_app.
Qed.

(** *** The ticker cache *)

Lemma fetch_ticker_eq symbol mode w :
  let pair := upper (str_or symbol (DEFAULT_PAIR (env w))) in
  let now := clock (env w) (ticks w) in
  let asked := set_calls (S (calls w)) (set_ticks (S (ticks w)) w) in
  let refresh :=
    match venue_ticker (env w) (calls w) (lower (str_or mode (DEFAULT_MODE (env w)))) pair with
    | inl e => (Raise e, asked)
    | inr t => (Ret t, set_TICKER_CACHE (<[pair := (now, t)]> (TICKER_CACHE w)) asked)
    end in
  fetch_ticker symbol mode w
  = match TICKER_CACHE w !! pair with
    | Some (ts, data) =>
        if (now - ts <? CACHE_TTL (env w))%float then (Ret data, set_ticks (S (ticks w)) w)
        else refresh
    | None => refresh
    end.
Proof.
  cbv zeta. unfold fetch_ticker, bind, gets, time_time, ret, modify, exchange_fetch_ticker.
  cbn [env calls ticks TICKER_CACHE set_ticks set_calls set_TICKER_CACHE].
  destruct (TICKER_CACHE w !! _) as [[ts data]|].
  - destruct (_ <? _)%float; [done|].
    cbn [env calls ticks TICKER_CACHE set_ticks set_calls set_TICKER_CACHE].
    by destruct (venue_ticker _ _ _ _).
  - cbn [env calls ticks TICKER_CACHE set_ticks set_calls set_TICKER_CACHE].
    by destruct (venue_ticker _ _ _ _).
Qed.

(** X7.  The ticker cache is keyed by the upper-cased pair alone.  After
    [fetch_ticker] has returned a ticker, the cache holds it for that pair,
    and a next call for the same pair in any spelling of its case and for
    any trade mode, paper or live, made while the entry is younger than the
    time to live, returns the same ticker without asking the venue and
    without touching the cache.  Once the entry has aged out, the next
    call asks the venue. *)
Theorem ticker_cache_ignores_mode symbol mode symbol' mode' w t w1 :
  fetch_ticker symbol mode w = (Ret t, w1) →
  upper (str_or symbol' (DEFAULT_PAIR (env w))) = upper (str_or symbol (DEFAULT_PAIR (env w))) →
  ∃ ts,
    TICKER_CACHE w1 !! upper (str_or symbol (DEFAULT_PAIR (env w))) = Some (ts, t)
    ∧ ((clock (env w1) (ticks w1) - ts <? CACHE_TTL (env w1))%float = true →
       fetch_ticker symbol' mode' w1 = (Ret t, set_ticks (S (ticks w1)) w1))
    ∧ ((clock (env w1) (ticks w1) - ts <? CACHE_TTL (env w1))%float = false →
       calls (fetch_ticker symbol' mode' w1).2 = S (calls w1)).
Proof.
  intros H Hpair. rewrite fetch_ticker_eq in H. cbv zeta in H.
  set (pair := upper (str_or symbol (DEFAULT_PAIR (env w)))) in *.
  assert (∃ ts, TICKER_CACHE w1 !! pair = Some (ts, t) ∧ env w1 = env w) as (ts & Hc & He).
  { destruct (TICKER_CACHE w !! pair) as [[ts data]|] eqn:Hc.
    - destruct (_ <? _)%float.
      + injection H as <- <-. by exists ts.
      + destruct (venue_ticker _ _ _ _) as [e|t']; [done|]. injection H as <- <-.
        eexists. split; [|done]. cbn [TICKER_CACHE set_TICKER_CACHE]. apply lookup_insert_eq.
    - destruct (venue_ticker _ _ _ _) as [e|t']; [done|]. injection H as <- <-.
      eexists. split; [|done]. cbn [TICKER_CACHE set_TICKER_CACHE]. apply lookup_insert_eq. }
  exists ts. split; [done|].
  rewrite fetch_ticker_eq. cbv zeta. rewrite He, Hpair. fold pair. rewrite Hc.
  split; intros Hlt; rewrite Hlt; [done|].
  clear H. destruct (venue_ticker _ _ _ _); reflexivity.
Qed.

(** A paper ticker is served to a caller in live mode. *)
Lemma ticker_cache_ignores_mode_witness :
  let w1 := (fetch_ticker None (Some "paper") (fresh_world 30000)).2 in
  ∃ ts,
    TICKER_CACHE w1 !! "BTC/USDT" = Some (ts, ticker_last 30000)
    ∧ fetch_ticker (Some "btc/usdt") (Some "live") w1
      = (Ret (ticker_last 30000), set_ticks (S (ticks w1)) w1).
Proof.
  intros w1.
  destruct (ticker_cache_ignores_mode None (Some "paper") (Some "btc/usdt") (Some "live")
              (fresh_world 30000) (ticker_last 30000) w1) as (ts & Hc & Hhit & _);
    [reflexivity|reflexivity|].
  exists ts. split; [exact Hc|]. apply Hhit.
  vm_compute in Hc. injection Hc as <-. vm_compute. reflexivity.
Defined.

(** *** Live orders *)

Lemma live_execute_order_steps side amount symbol ot mode w :
  lower (str_or mode (DEFAULT_MODE (env w))) = "live" →
  ∀ px w1,
    get_last_price (Some (upper (str_or symbol (DEFAULT_PAIR (env w)))))
      (Some (lower (str_or mode (DEFAULT_MODE (env w))))) w = (Ret px, w1) →
    execute_order side amount symbol ot None mode w
    = (match venue_order (env w1) (calls w1) "live"
               (upper (str_or symbol (DEFAULT_PAIR (env w)))) ot side amount None with
       | inl e => Raise e
       | inr receipt =>
           Ret (Fill "live" (upper (str_or symbol (DEFAULT_PAIR (env w)))) side amount
                  None None None (Some receipt))
       end, set_calls (S (calls w1)) w1).
Proof.
  intros Hmode px w1 Hpx.
  unfold execute_order. unfold bind at 1. unfold gets at 1.
  rewrite (bind_Ret _ _ _ _ _ Hpx).
  rewrite Hmode. change (negb ("live" =? "live")%string) with false. cbv iota.
  unfold bind, exchange_create_order, ret.
  by destruct (venue_order _ _ _ _ _ _ _ _).
Qed.

(** X8.  In live mode [_run_order] sends the order to the venue before it
    checks the funds, and it settles at the ticker price.  With the ledger
    read and the two price look-ups answered ([px] by the one in
    [_run_order], [px2] by the one inside [execute_order], which is not
    used), the order is submitted.  If the venue refuses it, its exception
    comes out of [_run_order], whatever the funds.  If the venue accepts
    it, the live fill carries no fill price, so cost and proceeds are
    computed at [px]; an order that the funds do not cover is answered
    with the error dictionary although the venue has executed it, and the
    ledger is left as it was. *)
Theorem live_order_precedes_funds_check side amount sig today ot w p last_id px w1 px2 w2 :
  lower (str_or None (DEFAULT_MODE (env w))) = "live" →
  sig ∉ locks w →
  latest_of today (files w !! sig) = inr (p, last_id) →
  get_last_price None None (lock sig w) = (Ret px, w1) →
  get_last_price (Some (upper (str_or None (DEFAULT_PAIR (env w))))) (Some "live") w1
  = (Ret px2, w2) →
  let base := BASE_SYMBOL (env w) in
  let pair := upper (str_or None (DEFAULT_PAIR (env w))) in
  let placed := set_calls (S (calls w2)) w2 in
  let out := _run_order side amount sig today ot w in
  match venue_order (env w) (calls w2) "live" pair ot side amount None with
  | inl e => out = (Raise e, unlock sig placed)
  | inr receipt =>
      let order := Fill "live" pair side amount None None None (Some receipt) in
      match apply_side base side px amount (opening base p) with
      | inl err => out = (Ret err, unlock sig placed)
      | inr p' =>
          out = (Ret (Positions p'),
                 unlock sig
                   (set_IF_TRADE true
                      (appended sig
                         (trade_record today last_id side base amount px p' order) placed)))
      end
  end.
Proof.
  intros Hlive Hfree Hl Hp1 Hp2 base pair placed out.
  pose proof (keeps_books_get_last_price None None (lock sig w)) as Hb1.
  rewrite Hp1 in Hb1. destruct Hb1 as (He1 & _). cbn [snd] in He1.
  change (env (lock sig w)) with (env w) in He1.
  pose proof (keeps_books_get_last_price (Some pair) (Some "live") w1) as Hb2.
  fold pair in Hp2. rewrite Hp2 in Hb2. destruct Hb2 as (He2 & _). cbn [snd] in He2.
  assert (lower (str_or None (DEFAULT_MODE (env w1))) = "live") as Hlive1 by by rewrite He1.
  assert (get_last_price (Some (upper (str_or None (DEFAULT_PAIR (env w1)))))
            (Some (lower (str_or None (DEFAULT_MODE (env w1))))) w1 = (Ret px2, w2)) as Hp2'.
  { rewrite Hlive1, He1. exact Hp2. }
  pose proof (live_execute_order_steps side amount None ot None w1 Hlive1 px2 w2 Hp2') as Hex.
  rewrite He2, He1 in Hex. fold pair in Hex. fold placed in Hex.
  unfold out. rewrite _run_order_eq by done. rewrite Hl. cbv zeta.
  unfold quote. rewrite (bind_Ret _ _ _ _ _ Hp1). unfold bind. rewrite Hex.
  fold base.
  destruct (venue_order _ _ _ _ _ _ _ _) as [e|receipt]; [done|].
  unfold ret. cbn [fill_fill_price default].
  by destruct (apply_side _ _ _ _ _).
Qed.

(** Buying 20 BTC at 50000 with 10000 in cash, live: refused, after the
    venue has filled the order. *)
Lemma live_order_precedes_funds_check_witness :
  let w := with_ledger [Row (sample_record "2025-01-02" 0 10000 0)] (live_world 50000) in
  let out := _run_order "buy" 20 "agent" "2025-01-02" "market" w in
  venue_order (env w) 1 "live" "BTC/USDT" "market" "buy" 20%float None = inr "filled"
  ∧ out.1 = Ret (ErrInsufficientCash 1000000 10000)
  ∧ calls out.2 = 2%nat ∧ files out.2 = files w.
Proof.
  intros w out.
  pose proof (live_order_precedes_funds_check "buy" 20%float "agent" "2025-01-02" "market" w
                (<["BTC" := 0%float]> (<["CASH" := 10000%float]> ∅)) 0 50000%float
                (get_last_price None None (lock "agent" w)).2 50000%float
                (get_last_price (Some "BTC/USDT") (Some "live")
                   (get_last_price None None (lock "agent" w)).2).2
                eq_refl (not_elem_of_empty _) eq_refl eq_refl eq_refl) as H.
  split; [reflexivity|].
  fold out in H. unfold out at 2 3. cbv zeta in H.
  change (out = (Ret (ErrInsufficientCash 1000000 10000),
                 unlock "agent"
                   (set_calls 2
                      (get_last_price (Some "BTC/USDT") (Some "live")
                         (get_last_price None None (lock "agent" w)).2).2))) in H.
  rewrite H. split; [reflexivity|]. split; reflexivity.
Defined.

(** *** Paper mode places no order *)

Lemma ignores_orders_bind {A B} (m : M A) (k : A → M B) :
  ignores_orders m → (∀ a, ignores_orders (k a)) → ignores_orders (bind m k).
Proof.
  intros Hm Hk vo w. unfold bind. rewrite Hm.
  destruct (m w) as [[a| |] w1]; cbn [fst snd]; [apply Hk|done..].
Qed.

Lemma ignores_orders_ret {A} (a : A) : ignores_orders (ret a).
Proof. done. Qed.

Lemma ignores_orders_raise {A} e : ignores_orders (@raise A e).
Proof. done. Qed.

Lemma ignores_orders_time_time : ignores_orders time_time.
Proof. done. Qed.

Lemma ignores_orders_fetch_ticker symbol mode : ignores_orders (fetch_ticker symbol mode).
Proof.
  intros vo w. rewrite !fetch_ticker_eq. cbv zeta.
  change (env (with_venue_order vo w)) with
    (Settings (BASE_SYMBOL (env w)) (DEFAULT_PAIR (env w)) (DEFAULT_MODE (env w))
       (CACHE_TTL (env w)) (str_to_float (env w)) (clock (env w)) (venue_ticker (env w)) vo).
  cbn [DEFAULT_PAIR DEFAULT_MODE CACHE_TTL clock venue_ticker].
  change (TICKER_CACHE (with_venue_order vo w)) with (TICKER_CACHE w).
  change (ticks (with_venue_order vo w)) with (ticks w).
  change (calls (with_venue_order vo w)) with (calls w).
  destruct (TICKER_CACHE w !! _) as [[ts data]|].
  - destruct (_ <? _)%float; [done|]. by destruct (venue_ticker _ _ _ _).
  - by destruct (venue_ticker _ _ _ _).
Qed.

Lemma ignores_orders_get_last_price symbol mode : ignores_orders (get_last_price symbol mode).
Proof.
  unfold get_last_price. apply ignores_orders_bind; [apply ignores_orders_fetch_ticker|].
  intros t. destruct (py_or _ _) as [|x|s]; [done|done|].
  intros vo w. unfold bind, gets, ret, raise. cbn [env with_venue_order str_to_float].
  destruct (str_to_float (env w) s); reflexivity.
Qed.

Lemma paper_execute_order_eq side amount symbol ot price mode w :
  lower (str_or mode (DEFAULT_MODE (env w))) ≠ "live" →
  execute_order side amount symbol ot price mode w
  = match (match price with
           | Some p => ret p
           | None =>
               get_last_price (Some (upper (str_or symbol (DEFAULT_PAIR (env w)))))
                 (Some (lower (str_or mode (DEFAULT_MODE (env w)))))
           end) w with
    | (Ret px, w1) =>
        (Ret (Fill "paper" (upper (str_or symbol (DEFAULT_PAIR (env w)))) side amount
                (Some px) (Some ot) (Some (clock (env w1) (ticks w1))) None),
         set_ticks (S (ticks w1)) w1)
    | (Raise e, w1) => (Raise e, w1)
    | (Blocked, w1) => (Blocked, w1)
    end.
Proof.
  intros Hmode. apply String.eqb_neq in Hmode.
  unfold execute_order. unfold bind at 1. unfold gets at 1. unfold bind at 1.
  destruct (match price with Some p => ret p | None => _ end w) as [[px| |] w1]; [|done..].
  rewrite Hmode. reflexivity.
Qed.

Lemma paper_execute_order_ignores_orders side amount symbol ot price mode vo w :
  lower (str_or mode (DEFAULT_MODE (env w))) ≠ "live" →
  execute_order side amount symbol ot price mode (with_venue_order vo w)
  = ((execute_order side amount symbol ot price mode w).1,
     with_venue_order vo (execute_order side amount symbol ot price mode w).2).
Proof.
  intros Hmode. rewrite !paper_execute_order_eq by exact Hmode.
  change (DEFAULT_PAIR (env (with_venue_order vo w))) with (DEFAULT_PAIR (env w)).
  change (DEFAULT_MODE (env (with_venue_order vo w))) with (DEFAULT_MODE (env w)).
  assert (ignores_orders
            (match price with
             | Some p => ret p
             | None =>
                 get_last_price (Some (upper (str_or symbol (DEFAULT_PAIR (env w)))))
                   (Some (lower (str_or mode (DEFAULT_MODE (env w)))))
             end)) as Hpx.
  { destruct price; [apply ignores_orders_ret|apply ignores_orders_get_last_price]. }
  rewrite Hpx.
  destruct (match price with Some p => ret p | None => _ end w) as [[px| |] w1];
    reflexivity.
Qed.

Lemma paper_quote_ignores_orders side amount ot vo w :
  lower (str_or None (DEFAULT_MODE (env w))) ≠ "live" →
  quote side amount ot (with_venue_order vo w)
  = ((quote side amount ot w).1, with_venue_order vo (quote side amount ot w).2).
Proof.
  intros Hmode. unfold quote. unfold bind at 1 3 5.
  rewrite ignores_orders_get_last_price.
  pose proof (keeps_books_get_last_price None None w) as Hb.
  destruct (get_last_price None None w) as [[px| |] w1]; cbn [fst snd] in *; [|done..].
  destruct Hb as (He & _).
  unfold bind. rewrite paper_execute_order_ignores_orders by (by rewrite He).
  destruct (execute_order side amount None ot None None w1) as [[order| |] w2]; reflexivity.
Qed.

(** X20.  In paper mode no order reaches the venue.  When the trade mode
    is not [live], the outcome of [_run_order] and everything it does to
    the world are the same whatever the venue would answer to an order:
    the order endpoint is never consulted, whether the order is settled,
    refused, or fails. *)
Theorem paper_mode_places_no_order side amount sig today ot vo w :
  lower (str_or None (DEFAULT_MODE (env w))) ≠ "live" →
  _run_order side amount sig today ot (with_venue_order vo w)
  = ((_run_order side amount sig today ot w).1,
     with_venue_order vo (_run_order side amount sig today ot w).2).
Proof.
  intros Hmode. destruct (decide (sig ∈ locks w)) as [Hheld|Hfree].
  { rewrite !_run_order_held by done. done. }
  rewrite !_run_order_eq by done.
  change (files (with_venue_order vo w)) with (files w).
  destruct (latest_of today (files w !! sig)) as [e|[p last_id]]; [done|].
  cbv zeta.
  change (lock sig (with_venue_order vo w)) with (with_venue_order vo (lock sig w)).
  rewrite paper_quote_ignores_orders by exact Hmode.
  change (BASE_SYMBOL (env (with_venue_order vo w))) with (BASE_SYMBOL (env w)).
  destruct (quote side amount ot (lock sig w)) as [[[fp order]| |] w1]; cbn [fst snd];
    [|done..].
  destruct (apply_side _ _ _ _ _) as [err|p']; reflexivity.
Qed.

Lemma paper_mode_places_no_order_witness :
  _run_order "buy" 0.1 "agent" "2025-01-02" "market"
    (with_venue_order (fun _ _ _ _ _ _ _ => inr "filled") seeded_world)
  = ((_run_order "buy" 0.1 "agent" "2025-01-02" "market" seeded_world).1,
     with_venue_order (fun _ _ _ _ _ _ _ => inr "filled")
       (_run_order "buy" 0.1 "agent" "2025-01-02" "market" seeded_world).2).
Proof.
  apply (paper_mode_places_no_order "buy" 0.1%float "agent" "2025-01-02" "market"
           (fun _ _ _ _ _ _ _ => inr "filled") seeded_world).
  discriminate.
Defined.

(** *** The lock is released on every path *)

Lemma _run_order_locks side amount sig today ot w :
  locks (_run_order side amount sig today ot w).2 = locks w.
Proof.
  destruct (decide (sig ∈ locks w)) as [Hheld|Hfree].
  { by rewrite _run_order_held. }
  rewrite _run_order_eq by done.
  destruct (latest_of today (files w !! sig)) as [e|[p last_id]]; [done|].
  cbv zeta.
  pose proof (keeps_books_quote side amount ot (lock sig w)) as Hb.
  destruct (quote side amount ot (lock sig w)) as [[[fp order]| |] w1]; cbn [snd] in Hb;
    pose proof (same_books_unlock _ _ _ Hfree Hb) as (_ & _ & Hl & _); [|exact Hl..].
  destruct (apply_side _ _ _ _ _) as [err|p']; exact Hl.
Qed.

Lemma exec_locks o w : locks (exec o w) = locks w.
Proof.
  destruct o as [amount|amount|today s|s today|s today]; simpl.
  - unfold buy, bind, gets.
    destruct (unset (cfg_SIGNATURE w) || unset (cfg_TODAY_DATE w)); [done|].
    destruct (amount <=? 0)%float; [done|]. apply _run_order_locks.
  - unfold sell, bind, gets.
    destruct (unset (cfg_SIGNATURE w) || unset (cfg_TODAY_DATE w)); [done|].
    destruct (amount <=? 0)%float; [done|]. apply _run_order_locks.
  - rewrite add_no_trade_record_eq.
    by destruct (latest_of today (files w !! s)) as [e|[p m]].
  - rewrite _handle_trading_result_eq. destruct (cfg_IF_TRADE w); [done|].
    rewrite add_no_trade_record_eq.
    by destruct (latest_of today (files w !! s)) as [e|[p m]].
  - done.
Qed.

(** The gateway never waits. *)
Lemma fetch_ticker_returns symbol mode w : (fetch_ticker symbol mode w).1 ≠ Blocked.
Proof.
  rewrite fetch_ticker_eq. cbv zeta.
  destruct (TICKER_CACHE w !! _) as [[ts data]|].
  - destruct (_ <? _)%float; [done|]. by destruct (venue_ticker _ _ _ _).
  - by destruct (venue_ticker _ _ _ _).
Qed.

Lemma get_last_price_returns symbol mode w : (get_last_price symbol mode w).1 ≠ Blocked.
Proof.
  unfold get_last_price, bind. pose proof (fetch_ticker_returns symbol mode w) as H.
  destruct (fetch_ticker symbol mode w) as [[t| |] w1]; [|done..].
  destruct (py_or _ _) as [|x|s]; [done|done|].
  unfold gets, ret, raise. by destruct (str_to_float (env w1) s).
Qed.

Lemma execute_order_returns side amount symbol ot price mode w :
  (execute_order side amount symbol ot price mode w).1 ≠ Blocked.
Proof.
  unfold execute_order. unfold bind at 1. unfold gets at 1. unfold bind at 1.
  assert ((match price with
           | Some p => ret p
           | None =>
               get_last_price (Some (upper (str_or symbol (DEFAULT_PAIR (env w)))))
                 (Some (lower (str_or mode (DEFAULT_MODE (env w)))))
           end w).1 ≠ Blocked) as H.
  { destruct price; [done|apply get_last_price_returns]. }
  destruct (match price with Some p => ret p | None => _ end w) as [[px| |] w1]; [|done..].
  destruct (negb _).
  - done.
  - unfold bind, exchange_create_order, ret. by destruct (venue_order _ _ _ _ _ _ _ _).
Qed.

Lemma quote_returns side amount ot w : (quote side amount ot w).1 ≠ Blocked.
Proof.
  unfold quote, bind. pose proof (get_last_price_returns None None w) as H1.
  destruct (get_last_price None None w) as [[px| |] w1]; [|done..].
  pose proof (execute_order_returns side amount None ot None None w1) as H2.
  by destruct (execute_order side amount None ot None None w1) as [[order| |] w2].
Qed.

(** X21.  The lock is released on every path, and nothing else makes a
    settlement wait.  [_run_order] waits exactly when the agent's lock is
    held as it starts; otherwise it returns or raises.  Whatever it and
    the other operations do, positions returned, order refused or
    exception raised, the set of held locks afterwards is what it was
    before: along any sequence of operations that starts with no lock
    held, no lock is ever left held and no settlement ever waits. *)
Theorem lock_never_leaks :
  (∀ side amount sig today ot w,
     (_run_order side amount sig today ot w).1 = Blocked ↔ sig ∈ locks w)
  ∧ (∀ ops w, locks (run ops w) = locks w)
  ∧ (∀ ops w side amount sig today ot,
       locks w = ∅ → (_run_order side amount sig today ot (run ops w)).1 ≠ Blocked).
Proof.
  assert (∀ side amount sig today ot w,
            (_run_order side amount sig today ot w).1 = Blocked ↔ sig ∈ locks w) as Hwait.
  { intros side amount sig today ot w. split.
    - intros H. destruct (decide (sig ∈ locks w)) as [Hheld|Hfree]; [done|]. exfalso.
      rewrite _run_order_eq in H by done.
      destruct (latest_of today (files w !! sig)) as [e|[p last_id]]; [done|].
      cbv zeta in H. pose proof (quote_returns side amount ot (lock sig w)) as Hq.
      destruct (quote side amount ot (lock sig w)) as [[[fp order]| |] w1]; [|done..].
      by destruct (apply_side _ _ _ _ _).
    - intros Hheld. by rewrite _run_order_held. }
  assert (∀ ops w, locks (run ops w) = locks w) as Hrun.
  { intros ops. induction ops as [|o ops IH]; intros w; [done|].
    simpl. by rewrite IH, exec_locks. }
  split; [exact Hwait|]. split; [exact Hrun|].
  intros ops w side amount sig today ot Hfree H. apply Hwait in H.
  rewrite Hrun, Hfree in H. by apply not_elem_of_empty in H.
Qed.

(** *** A no-trade record written during a settlement *)

(** The loop over a ledger that ends with the record numbered next. *)
Lemma scan_snoc d file p m r :
  latest_of d file = inr (p, m) →
  rec_date r = Some d → rec_id r = Some (m + 1) →
  scan d (default [] file ++ [Row r])%list (∅, -1) = inr (get_positions r, m + 1)
  ∧ 0 <= m + 1.
Proof.
  intros Hl Hd Hi. unfold latest_of in Hl.
  assert (get_id r = m + 1) as Hid by (unfold get_id; by rewrite Hi).
  destruct file as [L|]; simpl.
  - rewrite scan_app.
    destruct (scan d L (∅, -1)) as [e|[p1 m1]] eqn:Hs1; [done|].
    simpl. rewrite (date_is_refl _ _ Hd), Hid.
    assert (-1 <= m ∧ ((m1 >=? 0) = true → m = m1) ∧ ((m1 >=? 0) = false → m1 < 0))
      as (Hm & Hm1 & Hm1').
    { destruct (m1 >=? 0) eqn:Hge.
      - injection Hl as -> ->. apply Z.geb_le in Hge. split; [lia|]. split; [done|done].
      - destruct (get_yesterday_date d) as [e|prev]; [done|].
        apply scan_sound in Hl as (Hle & _). simpl in Hle.
        rewrite Z.geb_leb in Hge. apply Z.leb_gt in Hge. split; [lia|]. split; [done|lia]. }
    assert ((m + 1 >? m1) = true) as ->.
    { apply Z.gtb_lt. destruct (m1 >=? 0); [rewrite Hm1 by done|specialize (Hm1' eq_refl)]; lia. }
    split; [done|lia].
  - injection Hl as <- <-. rewrite (date_is_refl _ _ Hd), Hid. done.
Qed.

(** X17.  [add_no_trade_record] does not take the agent's lock.  When it
    runs while a settlement stands between its read of the latest
    position and its append, it is not held back: it numbers its record
    from the same latest position as the settlement does.  The ledger
    then ends with the no-trade record and the trade record, both under
    the id [l + 1], and since a later record only replaces the latest one
    when its id is larger, [get_latest_position] keeps answering the
    positions from before the trade. *)
Theorem unlocked_no_trade_collides sig today rq w p l fp order w' p' :
  sig ∉ locks w →
  latest_of today (files w !! sig) = inr (p, l) →
  let base := BASE_SYMBOL (env w) in
  let no_trade := no_trade_record today l p in
  let trade := trade_record today l (req_side rq) base (req_amount rq) fp p' order in
  let w1 := appended sig no_trade (lock sig w) in
  quote (req_side rq) (req_amount rq) (req_order_type rq) w1 = (Ret (fp, order), w') →
  apply_side base (req_side rq) fp (req_amount rq) (opening base p) = inr p' →
  run_schedule sig today [0; 0]%nat (start w [rq])
  = Some (System (lock sig w) [(rq, Loaded p l)])
  ∧ add_no_trade_record today sig (lock sig w) = (Ret tt, w1)
  ∧ ∃ w2,
      run_schedule sig today [0; 0; 0]%nat (System w1 [(rq, Loaded p l)])
      = Some (System w2 [(rq, Returned (Ret (Positions p')))])
      ∧ ledger sig w2 = (ledger sig w ++ [Row no_trade; Row trade])%list
      ∧ rec_id no_trade = Some (l + 1) ∧ rec_id trade = Some (l + 1)
      ∧ get_latest_position today sig w2 = (Ret (p, l + 1), w2).
Proof.
  intros Hfree Hl base no_trade trade w1 Hq Hap.
  pose proof (keeps_books_quote (req_side rq) (req_amount rq) (req_order_type rq) w1) as Hb.
  rewrite Hq in Hb. destruct Hb as (He & Hf & _). cbn [snd] in He, Hf.
  change (env w1) with (env w) in He.
  split; [|split].
  - unfold run_schedule, sys_step, start. cbn [threads shared map lookup list_lookup].
    cbn [advance]. unfold _Lock__enter__. rewrite bool_decide_eq_false_2 by done.
    cbn [insert list_insert threads shared lookup list_lookup advance].
    fold (lock sig w). rewrite get_latest_position_eq.
    change (files (lock sig w)) with (files w). by rewrite Hl.
  - rewrite add_no_trade_record_eq. change (files (lock sig w)) with (files w).
    by rewrite Hl.
  - eexists. split; [|split; [|split; [done|split; [done|]]]].
    + unfold run_schedule, sys_step. cbn [threads shared lookup list_lookup advance].
      rewrite Hq. cbn [insert list_insert threads shared lookup list_lookup advance].
      unfold settle_step. rewrite He. fold base. rewrite Hap.
      cbn [insert list_insert threads shared lookup list_lookup advance].
      change ((_Lock__exit__ sig ?v).2) with (unlock sig v). reflexivity.
    + change (ledger sig (unlock sig (set_IF_TRADE true ?v))) with (ledger sig v).
      rewrite ledger_appended. unfold ledger at 1. rewrite Hf.
      fold (ledger sig w1). unfold w1. rewrite ledger_appended.
      change (ledger sig (lock sig w)) with (ledger sig w).
      by rewrite <- app_assoc.
    + rewrite get_latest_position_eq. f_equal.
      rewrite files_unlock. change (files (set_IF_TRADE true ?v)) with (files v).
      rewrite files_appended, lookup_insert_eq. unfold ledger at 1. rewrite Hf.
      unfold w1. rewrite files_appended, lookup_insert_eq.
      change (ledger sig (lock sig w)) with (default [] (files w !! sig)).
      change (default [] (Some ?x)) with x. unfold latest_of. rewrite scan_app.
      destruct (scan_snoc today (files w !! sig) p l no_trade Hl eq_refl eq_refl)
        as [Hs Hge].
      rewrite Hs. cbn [scan]. fold trade. rewrite (date_is_refl today trade eq_refl).
      change (get_id trade) with (l + 1). cbn [snd].
      assert ((l + 1 >? l + 1) = false) as -> by (rewrite Z.gtb_ltb; apply Z.ltb_irrefl).
      assert ((l + 1 >=? 0) = true) as -> by (apply Z.geb_le; lia).
      done.
Qed.

Lemma unlocked_no_trade_collides_witness :
  ∃ w2,
    run_schedule "agent" "2025-01-02" [0; 0; 0]%nat
      (System (appended "agent"
                 (no_trade_record "2025-01-02" 0
                    (<["BTC" := 0%float]> (<["CASH" := 10000%float]> ∅)))
                 (lock "agent" seeded_world))
         [(Request "buy" 0.1 "market",
           Loaded (<["BTC" := 0%float]> (<["CASH" := 10000%float]> ∅)) 0)])
    = Some (System w2
              [(Request "buy" 0.1 "market",
                Returned (Ret (Positions
                                 (<["BTC" := 0.1%float]> (<["CASH" := 5000%float]> ∅)))))])
    ∧ ids_on "2025-01-02" (ledger "agent" w2) = [1; 1]
    ∧ get_latest_position "2025-01-02" "agent" w2
      = (Ret (<["BTC" := 0%float]> (<["CASH" := 10000%float]> ∅), 0 + 1), w2).
Proof.
  destruct (unlocked_no_trade_collides "agent" "2025-01-02" (Request "buy" 0.1 "market")
              seeded_world (<["BTC" := 0%float]> (<["CASH" := 10000%float]> ∅)) 0
              50000%float
              (Fill "paper" "BTC/USDT" "buy" 0.1 (Some 50000%float) (Some "market")
                 (Some 1000%float) None)
              (quote "buy" 0.1 "market"
                 (appended "agent"
                    (no_trade_record "2025-01-02" 0
                       (<["BTC" := 0%float]> (<["CASH" := 10000%float]> ∅)))
                    (lock "agent" seeded_world))).2
              (<["BTC" := 0.1%float]> (<["CASH" := 5000%float]> ∅)))
    as (_ & _ & w2 & Hrun & Hledger & _ & _ & Hlatest).
  - apply not_elem_of_empty.
  - vm_compute. reflexivity.
  - vm_compute. reflexivity.
  - vm_compute. reflexivity.
  - exists w2. split; [exact Hrun|]. split; [|exact Hlatest].
    rewrite Hledger. vm_compute. reflexivity.
Defined.

(** *** The symbol a trade is booked under *)

Lemma upper_char_idem c : upper_char (upper_char c) = upper_char c.
Proof. destruct c as [[] [] [] [] [] [] [] []]; reflexivity. Qed.

Lemma upper_idem s : upper (upper s) = upper s.
Proof. induction s as [|c s IH]; simpl; [done|]. by rewrite upper_char_idem, IH. Qed.

Lemma upper_before_slash s : upper (before_slash (upper s)) = before_slash (upper s).
Proof.
  induction s as [|c s IH]; simpl; [done|].
  destruct (Ascii.eqb (upper_char c) "/"); [done|]. simpl.
  by rewrite upper_char_idem, IH.
Qed.

Lemma execute_order_symbol side amount symbol ot price mode w order w' :
  execute_order side amount symbol ot price mode w = (Ret order, w') →
  fill_symbol order = upper (str_or symbol (DEFAULT_PAIR (env w))).
Proof.
  unfold execute_order, bind, gets, ret, time_time, exchange_create_order.
  destruct price as [px0|];
    [|destruct (get_last_price _ _ w) as [[px| |] w1]; [|done..]];
    destruct (negb _).
  all: try by intros [= <- _].
  all: destruct (venue_order _ _ _ _ _ _ _ _); [done|]; by intros [= <- _].
Qed.

(** X18.  The symbol of the books does not follow the traded pair.  With
    the constants read from an environment that does not set
    [CRYPTO_BASE_SYMBOL], every committed order is sent for the pair named
    by [CRYPTO_PAIR] (upper-cased, [BTC/USDT] when unset) and is booked
    under the symbol [BTC], in the action and in the positions, whatever
    that pair is; the price helpers label the same market by the part of
    the pair before its first [/]. *)
Theorem base_symbol_ignores_pair e side amount sig today ot w p' w' :
  e !! "CRYPTO_BASE_SYMBOL" = None →
  BASE_SYMBOL (env w) = trade_BASE_SYMBOL e →
  DEFAULT_PAIR (env w) = ccxt_DEFAULT_PAIR e →
  _run_order side amount sig today ot w = (Ret (Positions p'), w') →
  (∃ r a order,
     ledger sig w' = (ledger sig w ++ [Row r])%list
     ∧ rec_this_action r = Some a ∧ act_symbol a = "BTC"
     ∧ rec_order r = Some order
     ∧ fill_symbol order = upper (default "BTC/USDT" (e !! "CRYPTO_PAIR"))
     ∧ rec_positions r = Some p' ∧ is_Some (p' !! "BTC"))
  ∧ price_BASE_SYMBOL e = before_slash (upper (default "BTC/USDT" (e !! "CRYPTO_PAIR"))).
Proof.
  intros Hunset Hbase Hpair H.
  assert (BASE_SYMBOL (env w) = "BTC") as Hbtc.
  { rewrite Hbase. unfold trade_BASE_SYMBOL. by rewrite Hunset. }
  split.
  2:{ unfold price_BASE_SYMBOL, ccxt_DEFAULT_PAIR. rewrite Hunset. simpl.
      apply upper_before_slash. }
  apply _run_order_committed in H
    as (Hfree & p & last_id & fp & order & w1 & Hl & Hq & Hap & ->).
  pose proof (keeps_books_quote side amount ot (lock sig w)) as Hb. rewrite Hq in Hb.
  destruct Hb as (_ & Hf & _). cbn [snd] in Hf. change (files (lock sig w)) with (files w) in Hf.
  rewrite Hbtc in *.
  exists (trade_record today last_id side "BTC" amount fp p' order),
    (Action side "BTC" amount (Some fp)), order.
  split; [|split; [reflexivity|split; [reflexivity|split; [reflexivity|]]]].
  - change (ledger sig (unlock sig (set_IF_TRADE true ?v))) with (ledger sig v).
    rewrite ledger_appended. unfold ledger. by rewrite Hf.
  - split; [|split; [reflexivity|]].
    + unfold quote in Hq. unfold bind in Hq.
      destruct (get_last_price None None (lock sig w)) as [[px| |] w2] eqn:Hp; [|done..].
      destruct (execute_order side amount None ot None None w2) as [[o| |] w3] eqn:Hex;
        [|done..].
      injection Hq as _ <- _.
      rewrite (execute_order_symbol _ _ _ _ _ _ _ _ _ Hex).
      pose proof (keeps_books_get_last_price None None (lock sig w)) as Hb.
      rewrite Hp in Hb. destruct Hb as (He & _). cbn [snd] in He.
      rewrite He. change (env (lock sig w)) with (env w). rewrite Hpair.
      unfold ccxt_DEFAULT_PAIR, str_or. apply upper_idem.
    + unfold apply_side in Hap. destruct (String.eqb side "buy").
      * destruct (_ <? 0)%float; [done|]. injection Hap as <-.
        rewrite lookup_insert_eq. by eexists.
      * destruct (_ <? amount)%float; [done|]. injection Hap as <-.
        rewrite lookup_insert_ne by done. rewrite lookup_insert_eq. by eexists.
Qed.

Lemma base_symbol_ignores_pair_witness :
  price_BASE_SYMBOL eth_environ = "ETH"
  ∧ ∃ r a order,
      ledger "agent" (_run_order "buy" 2 "agent" "2025-01-02" "market" eth_world).2
      = (ledger "agent" eth_world ++ [Row r])%list
      ∧ rec_this_action r = Some a ∧ act_symbol a = "BTC"
      ∧ rec_order r = Some order ∧ fill_symbol order = "ETH/USDT".
Proof.
  destruct (base_symbol_ignores_pair eth_environ "buy" 2%float "agent" "2025-01-02" "market"
              eth_world (<["BTC" := 2%float]> (<["CASH" := 5000%float]> ∅))
              (_run_order "buy" 2 "agent" "2025-01-02" "market" eth_world).2)
    as [(r & a & order & HL & Ha & Hsym & Ho & Hpair & _) Hprice].
  - reflexivity.
  - reflexivity.
  - reflexivity.
  - vm_compute. reflexivity.
  - split; [rewrite Hprice; reflexivity|].
    exists r, a, order. split; [exact HL|]. split; [exact Ha|]. split; [exact Hsym|].
    split; [exact Ho|]. rewrite Hpair. reflexivity.
Defined.

(** *** The calendar, forwards *)

Lemma days_before_year_mono a b :
  a <= b → Calendar.days_before_year a <= Calendar.days_before_year b.
Proof. unfold Calendar.days_before_year. cbv zeta. intros H. Z.div_mod_to_equations. lia. Qed.

Lemma day_of_year_bounds y m d :
  Calendar.valid (Calendar.Date y m d) = true →
  1 <= Calendar.days_before_month y m + d <= 365 + (if Calendar.is_leap y then 1 else 0).
Proof.
  unfold Calendar.valid. simpl. rewrite !andb_true_iff, !Z.leb_le.
  intros ((((Hy & Hm1) & Hm12) & Hd1) & Hdm).
  assert (m = 1 ∨ m = 2 ∨ m = 3 ∨ m = 4 ∨ m = 5 ∨ m = 6 ∨ m = 7 ∨ m = 8 ∨ m = 9
          ∨ m = 10 ∨ m = 11 ∨ m = 12) as Hc by lia.
  unfold Calendar.days_before_month, Calendar.days_in_month in *.
  destruct (Calendar.is_leap y);
    repeat (destruct Hc as [->|Hc]); try subst m; simpl in *; lia.
Qed.

Lemma month_order y m1 d1 m2 d2 :
  Calendar.valid (Calendar.Date y m1 d1) = true →
  Calendar.valid (Calendar.Date y m2 d2) = true →
  m1 < m2 →
  Calendar.days_before_month y m1 + d1 < Calendar.days_before_month y m2 + d2.
Proof.
  unfold Calendar.valid. simpl. rewrite !andb_true_iff, !Z.leb_le.
  intros ((((Hy & Hm1) & Hm12) & Hd1) & Hdm) ((((_ & Hn1) & Hn12) & He1) & Hen) Hlt.
  assert (Calendar.days_before_month y m1 + Calendar.days_in_month y m1
          <= Calendar.days_before_month y m2) as Hstep.
  { assert (m1 = 1 ∨ m1 = 2 ∨ m1 = 3 ∨ m1 = 4 ∨ m1 = 5 ∨ m1 = 6 ∨ m1 = 7 ∨ m1 = 8
            ∨ m1 = 9 ∨ m1 = 10 ∨ m1 = 11) as Hc by lia.
    assert (m2 = 2 ∨ m2 = 3 ∨ m2 = 4 ∨ m2 = 5 ∨ m2 = 6 ∨ m2 = 7 ∨ m2 = 8
            ∨ m2 = 9 ∨ m2 = 10 ∨ m2 = 11 ∨ m2 = 12) as Hc2 by lia.
    unfold Calendar.days_before_month, Calendar.days_in_month.
    destruct (Calendar.is_leap y);
      repeat (destruct Hc as [->|Hc]); try subst m1;
      repeat (destruct Hc2 as [->|Hc2]); try subst m2; simpl; lia. }
  lia.
Qed.

(** Comparing the fields is comparing the ordinals. *)
Lemma date_leb_ordinal d1 d2 :
  Calendar.valid d1 = true → Calendar.valid d2 = true →
  date_leb d1 d2 = (Calendar.toordinal d1 <=? Calendar.toordinal d2).
Proof.
  destruct d1 as [y1 m1 dd1], d2 as [y2 m2 dd2]. intros Hv1 Hv2.
  pose proof (day_of_year_bounds _ _ _ Hv1) as B1.
  pose proof (day_of_year_bounds _ _ _ Hv2) as B2.
  unfold date_leb, Calendar.toordinal. simpl.
  destruct (Z.lt_trichotomy y1 y2) as [Hy|[->|Hy]].
  - assert ((y1 <? y2) = true) as -> by by apply Z.ltb_lt. simpl.
    pose proof (days_before_year_succ y1) as Hs.
    pose proof (days_before_year_mono (y1 + 1) y2 ltac:(lia)).
    symmetry. apply Z.leb_le. lia.
  - rewrite Z.ltb_irrefl, Z.eqb_refl. simpl.
    destruct (Z.lt_trichotomy m1 m2) as [Hm|[->|Hm]].
    + assert ((m1 <? m2) = true) as -> by by apply Z.ltb_lt. simpl.
      pose proof (month_order _ _ _ _ _ Hv1 Hv2 Hm). symmetry. apply Z.leb_le. lia.
    + rewrite Z.ltb_irrefl, Z.eqb_refl. simpl.
      destruct (dd1 <=? dd2) eqn:Hd; symmetry;
        [apply Z.leb_le; apply Z.leb_le in Hd|apply Z.leb_gt; apply Z.leb_gt in Hd]; lia.
    + assert ((m1 <? m2) = false) as -> by (apply Z.ltb_ge; lia).
      assert ((m1 =? m2) = false) as -> by (apply Z.eqb_neq; lia). simpl.
      pose proof (month_order _ _ _ _ _ Hv2 Hv1 Hm). symmetry. apply Z.leb_gt. lia.
  - assert ((y1 <? y2) = false) as -> by (apply Z.ltb_ge; lia).
    assert ((y1 =? y2) = false) as -> by (apply Z.eqb_neq; lia). simpl.
    pose proof (days_before_year_succ y2) as Hs.
    pose proof (days_before_year_mono (y2 + 1) y1 ltac:(lia)).
    symmetry. apply Z.leb_gt. lia.
Qed.

(** The day after a valid date is the valid date whose ordinal is one
    more; only 9999-12-31 has none. *)
Lemma plus_one_day_ordinal d d' :
  Calendar.valid d = true → plus_one_day d = Some d' →
  Calendar.valid d' = true ∧ Calendar.toordinal d' = Calendar.toordinal d + 1
  ∧ (Calendar.year d <= 9999 → Calendar.year d' <= 9999).
Proof.
  destruct d as [y m dd]. unfold Calendar.valid, plus_one_day. simpl.
  intros Hv Hp. rewrite !andb_true_iff, !Z.leb_le in Hv.
  destruct Hv as ((((Hy & Hm1) & Hm12) & Hd1) & Hdm).
  destruct (dd <? Calendar.days_in_month y m) eqn:Hdd.
  { injection Hp as <-. apply Z.ltb_lt in Hdd. unfold Calendar.valid, Calendar.toordinal. simpl.
    split; [|split; lia]. rewrite !andb_true_iff, !Z.leb_le. lia. }
  apply Z.ltb_ge in Hdd. assert (dd = Calendar.days_in_month y m) as -> by lia.
  destruct (m <? 12) eqn:Hmm.
  { injection Hp as <-. apply Z.ltb_lt in Hmm.
    unfold Calendar.valid, Calendar.toordinal. simpl.
    assert (m = 1 ∨ m = 2 ∨ m = 3 ∨ m = 4 ∨ m = 5 ∨ m = 6 ∨ m = 7 ∨ m = 8 ∨ m = 9
            ∨ m = 10 ∨ m = 11) as Hc by lia.
    unfold Calendar.days_before_month, Calendar.days_in_month.
    destruct (Calendar.is_leap y);
      repeat (destruct Hc as [->|Hc]); try subst m; simpl;
      (split; [rewrite !andb_true_iff, !Z.leb_le; lia | split; lia]). }
  apply Z.ltb_ge in Hmm. assert (m = 12) as -> by lia.
  destruct (y <? 9999) eqn:Hyy; [|discriminate].
  injection Hp as <-. apply Z.ltb_lt in Hyy.
  unfold Calendar.valid, Calendar.toordinal, Calendar.days_in_month. simpl.
  split; [rewrite !andb_true_iff, !Z.leb_le; lia|]. split; [|lia].
  pose proof (days_before_year_succ y) as Hs.
  unfold Calendar.days_before_month. simpl.
  destruct (Calendar.is_leap y); simpl; lia.
Qed.

Lemma plus_one_day_None d :
  Calendar.valid d = true → Calendar.year d <= 9999 →
  plus_one_day d = None → d = Calendar.Date 9999 12 31.
Proof.
  destruct d as [y m dd]. unfold Calendar.valid, plus_one_day. simpl.
  intros Hv Hy Hp. rewrite !andb_true_iff, !Z.leb_le in Hv.
  destruct Hv as ((((Hy1 & Hm1) & Hm12) & Hd1) & Hdm).
  destruct (dd <? Calendar.days_in_month y m) eqn:Hdd; [done|].
  destruct (m <? 12) eqn:Hmm; [done|].
  destruct (y <? 9999) eqn:Hyy; [done|].
  apply Z.ltb_ge in Hdd, Hmm, Hyy.
  assert (m = 12) as -> by lia. assert (y = 9999) as -> by lia.
  unfold Calendar.days_in_month in *. simpl in *. f_equal. lia.
Qed.

Lemma date_leb_antisym d1 d2 :
  date_leb d1 d2 = true → date_leb d2 d1 = true → d1 = d2.
Proof.
  destruct d1 as [y1 m1 dd1], d2 as [y2 m2 dd2]. unfold date_leb. simpl.
  rewrite !orb_true_iff, !andb_true_iff, !orb_true_iff, !andb_true_iff,
    !Z.ltb_lt, !Z.eqb_eq, !Z.leb_le.
  intros H1 H2. assert (y1 = y2 ∧ m1 = m2 ∧ dd1 = dd2) as (-> & -> & ->) by lia. done.
Qed.

Lemma toordinal_inj d1 d2 :
  Calendar.valid d1 = true → Calendar.valid d2 = true →
  Calendar.toordinal d1 = Calendar.toordinal d2 → d1 = d2.
Proof.
  intros Hv1 Hv2 Ho. apply date_leb_antisym.
  - rewrite date_leb_ordinal by done. apply Z.leb_le. lia.
  - rewrite date_leb_ordinal by done. apply Z.leb_le. lia.
Qed.

(** No valid date of at most four digits comes after 9999-12-31. *)
Lemma toordinal_max d :
  Calendar.valid d = true → Calendar.year d <= 9999 →
  Calendar.toordinal d <= Calendar.toordinal (Calendar.Date 9999 12 31).
Proof.
  intros Hv Hy. apply Z.leb_le. rewrite <- date_leb_ordinal by done.
  destruct d as [y m dd]. unfold Calendar.valid in Hv. simpl in *.
  rewrite !andb_true_iff, !Z.leb_le in Hv.
  destruct Hv as ((((Hy1 & Hm1) & Hm12) & Hd1) & Hdm).
  assert (dd <= 31).
  { unfold Calendar.days_in_month in Hdm.
    destruct (m =? 2); [destruct (Calendar.is_leap y)|destruct (_ || _)]; lia. }
  unfold date_leb. simpl.
  rewrite !orb_true_iff, !andb_true_iff, !orb_true_iff, !andb_true_iff,
    !Z.ltb_lt, !Z.eqb_eq, !Z.leb_le. lia.
Qed.

Lemma plus_one_day_Some c e :
  Calendar.valid c = true → Calendar.year c <= 9999 →
  Calendar.valid e = true → Calendar.year e <= 9999 →
  Calendar.toordinal c <= Calendar.toordinal e →
  plus_one_day e ≠ None ∨ c ≠ e → ∃ next, plus_one_day c = Some next.
Proof.
  intros Hvc Hyc Hve Hye Hle Hor.
  destruct (plus_one_day c) as [next|] eqn:Hp; [by eexists|]. exfalso.
  apply plus_one_day_None in Hp; [|done..]. subst c.
  pose proof (toordinal_max e Hve Hye).
  assert (Calendar.Date 9999 12 31 = e) as <- by (apply toordinal_inj; [done..|lia]).
  destruct Hor as [Hor|Hor]; by apply Hor.
Qed.

(** The loop when the end date has a next day: it stops by its
    condition, having listed the days from [current] to [end_dt]. *)
Lemma collect_dates_ok n :
  ∀ fuel c e acc,
    Calendar.valid c = true → Calendar.year c <= 9999 →
    Calendar.valid e = true → Calendar.year e <= 9999 →
    plus_one_day e ≠ None →
    Calendar.toordinal e + 1 - Calendar.toordinal c = Z.of_nat n →
    (n < fuel)%nat →
    ∃ days,
      collect_dates fuel c e acc = Some (inr (acc ++ days)%list)
      ∧ length days = n
      ∧ ∀ i, (i < n)%nat →
          ∃ d, days !! i = Some (Calendar.strftime d)
               ∧ Calendar.valid d = true ∧ Calendar.year d <= 9999
               ∧ Calendar.toordinal d = Calendar.toordinal c + Z.of_nat i.
Proof.
  induction n as [|n IH]; intros fuel c e acc Hvc Hyc Hve Hye He Hn Hfuel;
    (destruct fuel as [|fuel]; [lia|]); simpl.
  - rewrite date_leb_ordinal by done.
    assert ((Calendar.toordinal c <=? Calendar.toordinal e) = false) as ->
      by (apply Z.leb_gt; lia).
    exists []. rewrite app_nil_r. split; [done|]. split; [done|]. intros i Hi. lia.
  - rewrite date_leb_ordinal by done.
    assert ((Calendar.toordinal c <=? Calendar.toordinal e) = true) as ->
      by (apply Z.leb_le; lia).
    destruct (plus_one_day_Some c e Hvc Hyc Hve Hye ltac:(lia) (or_introl He))
      as [next Hnext].
    rewrite Hnext.
    destruct (plus_one_day_ordinal _ _ Hvc Hnext) as (Hvn & Hon & Hyn).
    destruct (IH fuel next e (acc ++ [Calendar.strftime c])%list Hvn (Hyn Hyc) Hve Hye He
                ltac:(lia) ltac:(lia)) as (days & Hrun & Hlen & Hdays).
    exists (Calendar.strftime c :: days). rewrite Hrun, <- app_assoc.
    split; [done|]. split; [simpl; lia|].
    intros [|i] Hi.
    + exists c. repeat split; try done. lia.
    + destruct (Hdays i ltac:(lia)) as (d & Hd & Hvd & Hyd & Hod).
      exists d. repeat split; try done. lia.
Qed.

(** The loop when the end date is 9999-12-31: the step past it
    overflows. *)
Lemma collect_dates_overflow n :
  ∀ fuel c e acc,
    Calendar.valid c = true → Calendar.year c <= 9999 →
    Calendar.valid e = true → Calendar.year e <= 9999 →
    plus_one_day e = None →
    Calendar.toordinal e - Calendar.toordinal c = Z.of_nat n →
    (n < fuel)%nat →
    collect_dates fuel c e acc = Some (inl OverflowError).
Proof.
  induction n as [|n IH]; intros fuel c e acc Hvc Hyc Hve Hye He Hn Hfuel;
    (destruct fuel as [|fuel]; [lia|]); simpl; rewrite date_leb_ordinal by done;
    (assert ((Calendar.toordinal c <=? Calendar.toordinal e) = true) as ->
       by (apply Z.leb_le; lia)).
  - assert (c = e) as -> by (apply toordinal_inj; [done..|lia]). by rewrite He.
  - destruct (plus_one_day_Some c e Hvc Hyc Hve Hye ltac:(lia)) as [next Hnext].
    { right. intros ->. lia. }
    rewrite Hnext.
    destruct (plus_one_day_ordinal _ _ Hvc Hnext) as (Hvn & Hon & Hyn).
    apply IH; try done; try lia; by apply Hyn.
Qed.

(** The dates after [start_date] up to [end_date], both well-formed. *)
Lemma dates_after_spec fuel start_date end_date s e :
  Calendar.strptime start_date = Some s →
  Calendar.strptime end_date = Some e →
  (Z.to_nat (Calendar.toordinal e - Calendar.toordinal s) < fuel)%nat →
  (plus_one_day s = None ∨ plus_one_day e = None →
   dates_after fuel start_date end_date = Some (inl OverflowError))
  ∧ (plus_one_day s ≠ None → plus_one_day e ≠ None →
     ∃ dates,
       dates_after fuel start_date end_date = Some (inr dates)
       ∧ length dates = Z.to_nat (Calendar.toordinal e - Calendar.toordinal s)
       ∧ ∀ i, (i < length dates)%nat →
           ∃ d, dates !! i = Some (Calendar.strftime d)
                ∧ Calendar.strptime (Calendar.strftime d) = Some d
                ∧ Calendar.toordinal d = Calendar.toordinal s + 1 + Z.of_nat i).
Proof.
  intros Hs He Hfuel. unfold dates_after. rewrite Hs, He.
  destruct (strptime_valid _ _ Hs) as [Hvs Hys].
  destruct (strptime_valid _ _ He) as [Hve Hye].
  split.
  - intros Hmax. destruct (plus_one_day s) as [c|] eqn:Hc; [|done].
    destruct Hmax as [Hmax|Hmax]; [done|].
    destruct (plus_one_day_ordinal _ _ Hvs Hc) as (Hvc & Hoc & Hyc).
    assert (s ≠ e) as Hne by (intros ->; congruence).
    assert (Calendar.toordinal s <= Calendar.toordinal e).
    { apply plus_one_day_None in Hmax; [|done..]. subst e. by apply toordinal_max. }
    assert (Calendar.toordinal s ≠ Calendar.toordinal e)
      by (intros Heq; apply Hne; by apply toordinal_inj).
    apply (collect_dates_overflow
             (Z.to_nat (Calendar.toordinal e - Calendar.toordinal c)));
      try done; try lia; by apply Hyc.
  - intros Hstart Hmax.
    destruct (plus_one_day s) as [c|] eqn:Hc; [|done].
    destruct (plus_one_day_ordinal _ _ Hvs Hc) as (Hvc & Hoc & Hyc).
    destruct (Z_le_gt_dec (Calendar.toordinal s) (Calendar.toordinal e)) as [Hle|Hgt].
    + destruct (collect_dates_ok (Z.to_nat (Calendar.toordinal e - Calendar.toordinal s))
                  fuel c e [] Hvc (Hyc Hys) Hve Hye Hmax ltac:(lia) Hfuel)
        as (dates & Hrun & Hlen & Hdays).
      exists dates. split; [done|]. split; [done|].
      intros i Hi. rewrite Hlen in Hi. destruct (Hdays i Hi) as (d & Hd & Hvd & Hyd & Hod).
      exists d. split; [done|]. split; [by apply strptime_strftime|lia].
    + destruct fuel as [|fuel]; [lia|]. simpl. rewrite date_leb_ordinal by done.
      assert ((Calendar.toordinal c <=? Calendar.toordinal e) = false) as ->
        by (apply Z.leb_gt; lia).
      exists []. split; [done|]. split; [simpl; lia|]. intros i Hi. simpl in Hi. lia.
Qed.

(** *** The dates still to trade *)

Lemma last_record_date_app l1 l2 last :
  last_record_date (l1 ++ l2) last
  = match last_record_date l1 last with
    | inl e => inl e
    | inr last' => last_record_date l2 last'
    end.
Proof. revert last. induction l1 as [|[| |r] rest IH]; intros last; simpl; auto. Qed.

Lemma last_record_date_total lines last :
  Garbled ∉ lines → ∃ d, last_record_date lines last = inr d.
Proof.
  revert last. induction lines as [|[| |r] rest IH]; intros last H; simpl.
  - eauto.
  - apply IH. intros Hin. apply H. by right.
  - exfalso. apply H. left.
  - apply IH. intros Hin. apply H. by right.
Qed.

Lemma get_trading_dates_eq reg fuel file init_date end_date w :
  get_trading_dates reg fuel file init_date end_date w
  = let after (start_date : string) (w0 : world) :=
      match dates_after fuel start_date end_date with
      | Some (inr dates) => (Ret dates, w0)
      | Some (inl e) => (Raise e, w0)
      | None => (Blocked, w0)
      end in
    match files w !! file with
    | Some lines =>
        match last_record_date lines init_date with
        | inl e => (Raise e, w)
        | inr start_date => after start_date w
        end
    | None =>
        match reg w with
        | (Ret _, w0) => after init_date w0
        | (Raise e, w0) => (Raise e, w0)
        | (Blocked, w0) => (Blocked, w0)
        end
    end.
Proof.
  unfold get_trading_dates, bind, gets, lift, ret, raise. cbv zeta.
  destruct (files w !! file) as [lines|].
  - destruct (last_record_date lines init_date) as [e|start_date]; [done|].
    by destruct (dates_after fuel start_date end_date) as [[e|dates]|].
  - destruct (reg w) as [[[]| |] w0]; [|done..].
    by destruct (dates_after fuel init_date end_date) as [[e|dates]|].
Qed.

(** X9.  [get_trading_dates] starts from the date of the last record of
    the position file that has one (from [init_date] when no record has
    one, or, after registering the agent, when there is no file) and
    lists every calendar day after it up to and including [end_date], in
    order and without a gap: as many names as the two dates are days
    apart (none when [end_date] is not later), the [i]-th naming the day
    [i + 1] days after the start, in the form that [strptime] reads back.
    The loop ends by its own condition.  When either date is 9999-12-31
    the step past it raises [OverflowError] instead. *)
Theorem get_trading_dates_spec reg fuel file init_date end_date w w0 start_date s e :
  (∃ lines, files w !! file = Some lines
            ∧ last_record_date lines init_date = inr start_date ∧ w0 = w)
  ∨ (files w !! file = None ∧ reg w = (Ret tt, w0) ∧ start_date = init_date) →
  Calendar.strptime start_date = Some s →
  Calendar.strptime end_date = Some e →
  (Z.to_nat (Calendar.toordinal e - Calendar.toordinal s) < fuel)%nat →
  (plus_one_day s = None ∨ plus_one_day e = None →
   get_trading_dates reg fuel file init_date end_date w = (Raise OverflowError, w0))
  ∧ (plus_one_day s ≠ None → plus_one_day e ≠ None →
     ∃ dates,
       get_trading_dates reg fuel file init_date end_date w = (Ret dates, w0)
       ∧ length dates = Z.to_nat (Calendar.toordinal e - Calendar.toordinal s)
       ∧ ∀ i, (i < length dates)%nat →
           ∃ d, dates !! i = Some (Calendar.strftime d)
                ∧ Calendar.strptime (Calendar.strftime d) = Some d
                ∧ Calendar.toordinal d = Calendar.toordinal s + 1 + Z.of_nat i).
Proof.
  intros Hstart Hs He Hfuel.
  destruct (dates_after_spec fuel start_date end_date s e Hs He Hfuel) as [Hover Hok].
  rewrite get_trading_dates_eq. cbv zeta.
  assert (∀ after : string → world → outcome (list string) * world,
            match files w !! file with
            | Some lines =>
                match last_record_date lines init_date with
                | inl e => (Raise e, w)
                | inr start_date => after start_date w
                end
            | None =>
                match reg w with
                | (Ret _, w0) => after init_date w0
                | (Raise e, w0) => (Raise e, w0)
                | (Blocked, w0) => (Blocked, w0)
                end
            end = after start_date w0) as Hres.
  { intros after. destruct Hstart as [(lines & Hf & Hlast & ->)|(Hf & Hreg & ->)].
    - by rewrite Hf, Hlast.
    - by rewrite Hf, Hreg. }
  rewrite Hres. split.
  - intros Hmax. by rewrite (Hover Hmax).
  - intros Hs1 He1. destruct (Hok Hs1 He1) as (dates & -> & Hlen & Hdays). by exists dates.
Qed.

(** The seeded agent, last recorded on 2025-01-01, up to 2025-01-04. *)
Lemma get_trading_dates_spec_witness :
  ∃ dates,
    get_trading_dates (ret tt) 10 "agent" "2024-12-01" "2025-01-04" seeded_world
    = (Ret dates, seeded_world)
    ∧ length dates = 3%nat.
Proof.
  destruct (get_trading_dates_spec (ret tt) 10 "agent" "2024-12-01" "2025-01-04" seeded_world
              seeded_world "2025-01-01" (Calendar.Date 2025 1 1) (Calendar.Date 2025 1 4))
    as (_ & dates & Hrun & Hlen & _).
  - left. eexists. split; [reflexivity|]. split; reflexivity.
  - reflexivity.
  - reflexivity.
  - vm_compute. lia.
  - discriminate.
  - discriminate.
  - exists dates. split; [exact Hrun|exact Hlen].
Defined.

Example trading_dates_of_seeded_agent :
  get_trading_dates (ret tt) 10 "agent" "2024-12-01" "2025-01-04" seeded_world
  = (Ret ["2025-01-02"; "2025-01-03"; "2025-01-04"], seeded_world).
Proof. vm_compute. reflexivity. Qed.

(** *** No recorded day is scheduled again *)

Lemma latest_of_readable d lines res :
  latest_of d (Some lines) = inr res → Garbled ∉ lines.
Proof.
  intros H Hg. unfold latest_of in H. by rewrite (scan_garbled d lines _ Hg) in H.
Qed.

Lemma last_record_date_snoc L r today init_date :
  Garbled ∉ L → rec_date r = Some today →
  last_record_date (L ++ [Row r]) init_date = inr today.
Proof.
  intros Hg Hd. rewrite last_record_date_app.
  destruct (last_record_date_total L init_date Hg) as [a ->]. simpl. by rewrite Hd.
Qed.

(** After a writer has returned, the ledger ends with a record of
    [today]. *)
Lemma written_today today sig w w1 :
  add_no_trade_record today sig w = (Ret tt, w1)
  ∨ (∃ side amount ot p', _run_order side amount sig today ot w = (Ret (Positions p'), w1)) →
  ∃ L r, files w1 !! sig = Some (L ++ [Row r])%list ∧ (Garbled ∉ L) ∧ rec_date r = Some today.
Proof.
  assert (∀ res, latest_of today (files w !! sig) = inr res → Garbled ∉ ledger sig w) as Hread.
  { intros res Hl. unfold ledger. destruct (files w !! sig) as [lines|].
    - by apply (latest_of_readable today lines res).
    - intros Hin. inversion Hin. }
  intros [H|(side & amount & ot & p' & H)].
  - rewrite add_no_trade_record_eq in H.
    destruct (latest_of today (files w !! sig)) as [e|[p m]] eqn:Hl; [done|].
    injection H as <-. exists (ledger sig w), (no_trade_record today m p).
    rewrite files_appended, lookup_insert_eq. split; [done|]. split; [by eapply Hread|done].
  - apply _run_order_committed in H
      as (Hfree & p & last_id & fp & order & w' & Hl & Hq & Hap & ->).
    pose proof (keeps_books_quote side amount ot (lock sig w)) as Hb. rewrite Hq in Hb.
    destruct Hb as (_ & Hf & _). cbn [snd] in Hf.
    change (files (lock sig w)) with (files w) in Hf.
    exists (ledger sig w), (trade_record today last_id side (BASE_SYMBOL (env w)) amount fp p' order).
    rewrite files_unlock. change (files (set_IF_TRADE true ?v)) with (files v).
    rewrite files_appended, lookup_insert_eq. unfold ledger. rewrite Hf.
    split; [done|]. split; [by eapply Hread|done].
Qed.

(** X10.  A day that has been recorded is not scheduled again.  Once
    [add_no_trade_record] has returned for [today], or [_run_order] has
    returned positions for it, [get_trading_dates] lists, whatever its
    [init_date], exactly the days after [today] up to [end_date]: as many
    names as the two are days apart, each read back by [strptime] as a
    day later than [today] and not later than [end_date]; [today] is not
    among them. *)
Theorem recorded_day_is_not_rescheduled reg fuel sig init_date end_date today w w1 t e :
  add_no_trade_record today sig w = (Ret tt, w1)
  ∨ (∃ side amount ot p', _run_order side amount sig today ot w = (Ret (Positions p'), w1)) →
  Calendar.strptime today = Some t →
  Calendar.strptime end_date = Some e →
  plus_one_day t ≠ None → plus_one_day e ≠ None →
  (Z.to_nat (Calendar.toordinal e - Calendar.toordinal t) < fuel)%nat →
  ∃ dates,
    get_trading_dates reg fuel sig init_date end_date w1 = (Ret dates, w1)
    ∧ length dates = Z.to_nat (Calendar.toordinal e - Calendar.toordinal t)
    ∧ (∀ s, s ∈ dates →
         ∃ d, Calendar.strptime s = Some d
              ∧ Calendar.toordinal t < Calendar.toordinal d <= Calendar.toordinal e)
    ∧ today ∉ dates.
Proof.
  intros Hw Ht He Ht1 He1 Hfuel.
  destruct (written_today today sig w w1 Hw) as (L & r & Hf & Hg & Hd).
  destruct (dates_after_spec fuel today end_date t e Ht He Hfuel) as [_ Hok].
  destruct (Hok Ht1 He1) as (dates & Hrun & Hlen & Hdays).
  assert (∀ s, s ∈ dates →
            ∃ d, Calendar.strptime s = Some d
                 ∧ Calendar.toordinal t < Calendar.toordinal d <= Calendar.toordinal e)
    as Hin.
  { intros s Hs. apply list_elem_of_lookup in Hs as [i Hi].
    pose proof (lookup_lt_Some _ _ _ Hi) as Hlt.
    destruct (Hdays i Hlt) as (d & Hd' & Hrt & Ho).
    rewrite Hi in Hd'. injection Hd' as ->. exists d. split; [done|]. lia. }
  exists dates. split; [|split; [done|split; [done|]]].
  - rewrite get_trading_dates_eq. cbv zeta.
    by rewrite Hf, (last_record_date_snoc L r today init_date Hg Hd), Hrun.
  - intros Hmem. destruct (Hin today Hmem) as (d & Hd' & Ho).
    rewrite Ht in Hd'. injection Hd' as <-. lia.
Qed.

Lemma recorded_day_is_not_rescheduled_witness :
  let w1 := (add_no_trade_record "2025-01-02" "agent" seeded_world).2 in
  ∃ dates,
    get_trading_dates (ret tt) 10 "agent" "2024-12-01" "2025-01-04" w1 = (Ret dates, w1)
    ∧ length dates = 2%nat ∧ "2025-01-02" ∉ dates.
Proof.
  intros w1.
  destruct (recorded_day_is_not_rescheduled (ret tt) 10 "agent" "2024-12-01" "2025-01-04"
              "2025-01-02" seeded_world w1 (Calendar.Date 2025 1 2) (Calendar.Date 2025 1 4))
    as (dates & Hrun & Hlen & _ & Hnot).
  - left. reflexivity.
  - reflexivity.
  - reflexivity.
  - discriminate.
  - discriminate.
  - vm_compute. lia.
  - exists dates. split; [exact Hrun|]. split; [exact Hlen|exact Hnot].
Defined.

(** *** Finding a candle *)

Lemma _locate_bar_from_spec target bars n :
  (n <= length bars)%nat →
  match _locate_bar_from target bars n with
  | Some b =>
      ∃ i, (i < n)%nat ∧ bars !! i = Some b ∧ bar_date b = target
           ∧ ∀ j b', (i < j < n)%nat → bars !! j = Some b' → bar_date b' ≠ target
  | None => ∀ j b', (j < n)%nat → bars !! j = Some b' → bar_date b' ≠ target
  end.
Proof.
  induction n as [|n IH]; intros Hn; simpl.
  { intros j b' Hj. lia. }
  destruct (bars !! n) as [b|] eqn:Hb.
  2:{ apply lookup_ge_None in Hb. lia. }
  destruct (String.eqb (bar_date b) target) eqn:Hd.
  - apply String.eqb_eq in Hd. exists n. split; [lia|]. split; [done|]. split; [done|].
    intros j b' Hj. lia.
  - apply String.eqb_neq in Hd. specialize (IH ltac:(lia)).
    destruct (_locate_bar_from target bars n) as [b0|].
    + destruct IH as (i & Hi & Hbi & Hdi & Hlater). exists i.
      split; [lia|]. split; [done|]. split; [done|].
      intros j b' Hj Hbj. destruct (decide (j = n)) as [->|Hne].
      * rewrite Hb in Hbj. by injection Hbj as <-.
      * apply (Hlater j); [lia|done].
    + intros j b' Hj Hbj. destruct (decide (j = n)) as [->|Hne].
      * rewrite Hb in Hbj. by injection Hbj as <-.
      * apply (IH j); [lia|done].
Qed.

(** X11.  [_locate_bar] returns the last candle of the list that carries
    the date, and [None] exactly when no candle carries it. *)
Theorem locate_bar_spec target bars :
  match _locate_bar target bars with
  | Some b =>
      ∃ i, bars !! i = Some b ∧ bar_date b = target
           ∧ ∀ j b', (i < j)%nat → bars !! j = Some b' → bar_date b' ≠ target
  | None => ∀ b, b ∈ bars → bar_date b ≠ target
  end.
Proof.
  unfold _locate_bar.
  pose proof (_locate_bar_from_spec target bars (length bars) ltac:(lia)) as H.
  destruct (_locate_bar_from target bars (length bars)) as [b|].
  - destruct H as (i & Hi & Hb & Hd & Hlater). exists i. split; [done|]. split; [done|].
    intros j b' Hj Hbj. apply (Hlater j); [|done].
    apply lookup_lt_Some in Hbj. lia.
  - intros b Hin. apply list_elem_of_lookup in Hin as [j Hj].
    apply (H j); [|done]. by apply lookup_lt_Some in Hj.
Qed.

Lemma first_match_spec target bars :
  ∀ k,
    match first_match target bars k with
    | Some i =>
        ∃ (n : nat) t, i = k + Z.of_nat n ∧ bars !! n = Some t ∧ bar_date t = target
                       ∧ ∀ j b', (j < n)%nat → bars !! j = Some b' → bar_date b' ≠ target
    | None => ∀ b, b ∈ bars → bar_date b ≠ target
    end.
Proof.
  induction bars as [|b rest IH]; intros k; simpl.
  { intros b Hb. inversion Hb. }
  destruct (String.eqb (bar_date b) target) eqn:Hd.
  - apply String.eqb_eq in Hd. exists 0%nat, b. split; [lia|]. split; [done|]. split; [done|].
    intros j b' Hj. lia.
  - apply String.eqb_neq in Hd. specialize (IH (k + 1)).
    destruct (first_match target rest (k + 1)) as [i|].
    + destruct IH as (n & t & -> & Ht & Hdt & Hbefore). exists (S n), t.
      split; [lia|]. split; [done|]. split; [done|].
      intros [|j] b' Hj Hbj; simpl in Hbj.
      * by injection Hbj as <-.
      * apply (Hbefore j); [lia|done].
    + intros b' Hin. apply elem_of_cons in Hin as [->|Hin]; [done|by apply IH].
Qed.

(** What [_locate_previous] computes, by the place of the first candle
    of the date. *)
Lemma _locate_previous_first target bars :
  match first_match target bars 0 with
  | None => _locate_previous target bars = None ∧ ∀ b, b ∈ bars → bar_date b ≠ target
  | Some i =>
      ∃ (n : nat) t, i = Z.of_nat n ∧ bars !! n = Some t ∧ bar_date t = target
        ∧ (∀ j b', (j < n)%nat → bars !! j = Some b' → bar_date b' ≠ target)
        ∧ _locate_previous target bars = match n with O => None | S m => bars !! m end
  end.
Proof.
  unfold _locate_previous. pose proof (first_match_spec target bars 0) as H.
  destruct (first_match target bars 0) as [i|]; [|done].
  destruct H as (n & t & -> & Ht & Hd & Hbefore). exists n, t.
  split; [lia|]. split; [done|]. split; [done|]. split; [done|].
  cbv zeta. unfold bar_at. destruct n as [|m].
  - change (Z.max 0 (0 + Z.of_nat 0 - 1)) with 0. change (Z.to_nat 0) with 0%nat.
    rewrite Ht. apply String.eqb_eq in Hd. rewrite Hd. reflexivity.
  - replace (Z.max 0 (0 + Z.of_nat (S m) - 1)) with (Z.of_nat m) by lia.
    rewrite ?Nat2Z.id.
    assert (m < length bars)%nat as Hm by (apply lookup_lt_Some in Ht; lia).
    destruct (lookup_lt_is_Some_2 bars m Hm) as [b Hb]. rewrite Hb.
    assert (bar_date b ≠ target) as Hne by (apply (Hbefore m); [lia|done]).
    apply String.eqb_neq in Hne. rewrite Hne. cbn [andb].
    assert ((Z.of_nat m =? 0 + Z.of_nat (S m)) = false) as -> by (apply Z.eqb_neq; lia).
    rewrite ?Nat2Z.id. exact Hb.
Qed.

(** X12.  [_locate_previous] returns the candle that stands just before
    the first candle of the date in the list; it is never a candle of
    that date.  It returns [None] exactly when no candle carries the date
    or the first candle of the list does. *)
Theorem locate_previous_spec target bars :
  match _locate_previous target bars with
  | Some b =>
      ∃ i t, bars !! i = Some b ∧ bars !! S i = Some t ∧ bar_date t = target
             ∧ ∀ j b', (j <= i)%nat → bars !! j = Some b' → bar_date b' ≠ target
  | None =>
      (∀ b, b ∈ bars → bar_date b ≠ target)
      ∨ (∃ t, bars !! 0%nat = Some t ∧ bar_date t = target)
  end.
Proof.
  pose proof (_locate_previous_first target bars) as H.
  destruct (first_match target bars 0) as [i|].
  - destruct H as (n & t & _ & Ht & Hd & Hbefore & ->). destruct n as [|m].
    + right. by exists t.
    + assert (m < length bars)%nat as Hm by (apply lookup_lt_Some in Ht; lia).
      destruct (lookup_lt_is_Some_2 bars m Hm) as [b Hb]. rewrite Hb.
      exists m, t. split; [done|]. split; [done|]. split; [done|].
      intros j b' Hj. apply Hbefore. lia.
  - destruct H as [-> Hno]. by left.
Qed.

(** *** Yesterday's prices *)

Lemma _locate_bar_None target bars :
  _locate_bar target bars = None ↔ ∀ b, b ∈ bars → bar_date b ≠ target.
Proof.
  unfold _locate_bar.
  pose proof (_locate_bar_from_spec target bars (length bars) ltac:(lia)) as H.
  destruct (_locate_bar_from target bars (length bars)) as [b|]; split; try done.
  - intros Hno. destruct H as (i & _ & Hb & Hd & _). exfalso. apply (Hno b); [|done].
    by apply list_elem_of_lookup_2 in Hb.
  - intros _ b Hin. apply list_elem_of_lookup in Hin as [j Hj].
    apply (H j); [|done]. by apply lookup_lt_Some in Hj.
Qed.

(** X13.  What [get_yesterday_open_and_close_price] calls yesterday is
    the previous candle of the list, whatever its date.  With the candles
    normalised to [bars]: when no candle carries [today], both prices are
    [None]; when the first candle of the list carries it, they are the
    open and the close of the candle that [_locate_bar] finds for [today]
    itself; otherwise they are the open and the close of the candle that
    stands just before the first candle of [today]. *)
Theorem yesterday_prices_spec today alias mk bars mk' :
  _normalize_bars None None None mk = (Ret bars, mk') →
  ∃ buy sell,
    get_yesterday_open_and_close_price today alias mk
    = (Ret (price_dict alias buy, price_dict alias sell), mk')
    ∧ ((∀ b, b ∈ bars → bar_date b ≠ today) → buy = None ∧ sell = None)
    ∧ (∀ t, bars !! 0%nat = Some t → bar_date t = today →
       ∃ l, _locate_bar today bars = Some l
            ∧ buy = Some (bar_open l) ∧ sell = Some (bar_close l))
    ∧ (∀ i p t, bars !! i = Some p → bars !! S i = Some t → bar_date t = today →
       (∀ j b', (j <= i)%nat → bars !! j = Some b' → bar_date b' ≠ today) →
       buy = Some (bar_open p) ∧ sell = Some (bar_close p)).
Proof.
  intros Hbars. unfold get_yesterday_open_and_close_price, hbind. rewrite Hbars.
  pose proof (_locate_bar_None today bars) as Hnone.
  pose proof (_locate_previous_first today bars) as Hfirst.
  destruct (_locate_bar today bars) as [l|].
  - assert (∃ b, b ∈ bars ∧ bar_date b = today) as (b0 & Hin0 & Hd0).
    { destruct (first_match today bars 0) as [fm|] eqn:Hfm.
      - destruct Hfirst as (n & t & _ & Ht & Hdt & _). exists t.
        split; [by apply list_elem_of_lookup_2 in Ht|done].
      - destruct Hfirst as [_ Hno].
        pose proof (proj2 Hnone Hno). discriminate. }
    destruct (first_match today bars 0) as [fm|].
    2:{ destruct Hfirst as [_ Hno]. exfalso. by apply (Hno b0). }
    destruct Hfirst as (n & t & _ & Ht & Hdt & Hbefore & ->).
    destruct n as [|m].
    + exists (Some (bar_open l)), (Some (bar_close l)). split; [done|].
      split. { intros Hno. exfalso. by apply (Hno b0). }
      split. { intros t' _ _. by exists l. }
      intros i p t' Hp Ht' Hdt' Hnoneb. exfalso. apply (Hnoneb 0%nat t); [lia|done|done].
    + assert (m < length bars)%nat as Hm by (apply lookup_lt_Some in Ht; lia).
      destruct (lookup_lt_is_Some_2 bars m Hm) as [b Hb]. rewrite Hb.
      change (default l (Some b)) with b.
      exists (Some (bar_open b)), (Some (bar_close b)). split; [done|].
      split. { intros Hno. exfalso. by apply (Hno b0). }
      split. { intros t' Ht' Hdt'. exfalso. apply (Hbefore 0%nat t'); [lia|done|done]. }
      intros i p t' Hp Ht' Hdt' Hnoneb.
      assert (i = m) as ->.
      { destruct (Nat.lt_trichotomy i m) as [Hlt|[->|Hgt]]; [|done|].
        - exfalso. apply (Hbefore (S i) t'); [lia|done|done].
        - exfalso. apply (Hnoneb (S m) t); [lia|done|done]. }
      rewrite Hb in Hp. by injection Hp as <-.
  - pose proof (proj1 Hnone eq_refl) as Hno.
    exists None, None. split; [done|]. split; [done|].
    split.
    + intros t Ht Hdt. exfalso. apply (Hno t); [|done]. by apply list_elem_of_lookup_2 in Ht.
    + intros i p t Hp Ht Hdt _. exfalso. apply (Hno t); [|done].
      by apply list_elem_of_lookup_2 in Ht.
Qed.

Lemma yesterday_prices_spec_witness :
  get_yesterday_open_and_close_price "2025-01-02" "BTC" sample_market
  = (Ret (price_dict "BTC" (Some 93000%float), price_dict "BTC" (Some 94000%float)),
     (_normalize_bars None None None sample_market).2).
Proof.
  destruct (yesterday_prices_spec "2025-01-02" "BTC" sample_market sample_bars
              (_normalize_bars None None None sample_market).2)
    as (buy & sell & Hrun & _ & _ & Hprev).
  - vm_compute. reflexivity.
  - destruct (Hprev 0%nat
                (Bar "2025-01-01" 93000 95000 92000 94000 1200 1735689600000)
                (Bar "2025-01-02" 94000 97000 93500 96500 1500 1735776000000))
      as [-> ->].
    + reflexivity.
    + reflexivity.
    + reflexivity.
    + intros [|j] b' Hj Hb; [|lia]. injection Hb as <-. discriminate.
    + exact Hrun.
Defined.

(** *** The candle cache *)

Lemma fetch_ohlcv_eq symbol timeframe limit mode mk :
  let cfg := env (trading mk) in
  let pair := upper (str_or symbol (DEFAULT_PAIR cfg)) in
  let frame := str_or timeframe (DEFAULT_TIMEFRAME (hist mk)) in
  let bars := int_or limit (DEFAULT_HISTORY_LIMIT (hist mk)) in
  let cache_id := _cache_key pair frame bars in
  let now := clock cfg (ticks (trading mk)) in
  let ticked := set_trading (set_ticks (S (ticks (trading mk))) (trading mk)) mk in
  let asked :=
    set_trading (set_calls (S (calls (trading mk)))
                   (set_ticks (S (ticks (trading mk))) (trading mk))) mk in
  let refresh :=
    match venue_ohlcv (hist mk) (calls (trading mk)) (lower (str_or mode (DEFAULT_MODE cfg)))
            pair frame bars with
    | inl e => (Raise e, asked)
    | inr data => (Ret data, set_OHLCV_CACHE (<[cache_id := (now, data)]> (OHLCV_CACHE mk)) asked)
    end in
  fetch_ohlcv symbol timeframe limit mode mk
  = match OHLCV_CACHE mk !! cache_id with
    | Some (ts, data) =>
        if (now - ts <? CACHE_TTL cfg)%float then (Ret data, ticked) else refresh
    | None => refresh
    end.
Proof.
  cbv zeta. unfold fetch_ohlcv, hbind, hgets, in_world, time_time, hret, hmodify,
    exchange_fetch_ohlcv.
  cbn [trading hist OHLCV_CACHE history_files set_trading set_OHLCV_CACHE
       env calls ticks set_ticks set_calls].
  destruct (OHLCV_CACHE mk !! _) as [[ts data]|].
  - destruct (_ <? _)%float; [done|].
    cbn [trading hist OHLCV_CACHE history_files set_trading set_OHLCV_CACHE
         env calls ticks set_ticks set_calls].
    by destruct (venue_ohlcv _ _ _ _ _ _).
  - cbn [trading hist OHLCV_CACHE history_files set_trading set_OHLCV_CACHE
         env calls ticks set_ticks set_calls].
    by destruct (venue_ohlcv _ _ _ _ _ _).
Qed.

(** Fetching candles leaves the settings, the history files and the
    books of the trade tool alone. *)
Lemma fetch_ohlcv_frame symbol timeframe limit mode mk :
  let mk' := (fetch_ohlcv symbol timeframe limit mode mk).2 in
  hist mk' = hist mk ∧ history_files mk' = history_files mk
  ∧ same_books (trading mk) (trading mk').
Proof.
  cbv zeta. rewrite fetch_ohlcv_eq. cbv zeta.
  destruct (OHLCV_CACHE mk !! _) as [[ts data]|].
  - destruct (_ <? _)%float; [by repeat split|].
    destruct (venue_ohlcv _ _ _ _ _ _); by repeat split.
  - destruct (venue_ohlcv _ _ _ _ _ _); by repeat split.
Qed.

Lemma _normalize_bars_eq symbol timeframe limit mk :
  _normalize_bars symbol timeframe limit mk
  = match fetch_ohlcv (Some (default (DEFAULT_PAIR (env (trading mk))) symbol))
            (Some (default (DEFAULT_TIMEFRAME (hist mk)) timeframe))
            (Some (default (DEFAULT_HISTORY_LIMIT (hist mk)) limit)) None mk with
    | (Ret ohlcv, mk') =>
        (match normalize_rows (hist mk) ohlcv [] with
         | inl e => Raise e
         | inr bars => Ret bars
         end, mk')
    | (Raise e, mk') => (Raise e, mk')
    | (Blocked, mk') => (Blocked, mk')
    end.
Proof.
  unfold _normalize_bars, hbind, hgets, hlift, hret, hraise.
  destruct (fetch_ohlcv _ _ _ _ mk) as [[ohlcv| |] mk']; [|done..].
  by destruct (normalize_rows (hist mk) ohlcv []).
Qed.

Lemma _normalize_bars_frame symbol timeframe limit mk :
  let mk' := (_normalize_bars symbol timeframe limit mk).2 in
  hist mk' = hist mk ∧ history_files mk' = history_files mk
  ∧ same_books (trading mk) (trading mk').
Proof.
  cbv zeta. rewrite _normalize_bars_eq.
  pose proof (fetch_ohlcv_frame (Some (default (DEFAULT_PAIR (env (trading mk))) symbol))
                (Some (default (DEFAULT_TIMEFRAME (hist mk)) timeframe))
                (Some (default (DEFAULT_HISTORY_LIMIT (hist mk)) limit)) None mk) as H.
  cbv zeta in H. by destruct (fetch_ohlcv _ _ _ _ mk) as [[ohlcv| |] mk'].
Qed.

(** The rows that normalise: six numbers each, with a timestamp that
    names a day. *)
Lemma normalize_rows_app hs l1 l2 acc :
  normalize_rows hs (l1 ++ l2) acc
  = match normalize_rows hs l1 acc with
    | inl e => inl e
    | inr acc' => normalize_rows hs l2 acc'
    end.
Proof.
  revert acc. induction l1 as [|row rest IH]; intros acc; simpl; [done|].
  destruct (normalize_row hs row); [done|apply IH].
Qed.

Lemma normalize_rows_spec hs ohlcv :
  ∀ acc bars,
    normalize_rows hs ohlcv acc = inr bars →
    ∃ new, bars = (acc ++ new)%list ∧ length new = length ohlcv
           ∧ ∀ i row, ohlcv !! i = Some row →
               ∃ b, new !! i = Some b ∧ normalize_row hs row = inr b.
Proof.
  induction ohlcv as [|row rest IH]; intros acc bars H; simpl in H.
  - injection H as <-. exists []. rewrite app_nil_r. split; [done|]. split; [done|].
    intros i row Hi. inversion Hi.
  - destruct (normalize_row hs row) as [e|b] eqn:Hrow; [done|].
    destruct (IH _ _ H) as (new & -> & Hlen & Hrows).
    exists (b :: new). rewrite <- app_assoc. split; [done|]. split; [simpl; lia|].
    intros [|i] row' Hi; simpl in Hi.
    + injection Hi as <-. by exists b.
    + by apply Hrows.
Qed.

(** X14.  [snapshot_history] writes all or nothing.  It normalises the
    candles before it opens the file: when fetching or normalising raises
    (the venue fails, a row has not six entries, a timestamp names no
    day), no history file is touched.  When it returns, exactly one file
    has been replaced, the one named after the symbol as given, with every
    [/] turned into [_], and the time frame; it holds one candle per row
    of the venue's answer, in order.  The ledgers, the locks and the
    configuration of the trade tool are never touched. *)
Theorem snapshot_history_all_or_nothing symbol timeframe limit mk :
  let cfg := env (trading mk) in
  let sym := default (DEFAULT_PAIR cfg) symbol in
  let frame := default (DEFAULT_TIMEFRAME (hist mk)) timeframe in
  let name := replace_slash sym ++ "_" ++ frame ++ ".jsonl" in
  let out := snapshot_history symbol timeframe limit mk in
  same_books (trading mk) (trading out.2)
  ∧ match out.1 with
    | Ret path =>
        path = name
        ∧ ∃ ohlcv bars mk1,
            fetch_ohlcv (Some sym) (Some frame)
              (Some (default (DEFAULT_HISTORY_LIMIT (hist mk)) limit)) None mk
            = (Ret ohlcv, mk1)
            ∧ history_files out.2 = <[name := bars]> (history_files mk)
            ∧ length bars = length ohlcv
            ∧ ∀ i row, ohlcv !! i = Some row →
                ∃ b, bars !! i = Some b ∧ normalize_row (hist mk) row = inr b
    | _ => history_files out.2 = history_files mk
    end.
Proof.
  cbv zeta. unfold snapshot_history, hbind, hgets, hmodify, hret.
  set (sym := default (DEFAULT_PAIR (env (trading mk))) symbol).
  set (frame := default (DEFAULT_TIMEFRAME (hist mk)) timeframe).
  set (lim := default (DEFAULT_HISTORY_LIMIT (hist mk)) limit).
  pose proof (_normalize_bars_frame (Some sym) (Some frame) (Some lim) mk) as Hfr.
  cbv zeta in Hfr. rewrite _normalize_bars_eq in Hfr |- *.
  change (default (DEFAULT_PAIR (env (trading mk))) (Some sym)) with sym in *.
  change (default (DEFAULT_TIMEFRAME (hist mk)) (Some frame)) with frame in *.
  change (default (DEFAULT_HISTORY_LIMIT (hist mk)) (Some lim)) with lim in *.
  destruct (fetch_ohlcv (Some sym) (Some frame) (Some lim) None mk) as [[ohlcv| |] mk1];
    cbn [fst snd] in *; destruct Hfr as (Hh & Hf & Hb); [|done..].
  destruct (normalize_rows (hist mk) ohlcv []) as [e|bars] eqn:Hn; cbn [fst snd]; [done|].
  split; [exact Hb|]. split; [done|].
  destruct (normalize_rows_spec _ _ _ _ Hn) as (new & -> & Hlen & Hrows).
  exists ohlcv, new, mk1. split; [done|]. split; [by rewrite <- Hf|]. split; done.
Qed.

(** *** What the candle cache is keyed by *)

Lemma str_int_inj a b : str_int a = str_int b → a = b.
Proof.
  unfold str_int. intros H. apply to_int_inj.
  assert (∀ n, NilZero.int_of_string (NilZero.string_of_int (Z.to_int n)) = Some (Z.to_int n))
    as Hround.
  { intros n. apply NilZero.isi; destruct n as [|p|p]; simpl; try discriminate;
      intros [= Hp]; by apply Unsigned.to_uint_nonnil in Hp. }
  pose proof (Hround a) as Ha. rewrite H, Hround in Ha. by injection Ha as <-.
Qed.

Lemma append_inj_l (s a b : string) : s ++ a = s ++ b → a = b.
Proof. induction s as [|c s IH]; simpl; [done|]. intros [= H]. by apply IH. Qed.

Lemma _cache_key_limit pair frame l l' :
  _cache_key pair frame l = _cache_key pair frame l' → l = l'.
Proof.
  unfold _cache_key. intros H. do 4 apply append_inj_l in H. by apply str_int_inj.
Qed.

(** X15.  The candle cache is keyed by the upper-cased pair, the time
    frame and the number of candles, and by nothing else.  After
    [fetch_ohlcv] has returned rows, the cache holds them under that key;
    a next call that resolves to the same pair, frame and number (a
    number of 0 or none at all meaning [DEFAULT_HISTORY_LIMIT]), in
    whatever trade mode, made while the entry is younger than the time to
    live, returns the same rows and asks the venue nothing.  A different
    number of candles is a different key. *)
Theorem ohlcv_cache_key symbol timeframe limit mode mk data mk1 :
  fetch_ohlcv symbol timeframe limit mode mk = (Ret data, mk1) →
  let cfg := env (trading mk) in
  let pair := upper (str_or symbol (DEFAULT_PAIR cfg)) in
  let frame := str_or timeframe (DEFAULT_TIMEFRAME (hist mk)) in
  let bars := int_or limit (DEFAULT_HISTORY_LIMIT (hist mk)) in
  ∃ ts,
    OHLCV_CACHE mk1 !! _cache_key pair frame bars = Some (ts, data)
    ∧ (∀ symbol' timeframe' limit' mode',
         upper (str_or symbol' (DEFAULT_PAIR cfg)) = pair →
         str_or timeframe' (DEFAULT_TIMEFRAME (hist mk)) = frame →
         int_or limit' (DEFAULT_HISTORY_LIMIT (hist mk)) = bars →
         (clock cfg (ticks (trading mk1)) - ts <? CACHE_TTL cfg)%float = true →
         fetch_ohlcv symbol' timeframe' limit' mode' mk1
         = (Ret data,
            set_trading (set_ticks (S (ticks (trading mk1))) (trading mk1)) mk1))
    ∧ (∀ limit',
         int_or limit' (DEFAULT_HISTORY_LIMIT (hist mk)) ≠ bars →
         _cache_key pair frame (int_or limit' (DEFAULT_HISTORY_LIMIT (hist mk)))
         ≠ _cache_key pair frame bars).
Proof.
  intros H cfg pair frame bars.
  pose proof (fetch_ohlcv_frame symbol timeframe limit mode mk) as Hfr.
  rewrite H in Hfr. cbv zeta in Hfr. cbn [snd] in Hfr. destruct Hfr as (Hh & _ & He & _).
  rewrite fetch_ohlcv_eq in H. cbv zeta in H. fold cfg pair frame bars in H.
  assert (∃ ts, OHLCV_CACHE mk1 !! _cache_key pair frame bars = Some (ts, data)) as [ts Hc].
  { destruct (OHLCV_CACHE mk !! _cache_key pair frame bars) as [[ts d]|] eqn:Hc.
    - destruct (_ <? _)%float.
      + injection H as <- <-. by exists ts.
      + destruct (venue_ohlcv _ _ _ _ _ _) as [e|d']; [done|]. injection H as <- <-.
        eexists. cbn [OHLCV_CACHE set_OHLCV_CACHE]. apply lookup_insert_eq.
    - destruct (venue_ohlcv _ _ _ _ _ _) as [e|d']; [done|]. injection H as <- <-.
      eexists. cbn [OHLCV_CACHE set_OHLCV_CACHE]. apply lookup_insert_eq. }
  exists ts. split; [done|]. split.
  - intros symbol' timeframe' limit' mode' Hp Hf Hb Hlt.
    rewrite fetch_ohlcv_eq. cbv zeta. rewrite Hh, He. fold cfg.
    rewrite Hp, Hf, Hb, Hc, Hlt. done.
  - intros limit' Hne Hk. by apply _cache_key_limit in Hk.
Qed.

(** A lower-case pair, no limit, live mode: served from what a call with
    limit 0 in paper mode has cached. *)
Lemma ohlcv_cache_key_witness :
  let mk1 := (fetch_ohlcv None None (Some 0) (Some "paper") sample_market).2 in
  fetch_ohlcv (Some "btc/usdt") (Some "1d") None (Some "live") mk1
  = (Ret sample_candles,
     set_trading (set_ticks (S (ticks (trading mk1))) (trading mk1)) mk1).
Proof.
  intros mk1.
  destruct (ohlcv_cache_key None None (Some 0) (Some "paper") sample_market sample_candles mk1)
    as (ts & Hc & Hhit & _); [reflexivity|].
  apply Hhit; [reflexivity..|].
  vm_compute in Hc. injection Hc as <-. vm_compute. reflexivity.
Defined.

(** *** The price of a day *)

(** X16.  [get_crypto_price], [get_daily_snapshot] and
    [get_open_prices] agree.  With the candles normalised to [bars], the
    payload carries the requested date and the symbol alias (the base
    symbol of the price helpers when none is given); its candle is the
    one [_locate_bar] finds for the date, and its one price, under the key
    made of the alias and [_price], is that candle's open, which is also
    what the other two return.  When no candle carries the date the
    candle is missing and the price is [None]; that is no error. *)
Theorem get_crypto_price_spec date symbol_alias mk bars mk' :
  _normalize_bars None None None mk = (Ret bars, mk') →
  let alias := default (PRICE_BASE_SYMBOL (hist mk)) symbol_alias in
  ∃ payload,
    get_crypto_price date symbol_alias mk = (Ret payload, mk')
    ∧ get_daily_snapshot date alias mk
      = (Ret (Snapshot (pay_prices payload) (pay_ohlcv payload)), mk')
    ∧ get_open_prices date alias mk = (Ret (pay_prices payload), mk')
    ∧ pay_date payload = date ∧ pay_symbol payload = alias
    ∧ pay_ohlcv payload = _locate_bar date bars
    ∧ pay_prices payload !! (alias ++ "_price") = Some (bar_open <$> _locate_bar date bars)
    ∧ (pay_ohlcv payload = None ↔ ∀ b, b ∈ bars → bar_date b ≠ date).
Proof.
  intros Hbars alias.
  unfold get_crypto_price, get_daily_snapshot, get_open_prices, hbind, hgets, hret.
  fold alias. rewrite Hbars.
  pose proof (_locate_bar_None date bars) as Hnone.
  destruct (_locate_bar date bars) as [b|].
  - eexists. split; [reflexivity|]. cbn [pay_prices pay_ohlcv pay_date pay_symbol
                                         snap_prices snap_ohlcv].
    split; [done|]. split; [done|]. split; [done|]. split; [done|]. split; [done|].
    split; [apply lookup_singleton_eq|exact Hnone].
  - eexists. split; [reflexivity|]. cbn [pay_prices pay_ohlcv pay_date pay_symbol
                                         snap_prices snap_ohlcv].
    split; [done|]. split; [done|]. split; [done|]. split; [done|]. split; [done|].
    split; [apply lookup_singleton_eq|exact Hnone].
Qed.

Lemma get_crypto_price_spec_witness :
  ∃ payload,
    get_crypto_price "2025-01-03" None sample_market
    = (Ret payload, (_normalize_bars None None None sample_market).2)
    ∧ pay_symbol payload = "BTC"
    ∧ get_open_prices "2025-01-03" "BTC" sample_market
      = (Ret (pay_prices payload), (_normalize_bars None None None sample_market).2).
Proof.
  destruct (get_crypto_price_spec "2025-01-03" None sample_market sample_bars
              (_normalize_bars None None None sample_market).2)
    as (payload & Hrun & _ & Hopen & _ & Hsym & _).
  - vm_compute. reflexivity.
  - exists payload. split; [exact Hrun|]. split; [exact Hsym|exact Hopen].
Defined.
